(** * be-mining: the agent response parser and the request orchestrator

    A shallow embedding of [agent.py]: the text-protocol parser
    [parse_agent_response], the prediction tool [predict_mining_target], and
    the two request handlers [predict_and_recommend] and [end_session].

    Python [str] values are modelled as lists of code points below 256
    (type [str]); on that range the regular-expression class [\d] is [0-9]
    and [\s] is what [str.isspace] accepts.  Python [float] values are the
    binary64 numbers of [SpecFloat]. *)

From Stdlib Require Import ZArith List Ascii String Bool Lia.
From Stdlib Require Import SpecFloat DecimalString DecimalPos.
From stdpp Require Import gmap strings fin_maps.
Import ListNotations.

Local Open Scope list_scope.

(** ** Python values and exceptions *)

Abbreviation str := (list ascii).

(** A string literal of the source. *)
Definition lit (s : string) : str := list_ascii_of_string s.

Inductive exn : Type :=
| ValueError (msg : str)
| OverflowError (msg : str)
| Exception (msg : str).

Definition exn_str (e : exn) : str :=
  match e with
  | ValueError m | OverflowError m | Exception m => m
  end.

(** The outcome of a call: a returned value or a raised exception. *)
Inductive res (A : Type) : Type :=
| Ret (a : A)
| Raise (e : exn).
Arguments Ret {A} a.
Arguments Raise {A} e.

Definition bind {A B : Type} (m : res A) (f : A -> res B) : res B :=
  match m with
  | Ret a => f a
  | Raise e => Raise e
  end.

Notation "'let*' x ':=' m 'in' k" := (bind m (fun x => k))
  (at level 10, x pattern, m at level 100, k at level 200,
   format "'[v' 'let*'  x  :=  m  'in' '/' k ']'").

(** ** Character classes *)

Module Chars.

Definition code (c : ascii) : nat := nat_of_ascii c.

(** [str.isspace] on one code point, also the class [\s]. *)
Definition is_space (c : ascii) : bool :=
  let n := code c in
  ((9 <=? n) && (n <=? 13)) || ((28 <=? n) && (n <=? 32))
  || (n =? 133) || (n =? 160).

(** [\d]. *)
Definition is_digit (c : ascii) : bool :=
  let n := code c in (48 <=? n) && (n <=? 57).

Definition newline : ascii := ascii_of_nat 10.

(** [[\d\.]]. *)
Definition is_digit_or_dot (c : ascii) : bool :=
  is_digit c || Ascii.eqb c "."%char.

(** [.] and [[^\n]]. *)
Definition not_newline (c : ascii) : bool := negb (Ascii.eqb c newline).

(** The C locale's [isspace], used by [float()] after its own
    normalisation of the text. *)
Definition is_c_space (c : ascii) : bool :=
  let n := code c in ((9 <=? n) && (n <=? 13)) || (n =? 32).

Definition lower (c : ascii) : ascii :=
  let n := code c in
  if (65 <=? n) && (n <=? 90) then ascii_of_nat (n + 32) else c.

End Chars.
Import Chars.

(** ** String operations of [str] *)

Module Str.

Fixpoint starts_with (p s : str) : bool :=
  match p, s with
  | [], _ => true
  | _ :: _, [] => false
  | a :: p', b :: s' => Ascii.eqb a b && starts_with p' s'
  end.

(** The text before and after the first occurrence of [sep]. *)
Fixpoint find_sub (sep s : str) : option (str * str) :=
  if starts_with sep s then Some ([], skipn (length sep) s)
  else match s with
       | [] => None
       | c :: s' =>
           match find_sub sep s' with
           | Some (a, b) => Some (c :: a, b)
           | None => None
           end
       end.

(** [sep in s]. *)
Definition contains (sep s : str) : bool :=
  match find_sub sep s with Some _ => true | None => false end.

(** [s.split(sep)] for a non-empty [sep]; every step consumes at least
    one character, so [length s] steps are enough. *)
Fixpoint split_fuel (n : nat) (sep s : str) : list str :=
  match n with
  | O => [s]
  | S n' =>
      match find_sub sep s with
      | None => [s]
      | Some (a, b) => a :: split_fuel n' sep b
      end
  end.

Definition split (sep s : str) : list str := split_fuel (length s) sep s.

(** [s.replace(old, new)] for a non-empty [old]. *)
Fixpoint replace_fuel (n : nat) (old new s : str) : str :=
  match n with
  | O => s
  | S n' =>
      match find_sub old s with
      | None => s
      | Some (a, b) => a ++ new ++ replace_fuel n' old new b
      end
  end.

Definition replace (old new s : str) : str :=
  replace_fuel (length s) old new s.

Fixpoint lstrip (s : str) : str :=
  match s with
  | c :: s' => if is_space c then lstrip s' else s
  | [] => []
  end.

Definition rstrip (s : str) : str := rev (lstrip (rev s)).

(** [s.strip()]. *)
Definition strip (s : str) : str := rstrip (lstrip s).

End Str.

(** ** Regular expressions

    The fragment of [re] that the parser's patterns use, with the
    backtracking semantics of the [re] module: alternatives are tried left
    to right, repetitions are greedy and give characters back one at a
    time. *)

Module Re.

Inductive re : Type :=
| Lit (s : str)                 (* literal text *)
| One (c : ascii -> bool)       (* one character of a class *)
| Star (c : ascii -> bool)      (* c*  *)
| Plus (c : ascii -> bool)      (* c+  *)
| Alt (r1 r2 : re)              (* r1|r2 *)
| Cat (r1 r2 : re)              (* r1 r2 *)
| Grp (r : re).                 (* ( r ) *)

Section Exec.
Context {A : Type}.

Fixpoint lit_k (p s : str) (k : str -> option A) : option A :=
  match p with
  | [] => k s
  | a :: p' =>
      match s with
      | b :: s' => if Ascii.eqb a b then lit_k p' s' k else None
      | [] => None
      end
  end.

Fixpoint star_k (c : ascii -> bool) (s : str) (k : str -> option A)
  : option A :=
  match s with
  | x :: s' =>
      if c x then
        match star_k c s' k with
        | Some a => Some a
        | None => k s
        end
      else k s
  | [] => k []
  end.

(** [exec r caps s k]: match [r] at the start of [s]; [k] receives the
    groups closed so far and the text that is left. *)
Fixpoint exec (r : re) (caps : list str) (s : str)
         (k : list str -> str -> option A) : option A :=
  match r with
  | Lit p => lit_k p s (k caps)
  | One c =>
      match s with
      | x :: s' => if c x then k caps s' else None
      | [] => None
      end
  | Star c => star_k c s (k caps)
  | Plus c =>
      match s with
      | x :: s' => if c x then star_k c s' (k caps) else None
      | [] => None
      end
  | Alt r1 r2 =>
      match exec r1 caps s k with
      | Some a => Some a
      | None => exec r2 caps s k
      end
  | Cat r1 r2 => exec r1 caps s (fun caps' s' => exec r2 caps' s' k)
  | Grp r1 =>
      exec r1 caps s
        (fun caps' s' =>
           k (caps' ++ [firstn (length s - length s') s]) s')
  end.
End Exec.

(** A match at the start of [s]: its groups and the text after it. *)
Definition match_here (r : re) (s : str) : option (list str * str) :=
  exec r [] s (fun caps rest => Some (caps, rest)).

(** [re.search]: the text before the leftmost match, its groups, and the
    text after it. *)
Fixpoint search (r : re) (s : str) : option (str * list str * str) :=
  match match_here r s with
  | Some (caps, rest) => Some ([], caps, rest)
  | None =>
      match s with
      | [] => None
      | c :: s' =>
          match search r s' with
          | Some (pre, caps, rest) => Some (c :: pre, caps, rest)
          | None => None
          end
      end
  end.

(** [re.findall] for a pattern that matches no empty text. *)
Fixpoint findall_fuel (n : nat) (r : re) (s : str) : list (list str) :=
  match n with
  | O => []
  | S n' =>
      match search r s with
      | None => []
      | Some (_, caps, rest) => caps :: findall_fuel n' r rest
      end
  end.

Definition findall (r : re) (s : str) : list (list str) :=
  findall_fuel (length s) r s.

(** [re.sub(r, '', s)] for a pattern that matches no empty text. *)
Fixpoint remove_fuel (n : nat) (r : re) (s : str) : str :=
  match n with
  | O => s
  | S n' =>
      match search r s with
      | None => s
      | Some (pre, _, rest) => pre ++ remove_fuel n' r rest
      end
  end.

Definition remove_all (r : re) (s : str) : str :=
  remove_fuel (length s) r s.

End Re.

(** ** Python's [float] and [int]

    [float(s)] reads a decimal numeral and rounds it to the nearest binary64
    number, ties to even; [int(x)] truncates towards zero. *)

Module PyFloat.

Definition prec : Z := 53.
Definition emax : Z := 1024.

Definition digit_val (c : ascii) : Z := Z.of_nat (code c) - 48.

Fixpoint digits_val (acc : Z) (s : str) : Z :=
  match s with
  | [] => acc
  | c :: s' => digits_val (10 * acc + digit_val c) s'
  end.

(** The longest prefix of [s] in the class [c], and the rest. *)
Fixpoint span (c : ascii -> bool) (s : str) : str * str :=
  match s with
  | x :: s' =>
      if c x then let (a, b) := span c s' in (x :: a, b) else ([], s)
  | [] => ([], [])
  end.

(** The binary64 number nearest to [(-1)^sign * m * 10^e]. *)
Definition of_decimal (sign : bool) (m e : Z) : spec_float :=
  match m with
  | Zpos p =>
      match e with
      | Zneg _ =>
          SFdiv prec emax (S754_finite sign p 0)
            (S754_finite false (Z.to_pos (10 ^ (- e))) 0)
      | _ => binary_round prec emax sign (Z.to_pos (Zpos p * 10 ^ e)) 0
      end
  | _ => S754_zero sign
  end.

Definition parse_sign (s : str) : bool * str :=
  match s with
  | c :: s' =>
      if Ascii.eqb c "-" then (true, s')
      else if Ascii.eqb c "+" then (false, s')
      else (false, s)
  | [] => (false, [])
  end.

(** What follows the mantissa: nothing, or a complete exponent. *)
Definition parse_exponent (s : str) : option Z :=
  match s with
  | [] => Some 0%Z
  | c :: s' =>
      if Ascii.eqb (lower c) "e" then
        let (neg, s'') := parse_sign s' in
        match span is_digit s'' with
        | (d :: ds, []) =>
            let v := digits_val 0 (d :: ds) in
            Some (if neg then (- v)%Z else v)
        | _ => None
        end
      else None
  end.

Definition str_eqb (a b : str) : bool :=
  bool_decide (a = b).

(** The numerals [float] accepts, once blanks and underscores are gone. *)
Definition parse_number (s : str) : option spec_float :=
  let (sign, s1) := parse_sign s in
  let low := map lower s1 in
  if str_eqb low (lit "inf") || str_eqb low (lit "infinity")
  then Some (S754_infinity sign)
  else if str_eqb low (lit "nan") then Some S754_nan
  else
    let (ip, s2) := span is_digit s1 in
    let (fp, s3) :=
      match s2 with
      | c :: t => if Ascii.eqb c "." then span is_digit t else ([], s2)
      | [] => ([], s2)
      end in
    match ip ++ fp with
    | [] => None
    | ds =>
        match parse_exponent s3 with
        | Some e =>
            Some (of_decimal sign (digits_val 0 ds)
                    (e - Z.of_nat (length fp)))
        | None => None
        end
    end.

(** Blanks beyond ASCII become a space, other characters beyond ASCII are
    not part of any numeral. *)
Definition normalise (c : ascii) : ascii :=
  if code c <? 127 then c
  else if is_space c then " "%char else "?"%char.

(** An underscore is dropped when it stands between two digits; anywhere
    else it makes the numeral invalid. *)
Fixpoint drop_underscores (prev : ascii) (s : str) : option str :=
  match s with
  | [] => if Ascii.eqb prev "_" then None else Some []
  | c :: s' =>
      if Ascii.eqb c "_" then
        if is_digit prev then drop_underscores c s' else None
      else if Ascii.eqb prev "_" && negb (is_digit c) then None
      else
        match drop_underscores c s' with
        | Some t => Some (c :: t)
        | None => None
        end
  end.

Fixpoint c_lstrip (s : str) : str :=
  match s with
  | c :: s' => if is_c_space c then c_lstrip s' else s
  | [] => []
  end.

Definition c_strip (s : str) : str := rev (c_lstrip (rev (c_lstrip s))).

(** [repr] of a string without quotes, backslashes or control
    characters, the only strings whose [repr] reaches a caller. *)
Definition repr (s : str) : str := lit "'" ++ s ++ lit "'".

Definition float_error (s : str) : exn :=
  ValueError (lit "could not convert string to float: " ++ repr s).

(** [float(s)]. *)
Definition float_of_str (s : str) : res spec_float :=
  let t := map normalise s in
  let body :=
    if existsb (Ascii.eqb "_") t
    then drop_underscores zero t
    else Some t in
  match body with
  | None => Raise (float_error s)
  | Some u =>
      match parse_number (c_strip u) with
      | Some f => Ret f
      | None => Raise (float_error s)
      end
  end.

(** [int(x)] for a float [x]. *)
Definition int_of_float (f : spec_float) : res Z :=
  match f with
  | S754_zero _ => Ret 0%Z
  | S754_finite s m e =>
      let v :=
        match e with
        | Zneg _ => (Zpos m / 2 ^ (- e))%Z
        | _ => (Zpos m * 2 ^ e)%Z
        end in
      Ret (if s then (- v)%Z else v)
  | S754_infinity _ =>
      Raise (OverflowError (lit "cannot convert float infinity to integer"))
  | S754_nan =>
      Raise (ValueError (lit "cannot convert float NaN to integer"))
  end.

(** [x == 0.0]. *)
Definition is_zero (f : spec_float) : bool :=
  match f with
  | S754_zero _ => true
  | _ => false
  end.

End PyFloat.

(** ** The response parser *)

Import Str Re PyFloat.

(** A value stored in a recommendation dictionary. *)
Inductive pyval : Type :=
| PInt (z : Z)
| PFloat (f : spec_float)
| PStr (s : str).

Abbreviation dict := (gmap string pyval).

(** The dictionary [parse_agent_response] returns on success. *)
Record analysis : Type := {
  initial_analysis_text : str;
  initial_prediction : spec_float;
  target_tonnage : Z;
  initial_difference : spec_float;
  recommendations : list dict
}.

(** What [parse_agent_response] returns: a dictionary with the single key
    [error], or the five-key result. *)
Inductive parsed : Type :=
| ErrorDict (error : str)
| ResultDict (a : analysis).

Definition END_ANALYSIS : str := lit "---END_ANALYSIS---".
Definition START_RECOMMENDATION : str := lit "---START_RECOMMENDATION---".

(** [Label:\s*([\d\.]+)]. *)
Definition labelled_number (label : string) : re :=
  Cat (Lit (lit label)) (Cat (Star is_space) (Grp (Plus is_digit_or_dot))).

Definition target_re : re := labelled_number "Target_Tonase_Ekstrak:".
Definition pred_re : re := labelled_number "Prediksi_Kontrol:".
Definition diff_re : re := labelled_number "Selisih_Kontrol:".

(** [w1|w2|...|wn]. *)
Fixpoint one_of (words : list string) : re :=
  match words with
  | [] => One (fun _ => false)
  | [w] => Lit (lit w)
  | w :: words' => Alt (Lit (lit w)) (one_of words')
  end.

Definition analysis_words : list string :=
  [ "Target_Tonase_Ekstrak"; "Prediksi_Kontrol"; "Selisih_Kontrol" ]%string.

(** [(Target_Tonase_Ekstrak|Prediksi_Kontrol|Selisih_Kontrol):\s*[\d\.]+]. *)
Definition analysis_line_re : re :=
  Cat (Grp (one_of analysis_words))
      (Cat (Lit (lit ":")) (Cat (Star is_space) (Plus is_digit_or_dot))).

(** The pattern [Rekomendasi \d: ( .* )]. *)
Definition title_re : re :=
  Cat (Lit (lit "Rekomendasi "))
      (Cat (One is_digit) (Cat (Lit (lit ": ")) (Grp (Star not_newline)))).

Definition param_words : list string :=
  [ "Truk"; "Ekskavator"; "Operator"; "Cuaca"; "Prediksi"; "Selisih";
    "Alasan" ]%string.

(** [(Truk|Ekskavator|Operator|Cuaca|Prediksi|Selisih|Alasan):\s*([^\n]+)]. *)
Definition param_re : re :=
  Cat (Grp (one_of param_words))
      (Cat (Lit (lit ":")) (Cat (Star is_space) (Grp (Plus not_newline)))).

(** [m.group(1) if m else None]. *)
Definition group1 (m : option (str * list str * str)) : option str :=
  match m with
  | Some (_, g :: _, _) => Some g
  | _ => None
  end.

Definition mapping : list (str * string) :=
  [ (lit "Truk", "trucks"); (lit "Ekskavator", "excavators");
    (lit "Operator", "operators"); (lit "Cuaca", "weather");
    (lit "Prediksi", "predicted_tonnage");
    (lit "Selisih", "difference_from_target");
    (lit "Alasan", "rationale") ]%string.

(** [mapping.get(key)]. *)
Fixpoint get (m : list (str * string)) (key : str) : option string :=
  match m with
  | [] => None
  | (k, v) :: m' => if str_eqb k key then Some v else get m' key
  end.

Definition RATIONALE_FALLBACK : str :=
  lit "Alasan tidak tersedia (Gagal parsing).".

Definition TITLE_FALLBACK : str := lit "Rekomendasi Tanpa Judul".

(** [value.replace('Ton', '').replace(',', '').strip()]. *)
Definition clean (value : str) : str :=
  strip (replace (lit ",") [] (replace (lit "Ton") [] value)).

(** The body of the inner [try]: the value a field is coerced to. *)
Definition coerce (python_key : string) (cleaned_value : str) : res pyval :=
  if bool_decide (python_key ∈ ["trucks"; "excavators"; "operators"]%string)
  then
    let* x := float_of_str cleaned_value in
    let* n := int_of_float x in
    Ret (PInt n)
  else if bool_decide
            (python_key ∈ ["predicted_tonnage"; "difference_from_target"]%string)
  then
    let* x := float_of_str cleaned_value in
    Ret (PFloat x)
  else Ret (PStr cleaned_value).

(** One iteration of [for key, value in params]; only [ValueError] is
    handled. *)
Definition set_param (data : dict) (key value : str) : res dict :=
  match get mapping key with
  | Some python_key =>
      let cleaned_value := clean value in
      match coerce python_key cleaned_value with
      | Ret v => Ret (<[python_key := v]> data)
      | Raise (ValueError _) => Ret (<[python_key := PStr cleaned_value]> data)
      | Raise e => Raise e
      end
  | None => Ret data
  end.

Fixpoint set_params (params : list (list str)) (data : dict) : res dict :=
  match params with
  | [] => Ret data
  | groups :: params' =>
      let* data' := set_param data (nth 0 groups []) (nth 1 groups []) in
      set_params params' data'
  end.

(** The dictionary built from one non-empty, stripped block. *)
Definition parse_block (rec_block : str) : res dict :=
  let title_match := search title_re rec_block in
  let title :=
    match group1 title_match with
    | Some g => strip g
    | None => TITLE_FALLBACK
    end in
  let data : dict := <["title"%string := PStr title]> ∅ in
  let params := findall param_re rec_block in
  let* data := set_params params data in
  Ret (match data !! "rationale"%string with
       | None => <["rationale"%string := PStr RATIONALE_FALLBACK]> data
       | Some _ => data
       end).

(** [for rec_block in recs_list]. *)
Fixpoint parse_blocks (recs_list : list str) (recommendations_data : list dict)
  : res (list dict) :=
  match recs_list with
  | [] => Ret recommendations_data
  | rec_block :: rest =>
      match strip rec_block with
      | [] => parse_blocks rest recommendations_data
      | rec_block' =>
          let* data := parse_block rec_block' in
          parse_blocks rest
            (if 1 <? size data
             then recommendations_data ++ [data]
             else recommendations_data)
      end
  end.

(** The outer [try]: the three numbers of the analysis section. *)
Definition analysis_numbers (analysis_part : str)
  : res (spec_float * Z * spec_float) :=
  let target_match := group1 (search target_re analysis_part) in
  let pred_match := group1 (search pred_re analysis_part) in
  let diff_match := group1 (search diff_re analysis_part) in
  let* initial_prediction :=
    match pred_match with
    | Some g => float_of_str g
    | None => Ret (S754_zero false)
    end in
  let* target_tonnage :=
    match target_match with
    | Some g => let* x := float_of_str g in int_of_float x
    | None => Ret 0%Z
    end in
  let* initial_difference :=
    match diff_match with
    | Some g => float_of_str g
    | None => Ret (S754_zero false)
    end in
  Ret (initial_prediction, target_tonnage, initial_difference).

Definition MSG_MALFORMED : str :=
  lit "Format respons Agent tidak valid: Tag END_ANALYSIS tidak ditemukan.".
Definition MSG_NUMERIC : str :=
  lit "Gagal mengurai nilai numerik dari analisis awal. Error: ".
Definition MSG_INCOMPLETE : str :=
  lit "Parsing gagal mendapatkan Target Tonase atau Prediksi Kontrol.".

Definition parse_agent_response (text : str) : res parsed :=
  match find_sub END_ANALYSIS text with
  | None => Ret (ErrorDict MSG_MALFORMED)
  | Some (analysis_part, recs_raw) =>
      match analysis_numbers analysis_part with
      | Raise e => Ret (ErrorDict (MSG_NUMERIC ++ exn_str e))
      | Ret (initial_prediction, target_tonnage, initial_difference) =>
          let analysis_text :=
            strip (remove_all analysis_line_re analysis_part) in
          let recs_list := split START_RECOMMENDATION recs_raw in
          let* recommendations_data := parse_blocks recs_list [] in
          if (target_tonnage =? 0)%Z || is_zero initial_prediction
          then Ret (ErrorDict MSG_INCOMPLETE)
          else Ret (ResultDict
                      {| initial_analysis_text := analysis_text;
                         initial_prediction := initial_prediction;
                         target_tonnage := target_tonnage;
                         initial_difference := initial_difference;
                         recommendations := recommendations_data |})
      end
  end.


(** ** The service around the parser

    The session service, the agent runner, the loaded model and the
    response schema belong to libraries outside the repository; the handlers
    are modelled over an arbitrary behaviour of each. *)

(** One part of an event's content; [text] may be [None]. *)
Record part : Type := { text : option str }.

(** An event of the runner: [content] may be [None], and so may its
    [parts]. *)
Record event : Type := {
  is_final_response : bool;
  content : option (option (list part))
}.

(** What iterating [runner.run_async] produces: the events it yields and
    the exception that ends the iteration, if one does. *)
Record run : Type := { events : list event; failure : option exn }.

Record RecommendationDetail : Type := {
  rd_title : str;
  rd_trucks : Z;
  rd_excavators : Z;
  rd_operators : Z;
  rd_weather : Z + str;
  rd_predicted_tonnage : spec_float;
  rd_difference_from_target : spec_float;
  rd_rationale : str
}.

Record ParsedRecommendationResponse : Type := {
  pr_status : str;
  pr_target_tonnage : Z;
  pr_initial_analysis_text : str;
  pr_initial_prediction : spec_float;
  pr_initial_difference : spec_float;
  pr_recommendations : list RecommendationDetail
}.

Record MiningInput : Type := { user_id : str; query : str }.


(** What a handler gives the framework: a body, or an [HTTPException]. *)
Inductive http (A : Type) : Type :=
| Body (a : A)
| HTTPException (status_code : Z) (detail : str).
Arguments Body {A} a.
Arguments HTTPException {A} status_code detail.

(** One row of the tool's result list. *)
Record prediction_row : Type := {
  row_id : Z;
  row_trucks : pyval;
  row_excavators : pyval;
  row_operators : pyval;
  row_weather : pyval;
  row_predicted_tonnage : spec_float
}.

(** The collaborators of the handlers. *)
Class Collaborators : Type := {
  store : Type;                       (* state of [InMemorySessionService] *)
  agent : Type;                       (* an [LlmAgent] *)
  model : Type;                       (* the unpickled model *)
  has_session : store -> str -> str -> str -> bool;
  create_session : store -> str -> str -> str -> store * option exn;
  delete_session : store -> str -> str -> str -> store * option exn;
  run_async : agent -> store -> str -> str -> str -> store * run;
  predict : model -> list (list pyval) -> res (list spec_float);
  round2 : spec_float -> spec_float;            (* [round(x, 2)] *)
  repr_rows : list prediction_row -> str;       (* [str] of the result list *)
  validate : str -> analysis -> res ParsedRecommendationResponse
}.

(** The module-level state of [agent.py]. *)
Record globals `{Collaborators} : Type := {
  loaded_model : option model;
  mining_agent : option agent;
  GEMINI_API_KEY : option str;
  session_service : store
}.

Definition APP_NAME : str := lit "agents".

Section Handlers.
Context `{Collaborators}.

Definition index_error : exn := Exception (lit "list index out of range").

(** [input_data[i]]. *)
Definition item (input_data : list pyval) (i : nat) : res pyval :=
  match nth_error input_data i with
  | Some v => Ret v
  | None => Raise index_error
  end.

(** [for i, (input_data, target) in enumerate(zip(scenarios, predictions))]. *)
Fixpoint rows (i : Z) (scenarios : list (list pyval))
         (predictions : list spec_float) : res (list prediction_row) :=
  match scenarios, predictions with
  | input_data :: scenarios', target :: predictions' =>
      let* t := item input_data 0 in
      let* e := item input_data 1 in
      let* o := item input_data 2 in
      let* w := item input_data 3 in
      let* rest := rows (i + 1) scenarios' predictions' in
      Ret ({| row_id := i + 1; row_trucks := t; row_excavators := e;
              row_operators := o; row_weather := w;
              row_predicted_tonnage := round2 target |} :: rest)
  | _, _ => Ret []
  end.

Definition MSG_UNAVAILABLE : str :=
  lit "Layanan Agent atau Kunci API tidak tersedia.".
Definition MSG_MODEL_MISSING : str :=
  lit "ERROR: Model prediksi belum dimuat atau gagal dimuat.".

Definition predict_mining_target (g : globals) (scenarios : list (list pyval))
  : str :=
  match loaded_model g with
  | None => MSG_MODEL_MISSING
  | Some m =>
      match scenarios with
      | [] => lit "ERROR: Input skenario kosong."
      | _ =>
          match (let* predictions := predict m scenarios in
                 rows 0 scenarios predictions) with
          | Ret results => lit "PREDICTION_RESULTS: " ++ repr_rows results
          | Raise e =>
              lit "ERROR saat menjalankan prediksi: " ++ exn_str e
              ++ lit ". Pastikan dimensi input model benar."
          end
      end
  end.

(** [if part.text]. *)
Definition truthy (t : option str) : bool :=
  match t with
  | Some (_ :: _) => true
  | _ => false
  end.

(** [for part in event.content.parts], with its [break]. *)
Fixpoint append_parts (ps : list part) (final_response_text : str) : str :=
  match ps with
  | [] => final_response_text
  | p :: ps' =>
      if truthy (text p)
      then final_response_text ++ default [] (text p)
      else append_parts ps' final_response_text
  end.

(** [async for event in runner.run_async(...)]. *)
Fixpoint consume (evs : list event) (final_response_text : str) : str :=
  match evs with
  | [] => final_response_text
  | ev :: evs' =>
      consume evs'
        (match is_final_response ev, content ev with
         | true, Some (Some (p :: ps)) =>
             append_parts (p :: ps) final_response_text
         | _, _ => final_response_text
         end)
  end.

Definition session_id_of (user_id : str) : str := lit "session_" ++ user_id.

(** The body of the handler's [try]. *)
Definition respond (r : run) : res ParsedRecommendationResponse :=
  let final_response_text := consume (events r) [] in
  match failure r with
  | Some e => Raise e
  | None =>
      match final_response_text with
      | [] =>
          Raise (Exception
                   (lit "Agent tidak menghasilkan respons akhir yang valid."))
      | _ =>
          let* parsed_data := parse_agent_response final_response_text in
          match parsed_data with
          | ErrorDict error =>
              Raise (Exception (lit "Gagal mem-parsing output Agent: " ++ error))
          | ResultDict a => validate (lit "success") a
          end
      end
  end.

Definition predict_and_recommend (g : globals) (data : MiningInput)
  : globals * http ParsedRecommendationResponse :=
  match mining_agent g, GEMINI_API_KEY g with
  | Some a, Some _ =>
      let session_id := session_id_of (user_id data) in
      let (s1, _) :=
        create_session (session_service g) APP_NAME (user_id data)
          session_id in
      let (s2, r) := run_async a s1 (user_id data) session_id (query data) in
      let g' := {| loaded_model := loaded_model g;
                   mining_agent := mining_agent g;
                   GEMINI_API_KEY := GEMINI_API_KEY g;
                   session_service := s2 |} in
      match respond r with
      | Ret response => (g', Body response)
      | Raise e =>
          (g', HTTPException 500
                 (lit "Kesalahan pada layanan Agent: " ++ exn_str e))
      end
  | _, _ =>
      (g, HTTPException 503 MSG_UNAVAILABLE)
  end.





End Handlers.

(** ** Texts and values the properties are stated on *)

Definition nl : str := [newline].

(** The lines of a text, each ended by a line feed. *)
Definition unlines (l : list string) : str :=
  concat (map (fun s => lit s ++ nl) l).

(** The input text of the spec's concrete scenario. *)
Definition scenario_text : str :=
  unlines
    [ "Kontrol baik.";
      "Target_Tonase_Ekstrak: 80";
      "Prediksi_Kontrol: 75.50";
      "Selisih_Kontrol: 4.50";
      "---END_ANALYSIS---";
      "Rekomendasi 1: Tambah Truk";
      "Truk: 14";
      "Ekskavator: 3";
      "Operator: 18";
      "Cuaca: 1";
      "Prediksi: 79.80";
      "Selisih: 0.20";
      "Alasan: Penambahan truk mendekati target.";
      "---START_RECOMMENDATION---" ]%string.

(** The binary64 numbers 75.5, 4.5, 79.8 and 0.2. *)
Definition f75_5 : spec_float := S754_finite false 5312840185413632 (-46).
Definition f4_5 : spec_float := S754_finite false 5066549580791808 (-50).
Definition f79_8 : spec_float := S754_finite false 5615425785377587 (-46).
Definition f0_2 : spec_float := S754_finite false 7205759403792794 (-55).

(** The number of dots in a token. *)
Definition dots (tok : str) : nat :=
  length (List.filter (fun c => Ascii.eqb c ".") tok).

(** A token of digits and dots that is no decimal numeral: it has no digit,
    or more than one dot. *)
Definition bad_token (tok : str) : bool :=
  negb (existsb is_digit tok) || (2 <=? dots tok).

(** The analysis section of the concrete scenario, up to the delimiter. *)
Definition scenario_analysis : list string :=
  [ "Kontrol baik.";
    "Target_Tonase_Ekstrak: 80";
    "Prediksi_Kontrol: 75.50";
    "Selisih_Kontrol: 4.50";
    "---END_ANALYSIS---" ]%string.

(** The scenario's analysis followed by a block that holds a title only. *)
Definition title_only_text : str :=
  unlines (scenario_analysis ++ ["Rekomendasi 1: Tambah Truk"]%string).

(** The scenario's analysis followed by a block without [Alasan] whose
    truck count is the numeral [inf]. *)
Definition infinite_trucks_text : str :=
  unlines (scenario_analysis
           ++ ["Rekomendasi 1: Tambah Truk"; "Truk: inf";
               "Ekskavator: 3"]%string).

(** The record the concrete scenario's block gives. *)
Definition scenario_recommendation : dict :=
  <["title"%string := PStr (lit "Tambah Truk")]>
  (<["trucks"%string := PInt 14]>
  (<["excavators"%string := PInt 3]>
  (<["operators"%string := PInt 18]>
  (<["weather"%string := PStr (lit "1")]>
  (<["predicted_tonnage"%string := PFloat f79_8]>
  (<["difference_from_target"%string := PFloat f0_2]>
  (<["rationale"%string := PStr (lit "Penambahan truk mendekati target.")]>
   ∅))))))).

(** ** A small instance of the collaborators

    Sessions are kept in a list of session ids; as in the in-memory
    session service, creating a session that is there raises and deleting
    a session that is not there does nothing.  The runner answers with one
    final event of two text parts, the first being the concrete
    scenario. *)

Definition mem (sid : str) (s : list str) : bool :=
  existsb (fun x => str_eqb x sid) s.

Definition demo_create (s : list str) (app user sid : str)
  : list str * option exn :=
  if mem sid s then (s, Some (Exception (lit "session already exists")))
  else (sid :: s, None).

Definition demo_delete (s : list str) (app user sid : str)
  : list str * option exn :=
  if mem sid s
  then (List.filter (fun x => negb (str_eqb x sid)) s, None)
  else (s, None).

Definition demo_event : event :=
  {| is_final_response := true;
     content := Some (Some [ {| text := Some scenario_text |};
                             {| text := Some (lit "Terima kasih.") |} ]) |}.

Definition demo_validate (st : str) (a : analysis)
  : res ParsedRecommendationResponse :=
  Ret {| pr_status := st;
         pr_target_tonnage := target_tonnage a;
         pr_initial_analysis_text := initial_analysis_text a;
         pr_initial_prediction := initial_prediction a;
         pr_initial_difference := initial_difference a;
         pr_recommendations := [] |}.

Instance demo : Collaborators := {|
  store := list str;
  agent := unit;
  model := unit;
  has_session := fun s _ _ sid => mem sid s;
  create_session := demo_create;
  delete_session := demo_delete;
  run_async := fun _ s _ _ _ =>
                 (s, {| events := [demo_event]; failure := None |});
  predict := fun _ _ => Ret [];
  round2 := fun x => x;
  repr_rows := fun _ => [];
  validate := demo_validate
|}.

(** The instance's module state: the agent and the key are there, the
    model is not. *)
Definition demo_globals : globals :=
  {| loaded_model := None;
     mining_agent := Some tt;
     GEMINI_API_KEY := Some (lit "key");
     session_service := [] |}.

Definition demo_input : MiningInput :=
  {| user_id := lit "user_api_001"; query := lit "Saya ingin 80 ton." |}.

(** ** Rendering an analysis result in the Strict Response Format *)

(** Modelled from the spec: a recommendation of the data model of
    section 3. *)
Record recommendation : Type := {
  r_title : str;
  r_trucks : Z;
  r_excavators : Z;
  r_operators : Z;
  r_weather : Z;
  r_predicted_tonnage : spec_float;
  r_difference_from_target : spec_float;
  r_rationale : str
}.

(** Modelled from the spec: an analysis result of the data model of
    section 3. *)
Record analysis_result : Type := {
  a_target_tonnage : Z;
  a_analysis_text : str;
  a_prediction : spec_float;
  a_difference : spec_float;
  a_recommendations : list recommendation
}.

(** Modelled from the spec: an integer in decimal digits, with a minus
    sign when negative. *)
Definition show_int (n : Z) : str :=
  list_ascii_of_string (NilZero.string_of_int (Z.to_int n)).

(** Modelled from the spec: [Label: value] and a line feed; [label] ends
    with its colon. *)
Definition line (label : string) (value : str) : str :=
  lit label ++ " "%char :: value ++ nl.

Section Render.
(** How a float is written; the format only asks for a number. *)
Variable fmt : spec_float -> str.

(** Modelled from the spec: the fields of one recommendation, from its
    trucks to its rationale. *)
Definition render_fields (r : recommendation) : str :=
  line "Truk:" (show_int (r_trucks r))
  ++ line "Ekskavator:" (show_int (r_excavators r))
  ++ line "Operator:" (show_int (r_operators r))
  ++ line "Cuaca:" (show_int (r_weather r))
  ++ line "Prediksi:" (fmt (r_predicted_tonnage r))
  ++ line "Selisih:" (fmt (r_difference_from_target r))
  ++ lit "Alasan: " ++ r_rationale r.

(** Modelled from the spec: the heading of the [i]-th recommendation. *)
Definition render_heading (i : nat) (r : recommendation) : str :=
  lit "Rekomendasi " ++ show_int (Z.of_nat i) ++ lit ": " ++ r_title r ++ nl.

(** Modelled from the spec: one recommendation block of the Strict
    Response Format of section 6, closed by its delimiter line.  The
    repository has no renderer; the agent writes this text. *)
Definition render_recommendation (i : nat) (r : recommendation) : str :=
  render_heading i r ++ render_fields r ++ nl ++ START_RECOMMENDATION ++ nl.

(** Modelled from the spec: the blocks one after the other, numbered from
    [i]. *)
Fixpoint render_recommendations (i : nat) (l : list recommendation) : str :=
  match l with
  | [] => []
  | r :: l' =>
      render_recommendation i r ++ render_recommendations (S i) l'
  end.

(** Modelled from the spec: the analysis section, up to the delimiter. *)
Definition render_analysis (a : analysis_result) : str :=
  a_analysis_text a ++ nl
  ++ line "Target_Tonase_Ekstrak:" (show_int (a_target_tonnage a))
  ++ line "Prediksi_Kontrol:" (fmt (a_prediction a))
  ++ line "Selisih_Kontrol:" (fmt (a_difference a)).

(** Modelled from the spec: an analysis result in the Strict Response
    Format of section 6. *)
Definition render (a : analysis_result) : str :=
  render_analysis a ++ END_ANALYSIS ++ nl
  ++ render_recommendations 1 (a_recommendations a).

(** A numeral of the format: digits and dots, at least one character. *)
Definition numeral (t : str) : Prop :=
  t <> [] /\ forallb is_digit_or_dot t = true.

(** The float is written as a numeral that [float] reads back. *)
Definition reads_float (v : spec_float) : Prop :=
  numeral (fmt v) /\ float_of_str (fmt v) = Ret v.

(** The integer's digits are read back by [int(float(...))]. *)
Definition reads_int (n : Z) : Prop :=
  (0 <= n)%Z
  /\ (let* x := float_of_str (show_int n) in int_of_float x) = Ret n.

(** None of the words occurs in the text. *)
Definition free_of (words : list string) (t : str) : Prop :=
  Forall (fun w => contains (lit w) t = false) words.

Definition single_line (t : str) : Prop := forallb not_newline t = true.

(** A text with a first and a last character, neither of them blank. *)
Definition starts_unblank (t : str) : Prop :=
  match t with [] => False | c :: _ => is_space c = false end.

Definition trimmed (t : str) : Prop :=
  starts_unblank t /\ starts_unblank (rev t).

(** The labels with their colons. *)
Definition param_labels : list string :=
  map (fun w => String.append w ":") param_words.

Definition analysis_labels : list string :=
  map (fun w => String.append w ":") analysis_words.

(** A recommendation the format can carry. *)
Definition wf_recommendation (r : recommendation) : Prop :=
  reads_int (r_trucks r) /\ reads_int (r_excavators r)
  /\ reads_int (r_operators r)
  /\ (0 <= r_weather r <= 2)%Z
  /\ reads_float (r_predicted_tonnage r)
  /\ reads_float (r_difference_from_target r)
  /\ single_line (r_title r)
  /\ free_of ("---START_RECOMMENDATION---"%string :: param_labels) (r_title r)
  /\ single_line (r_rationale r)
  /\ free_of ["---START_RECOMMENDATION---"%string] (r_rationale r)
  /\ trimmed (r_rationale r).

(** An analysis result the format can carry. *)
Definition wf_result (a : analysis_result) : Prop :=
  a_target_tonnage a <> 0%Z /\ reads_int (a_target_tonnage a)
  /\ is_zero (a_prediction a) = false /\ reads_float (a_prediction a)
  /\ reads_float (a_difference a)
  /\ free_of ("---END_ANALYSIS---"%string :: analysis_labels)
             (a_analysis_text a)
  /\ Forall wf_recommendation (a_recommendations a).

(** The numbers of a recommendation, found in a parsed record; the weather
    comes back as its digits. *)
Definition same_numbers (r : recommendation) (d : dict) : Prop :=
  d !! "trucks"%string = Some (PInt (r_trucks r))
  /\ d !! "excavators"%string = Some (PInt (r_excavators r))
  /\ d !! "operators"%string = Some (PInt (r_operators r))
  /\ d !! "weather"%string = Some (PStr (show_int (r_weather r)))
  /\ d !! "predicted_tonnage"%string
     = Some (PFloat (r_predicted_tonnage r))
  /\ d !! "difference_from_target"%string
     = Some (PFloat (r_difference_from_target r)).

End Render.

(** ** Writing a float in full

    The exact decimal expansion of a binary64 number, without trailing
    zeros: one way of writing a float that [float] reads back. *)

Definition digit (d : Z) : ascii := ascii_of_nat (48 + Z.to_nat d).

(** The last [k] decimal digits of [n]. *)
Fixpoint fixed (k : nat) (n : Z) : str :=
  match k with
  | O => []
  | S k' => fixed k' (n / 10) ++ [digit (n mod 10)]
  end.

Fixpoint drop_zeros (s : str) : str :=
  match s with
  | c :: s' => if Ascii.eqb c "0" then drop_zeros s' else s
  | [] => []
  end.

Definition strip_zeros (s : str) : str := rev (drop_zeros (rev s)).

(** Modelled from the spec: a number of the format, here with all its
    decimals. *)
Definition show_float (f : spec_float) : str :=
  match f with
  | S754_zero s => (if s then lit "-" else []) ++ lit "0"
  | S754_infinity s => (if s then lit "-" else []) ++ lit "inf"
  | S754_nan => lit "nan"
  | S754_finite s m e =>
      (if s then lit "-" else [])
      ++ match e with
         | Zneg k =>
             let n := (Zpos m * 5 ^ Zpos k)%Z in
             let p := (10 ^ Zpos k)%Z in
             let frac :=
               strip_zeros (fixed (Pos.to_nat k) (n mod p)) in
             show_int (n / p)
             ++ match frac with
                | [] => []
                | _ => "."%char :: frac
                end
         | _ => show_int (Zpos m * 2 ^ e)
         end
  end.

(** The floats [show_float] writes as a numeral: zero and the positive
    binary64 numbers. *)
Definition plain (v : spec_float) : bool :=
  match v with
  | S754_zero false => true
  | S754_finite false m e => bounded prec emax m e
  | _ => false
  end.

(** The numbers of a result that [show_int] and [show_float] write so that
    the parser reads them back: counts below [2^53], a weather among 0, 1
    and 2, floats that are zero or positive, a target and a prediction
    that are not zero. *)
Definition decimal_recommendation (r : recommendation) : Prop :=
  (0 <= r_trucks r < 2 ^ 53)%Z /\ (0 <= r_excavators r < 2 ^ 53)%Z
  /\ (0 <= r_operators r < 2 ^ 53)%Z /\ (0 <= r_weather r <= 2)%Z
  /\ plain (r_predicted_tonnage r) = true
  /\ plain (r_difference_from_target r) = true.

Definition decimal_result (a : analysis_result) : Prop :=
  (0 < a_target_tonnage a < 2 ^ 53)%Z
  /\ plain (a_prediction a) = true /\ is_zero (a_prediction a) = false
  /\ plain (a_difference a) = true
  /\ Forall decimal_recommendation (a_recommendations a).

(** The texts of a result that the format can carry. *)
Definition recommendation_texts (r : recommendation) : Prop :=
  single_line (r_title r)
  /\ free_of ("---START_RECOMMENDATION---"%string :: param_labels) (r_title r)
  /\ single_line (r_rationale r)
  /\ free_of ["---START_RECOMMENDATION---"%string] (r_rationale r)
  /\ trimmed (r_rationale r).

Definition result_texts (a : analysis_result) : Prop :=
  free_of ("---END_ANALYSIS---"%string :: analysis_labels)
          (a_analysis_text a)
  /\ Forall recommendation_texts (a_recommendations a).

(** A shifted mantissa with nothing lost so far. *)
Definition mk_shr (z : Z) : shr_record :=
  {| shr_m := z; shr_r := false; shr_s := false |}.

(** The concrete scenario as an analysis result. *)
Definition scenario_result : analysis_result :=
  {| a_target_tonnage := 80;
     a_analysis_text := lit "Kontrol baik.";
     a_prediction := f75_5;
     a_difference := f4_5;
     a_recommendations :=
       [ {| r_title := lit "Tambah Truk";
            r_trucks := 14; r_excavators := 3; r_operators := 18;
            r_weather := 1;
            r_predicted_tonnage := f79_8;
            r_difference_from_target := f0_2;
            r_rationale := lit "Penambahan truk mendekati target." |} ] |}.

(** The same result with the target negated. *)
Definition negative_target_result : analysis_result :=
  {| a_target_tonnage := -80;
     a_analysis_text := a_analysis_text scenario_result;
     a_prediction := a_prediction scenario_result;
     a_difference := a_difference scenario_result;
     a_recommendations := a_recommendations scenario_result |}.

(** ** Notions the proofs use *)

(** [clear w x y]: in [x ++ y] no occurrence of [w] starts inside [x]. *)
Definition clear (w x y : str) : Prop :=
  forall pre suf, x = pre ++ suf -> suf <> [] ->
                  starts_with w (suf ++ y) = false.

(** No match of [r] starts inside [x] in [x ++ y]. *)
Definition no_match (r : re) (x y : str) : Prop :=
  forall pre suf, x = pre ++ suf -> suf <> [] ->
                  match_here r (suf ++ y) = None.

(** A value the parameter pattern takes whole: it starts with no blank
    and has no line feed. *)
Definition value_ok (v : str) : Prop :=
  match v with [] => False | x :: _ => is_space x = false end
  /\ forallb not_newline v = true.

(** What may follow a value: the end of the text, or a line feed. *)
Definition line_end (tail : str) : Prop :=
  match tail with [] => True | x :: _ => x = newline end.

(** The text of a rendered block between its two line feeds. *)
Definition block_text (fmt : spec_float -> str) (i : nat)
           (r : recommendation) : str :=
  render_heading i r ++ render_fields fmt r.

(** What [split] makes of the rendered recommendations. *)
Fixpoint pieces (fmt : spec_float -> str) (i : nat)
         (l : list recommendation) : list str :=
  match l with
  | [] => [nl]
  | r :: l' => (nl ++ block_text fmt i r ++ nl) :: pieces fmt (S i) l'
  end.

(** ** The layout of the agent's instruction

    The instruction given to the agent in [initialize_agent] shows the same
    lines with a blank line after each delimiter and no delimiter after the
    last block. *)
Fixpoint instructed_recommendations (fmt : spec_float -> str) (i : nat)
         (l : list recommendation) : str :=
  match l with
  | [] => []
  | r :: l' =>
      nl ++ block_text fmt i r ++ nl
      ++ match l' with
         | [] => []
         | _ :: _ =>
             START_RECOMMENDATION ++ nl
             ++ instructed_recommendations fmt (S i) l'
         end
  end.

Definition render_instructed (fmt : spec_float -> str) (a : analysis_result)
  : str :=
  render_analysis fmt a ++ END_ANALYSIS ++ nl
  ++ instructed_recommendations fmt 1 (a_recommendations a).

(** What [split] makes of the recommendations in that layout. *)
Fixpoint instructed_pieces (fmt : spec_float -> str) (i : nat)
         (l : list recommendation) : list str :=
  match l with
  | [] => []
  | r :: l' =>
      (nl ++ nl ++ block_text fmt i r ++ nl)
      :: instructed_pieces fmt (S i) l'
  end.

(** The least number of characters a match of [r] consumes. *)
Fixpoint min_len (r : re) : nat :=
  match r with
  | Lit p => length p
  | One _ => 1
  | Star _ => 0
  | Plus _ => 1
  | Alt r1 r2 => Nat.min (min_len r1) (min_len r2)
  | Cat r1 r2 => min_len r1 + min_len r2
  | Grp r1 => min_len r1
  end.

(** Case analysis on the eight bits of a character. *)
Ltac char_cases c :=
  destruct c as [[] [] [] [] [] [] [] []];
  try discriminate; repeat split; try reflexivity; auto.

(** Closing a goal on closed terms by evaluation. *)
Ltac by_compute := vm_compute; first [reflexivity | discriminate].

Ltac wf_float := split; [split; by_compute | by_compute].
Ltac wf_int := split; [simpl; lia | by_compute].
Ltac wf_free :=
  unfold free_of;
  cbn [analysis_labels analysis_words param_labels param_words map];
  repeat (apply List.Forall_cons; [by_compute|]); apply List.Forall_nil.

(** ** The shape of a parsed record *)

Definition int_keys : list string :=
  [ "trucks"; "excavators"; "operators" ]%string.
Definition float_keys : list string :=
  [ "predicted_tonnage"; "difference_from_target" ]%string.
Definition text_keys : list string :=
  [ "title"; "weather"; "rationale" ]%string.

(** What a record may hold under a key: an integer under a count, a float
    under a tonnage figure, a string under any of the eight keys. *)
Definition field_ok (k : string) (v : pyval) : bool :=
  match v with
  | PInt _ => bool_decide (k ∈ int_keys)
  | PFloat _ => bool_decide (k ∈ float_keys)
  | PStr _ => bool_decide (k ∈ text_keys ++ int_keys ++ float_keys)
  end.

(** [not rec_block], after the strip. *)
Definition blank (p : str) : bool :=
  match strip p with [] => true | _ => false end.

(** What [int] raises on an infinite float. *)
Definition OVERFLOW : exn :=
  OverflowError (lit "cannot convert float infinity to integer").

(** What a field is stored as: its coerced value, or its cleaned text when
    the coercion raises [ValueError]. *)
Definition stored (python_key : string) (value : str) : pyval :=
  match coerce python_key (clean value) with
  | Ret v => v
  | Raise _ => PStr (clean value)
  end.

(** Groups of digits written with commas between them. *)
Fixpoint grouped (groups : list str) : str :=
  match groups with
  | [] => []
  | [g] => g
  | g :: groups' => g ++ ","%char :: grouped groups'
  end.

(** ** The run behind an answer, and the start of the module *)

Section Service.
Context `{Collaborators}.

(** What the runner yields for a request: the session is created first,
    whatever that gives. *)
Definition agent_run (g : globals) (a : agent) (data : MiningInput) : run :=
  let session_id := session_id_of (user_id data) in
  let s1 :=
    fst (create_session (session_service g) APP_NAME (user_id data)
           session_id) in
  snd (run_async a s1 (user_id data) session_id (query data)).

(** An event that adds nothing to the response text: it is not final, or
    it has no content, no parts, or no part with a text. *)
Definition silent (ev : event) : bool :=
  negb (is_final_response ev)
  || match content ev with
     | Some (Some ps) => forallb (fun p => negb (truthy (text p))) ps
     | _ => true
     end.

Definition DETAIL_PREFIX : str := lit "Kesalahan pada layanan Agent: ".
Definition MSG_NO_FINAL : str :=
  lit "Agent tidak menghasilkan respons akhir yang valid.".
Definition PARSE_PREFIX : str := lit "Gagal mem-parsing output Agent: ".

(** The [try] around [pickle.load]: what was unpickled becomes
    [loaded_model], be it [None]; both handlers leave [loaded_model] at
    [None]. *)
Definition load_model (unpickled : res (option model)) : option model :=
  match unpickled with
  | Ret m => m
  | Raise _ => None
  end.

(** [initialize_agent()]: the constructor's result becomes
    [mining_agent]; what the constructor raises is not handled. *)
Definition initialize_agent (g : globals) (LlmAgent : res agent)
  : res globals :=
  let* a := LlmAgent in
  Ret {| loaded_model := loaded_model g;
         mining_agent := Some a;
         GEMINI_API_KEY := GEMINI_API_KEY g;
         session_service := session_service g |}.

(** The module's top level, from the environment, the outcome of
    unpickling, the outcome of the agent's constructor and a fresh
    session service. *)
Definition startup (getenv : option str) (unpickled : res (option model))
           (LlmAgent : res agent) (fresh : store) : res globals :=
  initialize_agent
    {| loaded_model := load_model unpickled;
       mining_agent := None;
       GEMINI_API_KEY := getenv;
       session_service := fresh |}
    LlmAgent.

End Service.

(** The fields of [RecommendationDetail]; none has a default. *)
Definition required_keys : list string :=
  [ "title"; "trucks"; "excavators"; "operators"; "weather";
    "predicted_tonnage"; "difference_from_target"; "rationale" ]%string.

(** A response schema that refuses a record lacking a field, and accepts
    every other result. *)
Definition strict_validate (st : str) (a : analysis)
  : res ParsedRecommendationResponse :=
  if forallb (fun d : dict =>
                forallb (fun k => bool_decide (is_Some (d !! k)))
                        required_keys)
             (recommendations a)
  then demo_validate st a
  else Raise (ValueError (lit "Field required")).

(** The demonstration service with a given run and response schema. *)
Definition demo_service (r : run)
           (v : str -> analysis -> res ParsedRecommendationResponse)
  : Collaborators := {|
  store := list str;
  agent := unit;
  model := unit;
  has_session := fun s _ _ sid => mem sid s;
  create_session := demo_create;
  delete_session := demo_delete;
  run_async := fun _ s _ _ _ => (s, r);
  predict := fun _ _ => Ret [];
  round2 := fun x => x;
  repr_rows := fun _ => [];
  validate := v
|}.

Definition service_globals (r : run)
           (v : str -> analysis -> res ParsedRecommendationResponse)
  : @globals (demo_service r v) :=
  @Build_globals (demo_service r v) None (Some tt) (Some (lit "key")) [].

(** A run of one final event with one text. *)
Definition says (t : str) : run :=
  {| events := [ {| is_final_response := true;
                    content := Some (Some [ {| text := Some t |} ]) |} ];
     failure := None |}.

(** A run whose events carry no text: one is not final, one has no
    content, one has an empty text. *)
Definition quiet_run : run :=
  {| events :=
       [ {| is_final_response := false;
            content := Some (Some [ {| text := Some (lit "berpikir") |} ]) |};
         {| is_final_response := true; content := None |};
         {| is_final_response := true;
            content := Some (Some [ {| text := Some [] |};
                                    {| text := None |} ]) |} ];
     failure := None |}.

Section Rows.
Context `{Collaborators}.

(** The row of the scenario [input_data] numbered [id], with the
    prediction [target]: its first four entries and the rounded
    prediction. *)
Definition row_of (id : Z) (input_data : list pyval) (target : spec_float)
           (row : prediction_row) : Prop :=
  row_id row = id
  /\ nth_error input_data 0 = Some (row_trucks row)
  /\ nth_error input_data 1 = Some (row_excavators row)
  /\ nth_error input_data 2 = Some (row_operators row)
  /\ nth_error input_data 3 = Some (row_weather row)
  /\ row_predicted_tonnage row = round2 target.

End Rows.

Definition MSG_DIMENSION : str :=
  lit "ERROR saat menjalankan prediksi: list index out of range"
  ++ lit ". Pastikan dimensi input model benar.".

(** A model that predicts 75.5 for every scenario. *)
Definition constant_model : Collaborators := {|
  store := list str;
  agent := unit;
  model := unit;
  has_session := fun s _ _ sid => mem sid s;
  create_session := demo_create;
  delete_session := demo_delete;
  run_async := fun _ s _ _ _ => (s, quiet_run);
  predict := fun _ scenarios => Ret (map (fun _ => f75_5) scenarios);
  round2 := fun x => x;
  repr_rows := fun rows => repeat "r"%char (length rows);
  validate := demo_validate
|}.

Definition model_globals : @globals constant_model :=
  @Build_globals constant_model (Some tt) (Some tt) (Some (lit "key")) [].

(** ** The texts of a result *)

(** The texts of a recommendation as a record holds them: the title
    stripped, the rationale cleaned like every value. *)
Definition same_texts (r : recommendation) (d : dict) : Prop :=
  d !! "title"%string = Some (PStr (strip (r_title r)))
  /\ d !! "rationale"%string = Some (PStr (clean (r_rationale r))).

(** Texts that come back as they are: a title without blanks around it, a
    rationale without [Ton] and without a comma. *)
Definition plain_texts (r : recommendation) : Prop :=
  strip (r_title r) = r_title r
  /\ free_of ["Ton"; ","]%string (r_rationale r).

Definition kept_texts (r : recommendation) (d : dict) : Prop :=
  d !! "title"%string = Some (PStr (r_title r))
  /\ d !! "rationale"%string = Some (PStr (r_rationale r)).

(** A float that is zero, positive or plus infinity. *)
Definition nonneg_float (f : spec_float) : bool :=
  match f with
  | S754_zero s | S754_infinity s | S754_finite s _ _ => negb s
  | S754_nan => false
  end.

(** * Properties *)

(** ** Strings and patterns *)

Lemma lit_k_some {A} (p s : str) (k : str -> option A) (a : A) :
  lit_k p s k = Some a -> exists s', s = p ++ s' /\ k s' = Some a.
Proof.
  revert s. induction p as [|c p IH]; intros s Hk; simpl in Hk.
  - exists s. auto.
  - destruct s as [|b s]; [discriminate|].
    destruct (Ascii.eqb c b) eqn:E; [|discriminate].
    apply Ascii.eqb_eq in E. subst b.
    destruct (IH _ Hk) as (s' & -> & Hs'). exists s'. auto.
Qed.

Lemma star_k_some {A} (c : ascii -> bool) (s : str) (k : str -> option A)
      (a : A) :
  star_k c s k = Some a ->
  exists pre rest, s = pre ++ rest /\ forallb c pre = true /\ k rest = Some a.
Proof.
  induction s as [|x s IH]; simpl; intros Hk.
  - exists [], []. auto.
  - destruct (c x) eqn:Hc.
    + destruct (star_k c s k) eqn:Hs.
      * destruct (IH Hk) as (pre & rest & -> & Hpre & Hrest).
        exists (x :: pre), rest. simpl. rewrite Hc, Hpre. auto.
      * exists [], (x :: s). auto.
    + exists [], (x :: s). auto.
Qed.

Lemma firstn_suffix_length {A} (pre rest : list A) :
  firstn (length (pre ++ rest) - length rest) (pre ++ rest) = pre.
Proof.
  rewrite length_app.
  replace (length pre + length rest - length rest) with (length pre) by lia.
  rewrite firstn_app, Nat.sub_diag, firstn_all. simpl. apply app_nil_r.
Qed.

(** The group of a labelled number holds digits and dots, at least one. *)
Lemma labelled_number_here (label : string) (s : str) caps rest :
  match_here (labelled_number label) s = Some (caps, rest) ->
  exists tok, caps = [tok] /\ tok <> [] /\ forallb is_digit_or_dot tok = true.
Proof.
  unfold match_here, labelled_number. simpl. intros Hm.
  apply lit_k_some in Hm as (s1 & _ & Hm).
  apply star_k_some in Hm as (ws & s2 & _ & _ & Hm).
  destruct s2 as [|x s2]; [discriminate|].
  destruct (is_digit_or_dot x) eqn:Hx; [|discriminate].
  apply star_k_some in Hm as (pre & rest' & -> & Hpre & Hm).
  change (x :: pre ++ rest') with ((x :: pre) ++ rest') in Hm.
  rewrite firstn_suffix_length in Hm. injection Hm as <- <-.
  exists (x :: pre). simpl. rewrite Hx, Hpre. repeat split. discriminate.
Qed.

Lemma labelled_number_group (label : string) (s tok : str) :
  group1 (search (labelled_number label) s) = Some tok ->
  tok <> [] /\ forallb is_digit_or_dot tok = true.
Proof.
  induction s as [|c s IH]; simpl.
  - destruct (match_here _ []) as [[caps rest]|] eqn:Hm; [|discriminate].
    apply labelled_number_here in Hm as (t & -> & Ht). simpl.
    intros [= <-]. exact Ht.
  - destruct (match_here _ (c :: s)) as [[caps rest]|] eqn:Hm.
    + apply labelled_number_here in Hm as (t & -> & Ht). simpl.
      intros [= <-]. exact Ht.
    + destruct (search _ s) as [[[pre caps] rest]|]; [|discriminate].
      simpl in *. exact IH.
Qed.

(** ** Numerals of digits and dots *)

Lemma digit_or_dot_cases (c : ascii) :
  is_digit_or_dot c = true -> is_digit c = true \/ c = "."%char.
Proof.
  unfold is_digit_or_dot. intros H. apply orb_true_iff in H as [H|H]; auto.
  apply Ascii.eqb_eq in H. auto.
Qed.

Lemma digit_or_dot_plain (c : ascii) :
  is_digit_or_dot c = true ->
  normalise c = c /\ lower c = c /\ is_c_space c = false /\ is_space c = false
  /\ Ascii.eqb "_" c = false /\ Ascii.eqb c "-" = false
  /\ Ascii.eqb c "+" = false /\ Ascii.eqb (lower c) "e" = false.
Proof. intros H. char_cases c. Qed.

Lemma span_spec (c : ascii -> bool) (s a b : str) :
  span c s = (a, b) ->
  s = a ++ b /\ forallb c a = true
  /\ match b with [] => True | x :: _ => c x = false end.
Proof.
  revert a b. induction s as [|x s IH]; simpl; intros a b Hs.
  - injection Hs as <- <-. auto.
  - destruct (c x) eqn:Hx.
    + destruct (span c s) as [a' b'] eqn:Hs'. injection Hs as <- <-.
      destruct (IH _ _ eq_refl) as (-> & Ha & Hb). simpl. rewrite Hx. auto.
    + injection Hs as <- <-. simpl. auto.
Qed.

Lemma span_none (c : ascii -> bool) (s : str) :
  existsb c s = false -> span c s = ([], s).
Proof.
  destruct s as [|x s]; simpl; [reflexivity|].
  intros H. apply orb_false_iff in H as [-> _]. reflexivity.
Qed.

Lemma dots_app (a b : str) : dots (a ++ b) = dots a + dots b.
Proof. unfold dots. rewrite List.filter_app, length_app. reflexivity. Qed.

Lemma dots_digits (a : str) : forallb is_digit a = true -> dots a = 0.
Proof.
  induction a as [|c a IH]; simpl; [reflexivity|].
  intros H. apply andb_true_iff in H as [Hc Ha]. unfold dots in *.
  cbn [List.filter].
  assert (Ascii.eqb c "." = false) as -> by (clear -Hc; char_cases c).
  apply IH, Ha.
Qed.

Section Tokens.
Variable tok : str.
Hypothesis Htok : forallb is_digit_or_dot tok = true.

Lemma token_normalise : map normalise tok = tok.
Proof.
  induction tok as [|c t IH]; cbn [map existsb forallb c_lstrip lstrip parse_sign] in *; [reflexivity|].
  apply andb_true_iff in Htok as [Hc Ht].
  rewrite (IH Ht). f_equal. apply digit_or_dot_plain, Hc.
Qed.

Lemma token_lower : map lower tok = tok.
Proof.
  induction tok as [|c t IH]; cbn [map existsb forallb c_lstrip lstrip parse_sign] in *; [reflexivity|].
  apply andb_true_iff in Htok as [Hc Ht].
  rewrite (IH Ht). f_equal. apply digit_or_dot_plain, Hc.
Qed.

Lemma token_no_underscore : existsb (Ascii.eqb "_") tok = false.
Proof.
  induction tok as [|c t IH]; cbn [map existsb forallb c_lstrip lstrip parse_sign] in *; [reflexivity|].
  apply andb_true_iff in Htok as [Hc Ht]. rewrite (IH Ht).
  destruct (digit_or_dot_plain c Hc) as (_ & _ & _ & _ & -> & _). reflexivity.
Qed.

Lemma token_c_lstrip : c_lstrip tok = tok.
Proof.
  destruct tok as [|c t]; cbn [map existsb forallb c_lstrip lstrip parse_sign] in *; [reflexivity|].
  apply andb_true_iff in Htok as [Hc Ht].
  destruct (digit_or_dot_plain c Hc) as (_ & _ & -> & _). reflexivity.
Qed.

Lemma token_lstrip : lstrip tok = tok.
Proof.
  destruct tok as [|c t]; cbn [map existsb forallb c_lstrip lstrip parse_sign] in *; [reflexivity|].
  apply andb_true_iff in Htok as [Hc Ht].
  destruct (digit_or_dot_plain c Hc) as (_ & _ & _ & -> & _). reflexivity.
Qed.

Lemma token_sign : parse_sign tok = (false, tok).
Proof.
  destruct tok as [|c t]; cbn [map existsb forallb c_lstrip lstrip parse_sign] in *; [reflexivity|].
  apply andb_true_iff in Htok as [Hc Ht].
  destruct (digit_or_dot_plain c Hc) as (_ & _ & _ & _ & _ & -> & -> & _).
  reflexivity.
Qed.

Lemma token_not_word (w : string) :
  forallb is_digit_or_dot (lit w) = false -> str_eqb tok (lit w) = false.
Proof.
  intros Hw. unfold str_eqb. apply bool_decide_eq_false. intros E.
  rewrite E in Htok. congruence.
Qed.

End Tokens.

Lemma token_rev (tok : str) :
  forallb is_digit_or_dot tok = true ->
  forallb is_digit_or_dot (rev tok) = true.
Proof.
  rewrite !forallb_forall. intros H c Hc. apply H, in_rev, Hc.
Qed.

Lemma token_c_strip (tok : str) :
  forallb is_digit_or_dot tok = true -> c_strip tok = tok.
Proof.
  intros H. unfold c_strip. rewrite (token_c_lstrip tok H).
  rewrite (token_c_lstrip _ (token_rev _ H)). apply rev_involutive.
Qed.

Lemma token_strip (tok : str) :
  forallb is_digit_or_dot tok = true -> strip tok = tok.
Proof.
  intros H. unfold strip, rstrip. rewrite (token_lstrip tok H).
  rewrite (token_lstrip _ (token_rev _ H)). apply rev_involutive.
Qed.

(** After its digits, a token of digits and dots ends or goes on with a
    dot. *)
Lemma token_span (tok a b : str) :
  forallb is_digit_or_dot tok = true ->
  span is_digit tok = (a, b) ->
  tok = a ++ b /\ forallb is_digit a = true
  /\ forallb is_digit_or_dot b = true
  /\ (b = [] \/ exists b', b = "."%char :: b').
Proof.
  intros Htok Hs. apply span_spec in Hs as (-> & Ha & Hb).
  rewrite forallb_app in Htok. apply andb_true_iff in Htok as [_ Htb].
  repeat split; auto.
  destruct b as [|x b]; [auto|right]. simpl in Htb.
  apply andb_true_iff in Htb as [Hx _].
  apply digit_or_dot_cases in Hx as [Hx| ->]; [congruence|eauto].
Qed.

(** What [float] accepts among the tokens of digits and dots. *)
Lemma token_parse (tok : str) :
  forallb is_digit_or_dot tok = true ->
  float_of_str tok =
  match parse_number tok with
  | Some f => Ret f
  | None => Raise (float_error tok)
  end.
Proof.
  intros H. unfold float_of_str.
  rewrite (token_normalise _ H), (token_no_underscore _ H).
  rewrite (token_c_strip _ H). reflexivity.
Qed.

Lemma bad_token_no_number (tok : str) :
  forallb is_digit_or_dot tok = true ->
  bad_token tok = true -> parse_number tok = None.
Proof.
  intros H Hbad. unfold parse_number.
  rewrite (token_sign _ H), (token_lower _ H).
  rewrite !(token_not_word _ H) by reflexivity. simpl.
  destruct (span is_digit tok) as [ip s2] eqn:Hip.
  destruct (token_span _ _ _ H Hip) as (E & Hd & H2 & Hs2).
  unfold bad_token in Hbad. apply orb_true_iff in Hbad as [Hno|Htwo].
  - (* no digit at all *)
    apply negb_true_iff in Hno. rewrite (span_none _ _ Hno) in Hip.
    injection Hip as <- <-.
    destruct tok as [|c t]; [reflexivity|].
    simpl in Hno. apply orb_false_iff in Hno as [Hc Ht].
    destruct Hs2 as [?|[b' [= -> ->]]]; [discriminate|].
    simpl. rewrite (span_none _ _ Ht). reflexivity.
  - (* two dots *)
    apply Nat.leb_le in Htwo. rewrite E, dots_app, (dots_digits _ Hd) in Htwo.
    destruct Hs2 as [->|[t ->]]; [unfold dots in Htwo; simpl in Htwo; lia|].
    simpl. destruct (span is_digit t) as [fp s3] eqn:Hfp.
    simpl in H2.
    destruct (token_span _ _ _ H2 Hfp) as (E3 & Hd3 & H3 & Hs3).
    assert (1 <= dots s3) as Hdots.
    { unfold dots in Htwo. cbn [List.filter Ascii.eqb] in Htwo.
      simpl length in Htwo. fold (dots t) in Htwo.
      rewrite E3, dots_app, (dots_digits _ Hd3) in Htwo. lia. }
    destruct Hs3 as [->|[t3 ->]]; [unfold dots in Hdots; simpl in Hdots; lia|].
    destruct (ip ++ fp); reflexivity.
Qed.

Lemma bad_token_raises (tok : str) :
  forallb is_digit_or_dot tok = true ->
  bad_token tok = true -> float_of_str tok = Raise (float_error tok).
Proof.
  intros H Hbad.
  rewrite (token_parse _ H), (bad_token_no_number _ H Hbad). reflexivity.
Qed.

(** ** The parser's three failure modes *)

Lemma numeric_message_distinct (m : str) :
  MSG_NUMERIC ++ m <> MSG_MALFORMED /\ MSG_NUMERIC ++ m <> MSG_INCOMPLETE.
Proof. split; discriminate. Qed.

(** C6. A text that lacks [---END_ANALYSIS---] always gives the
    malformed-format error, whatever else it holds, and a text that has the
    delimiter never gives it. *)
Theorem missing_delimiter (text : str) :
  parse_agent_response text = Ret (ErrorDict MSG_MALFORMED)
  <-> contains END_ANALYSIS text = false.
Proof.
  unfold parse_agent_response, contains.
  destruct (find_sub END_ANALYSIS text) as [[analysis_part recs_raw]|].
  - split; [|discriminate]. intros Hp. exfalso.
    destruct (analysis_numbers analysis_part) as [[[p t] d]|e].
    + destruct (parse_blocks _ _) as [recs|e]; simpl in Hp; [|discriminate].
      destruct (_ || _); discriminate.
    + assert (MSG_NUMERIC ++ exn_str e = MSG_MALFORMED) as Hm by congruence.
      exact (proj1 (numeric_message_distinct (exn_str e)) Hm).
  - split; reflexivity.
Qed.

(** What a successful reading of the three numbers says of each. *)
Lemma analysis_numbers_ret (A : str) (p d : spec_float) (t : Z) :
  analysis_numbers A = Ret (p, t, d) ->
  match group1 (search pred_re A) with
  | Some g => float_of_str g = Ret p
  | None => p = S754_zero false
  end
  /\ match group1 (search target_re A) with
     | Some g => exists x, float_of_str g = Ret x /\ int_of_float x = Ret t
     | None => t = 0%Z
     end
  /\ match group1 (search diff_re A) with
     | Some g => float_of_str g = Ret d
     | None => d = S754_zero false
     end.
Proof.
  unfold analysis_numbers, bind. intros Hn.
  repeat match type of Hn with
         | context [match ?x with _ => _ end] =>
             lazymatch x with
             | context [match _ with _ => _ end] => fail
             | _ => destruct x eqn:?
             end; try discriminate
         end.
  all: inversion Hn; subst; repeat split; eauto.
Qed.

Lemma analysis_numbers_raises (A : str) (label : string) (tok : str) :
  In label ["Target_Tonase_Ekstrak:"; "Prediksi_Kontrol:";
            "Selisih_Kontrol:"]%string ->
  group1 (search (labelled_number label) A) = Some tok ->
  bad_token tok = true ->
  exists e, analysis_numbers A = Raise e.
Proof.
  intros Hl Hg Hbad.
  destruct (labelled_number_group _ _ _ Hg) as [_ Htok].
  pose proof (bad_token_raises _ Htok Hbad) as Hraise.
  destruct (analysis_numbers A) as [[[p t] d]|e] eqn:Hn; [exfalso|eauto].
  apply analysis_numbers_ret in Hn as (Hp & Ht & Hd).
  unfold target_re, pred_re, diff_re in *.
  destruct Hl as [<-|[<-|[<-|[]]]]; rewrite Hg in *.
  - destruct Ht as (x & Hx & _). congruence.
  - congruence.
  - congruence.
Qed.

(** C10. Besides the malformed-format and incomplete-analysis errors the
    parser has a third one: in a text that has the delimiter, when one of
    the three analysis labels is followed by a token of digits and dots that
    is no decimal numeral (no digit, or more than one dot), the result is
    the numeric-parse error, which differs from the other two. *)
Theorem numeric_parse_error (text A R : str) (label : string) (tok : str) :
  find_sub END_ANALYSIS text = Some (A, R) ->
  In label ["Target_Tonase_Ekstrak:"; "Prediksi_Kontrol:";
            "Selisih_Kontrol:"]%string ->
  group1 (search (labelled_number label) A) = Some tok ->
  bad_token tok = true ->
  exists e,
    parse_agent_response text = Ret (ErrorDict (MSG_NUMERIC ++ exn_str e))
    /\ MSG_NUMERIC ++ exn_str e <> MSG_MALFORMED
    /\ MSG_NUMERIC ++ exn_str e <> MSG_INCOMPLETE.
Proof.
  intros Hf Hl Hg Hbad.
  destruct (analysis_numbers_raises A label tok Hl Hg Hbad) as [e He].
  exists e. split; [|apply numeric_message_distinct].
  unfold parse_agent_response. rewrite Hf, He. reflexivity.
Qed.

Lemma numeric_parse_error_witness :
  exists e,
    parse_agent_response
      (unlines ["Target_Tonase_Ekstrak: 80"; "Prediksi_Kontrol: 1.2.3";
                "---END_ANALYSIS---"]%string)
    = Ret (ErrorDict (MSG_NUMERIC ++ exn_str e))
    /\ MSG_NUMERIC ++ exn_str e <> MSG_MALFORMED
    /\ MSG_NUMERIC ++ exn_str e <> MSG_INCOMPLETE.
Proof.
  apply (numeric_parse_error _
           (unlines ["Target_Tonase_Ekstrak: 80";
                     "Prediksi_Kontrol: 1.2.3"]%string)
           nl "Prediksi_Kontrol:" (lit "1.2.3")).
  - reflexivity.
  - simpl. auto.
  - reflexivity.
  - reflexivity.
Defined.

(** C5, as the code has it. In a text that has the delimiter, whose
    analysis numbers are read without error and whose blocks are processed
    to the end, the incomplete-analysis error is the result as soon as
    [Target_Tonase_Ekstrak] has no match or its value is 0, or
    [Prediksi_Kontrol] has no match or its value is 0.0, whatever the
    recommendation blocks hold. *)
Theorem sentinel_zero (text A R : str) (p d : spec_float) (t : Z)
        (recs : list dict) :
  find_sub END_ANALYSIS text = Some (A, R) ->
  analysis_numbers A = Ret (p, t, d) ->
  parse_blocks (split START_RECOMMENDATION R) [] = Ret recs ->
  group1 (search target_re A) = None \/ t = 0%Z
  \/ group1 (search pred_re A) = None \/ is_zero p = true ->
  parse_agent_response text = Ret (ErrorDict MSG_INCOMPLETE).
Proof.
  intros Hf Hn Hb Hz. unfold parse_agent_response. rewrite Hf, Hn, Hb. simpl.
  assert ((t =? 0)%Z || is_zero p = true) as ->; [|reflexivity].
  apply orb_true_iff.
  apply analysis_numbers_ret in Hn as (Hp' & Ht' & _).
  destruct Hz as [Ht|[->|[Hp|Hp]]].
  - left. rewrite Ht in Ht'. subst t. reflexivity.
  - left. reflexivity.
  - right. rewrite Hp in Hp'. subst p. reflexivity.
  - right. exact Hp.
Qed.

Lemma sentinel_zero_witness :
  parse_agent_response
    (unlines ["Prediksi_Kontrol: 75.50"; "---END_ANALYSIS---";
              "Rekomendasi 1: Tambah Truk"; "Truk: 14";
              "Alasan: Penambahan truk."]%string)
  = Ret (ErrorDict MSG_INCOMPLETE).
Proof.
  eapply (sentinel_zero _ (unlines ["Prediksi_Kontrol: 75.50"]%string) _
            f75_5 (S754_zero false) 0).
  - reflexivity.
  - reflexivity.
  - vm_compute. reflexivity.
  - left. reflexivity.
Defined.

(** C5 as stated fails: a text with neither the label nor the delimiter
    gives the malformed-format error, and a text whose third number is no
    numeral gives the numeric-parse error, not the incomplete-analysis
    one. *)
Lemma sentinel_zero_counterexample :
  group1 (search target_re (lit "Prediksi_Kontrol: 75.50")) = None
  /\ parse_agent_response (lit "Prediksi_Kontrol: 75.50")
     = Ret (ErrorDict MSG_MALFORMED)
  /\ MSG_MALFORMED <> MSG_INCOMPLETE.
Proof. repeat split; discriminate. Qed.

(** ** Recommendation blocks *)

Lemma two_keys (m : dict) (k1 k2 : string) :
  k1 <> k2 -> is_Some (m !! k1) -> is_Some (m !! k2) -> 2 <= size m.
Proof.
  intros Hne H1 H2.
  pose proof (map_size_delete_Some k1 m H1) as Hd.
  assert (size (delete k1 m) <> 0) as Hnz.
  { apply (map_size_ne_0_lookup_2 _ k2). rewrite lookup_delete_ne; auto. }
  lia.
Qed.

(** The table sends no label to [title], and only [Alasan] to
    [rationale]. *)
Lemma get_mapping (key : str) (python_key : string) :
  get mapping key = Some python_key ->
  python_key <> "title"%string
  /\ (python_key = "rationale"%string -> key = lit "Alasan").
Proof.
  unfold get, mapping, str_eqb.
  repeat (case_bool_decide; [intros [= <-]; split; [discriminate|];
                             first [discriminate | auto]|]).
  discriminate.
Qed.

Lemma set_param_other (data data' : dict) (key value : str) (k : string) :
  set_param data key value = Ret data' ->
  k = "title"%string \/ (k = "rationale"%string /\ key <> lit "Alasan") ->
  data' !! k = data !! k.
Proof.
  unfold set_param. intros Hs Hk.
  destruct (get mapping key) as [python_key|] eqn:Hg;
    [|injection Hs as <-; reflexivity].
  apply get_mapping in Hg as [Ht Hr].
  assert (python_key <> k) as Hne.
  { destruct Hk as [->|[-> Hk]]; [exact Ht|]. intros E. auto. }
  destruct (coerce python_key (clean value)) as [v|[m|m|m]];
    try discriminate; injection Hs as <-; apply lookup_insert_ne, Hne.
Qed.

Lemma set_params_other (params : list (list str)) (data data' : dict)
      (k : string) :
  set_params params data = Ret data' ->
  k = "title"%string
  \/ (k = "rationale"%string
      /\ Forall (fun groups => nth 0 groups [] <> lit "Alasan") params) ->
  data' !! k = data !! k.
Proof.
  revert data. induction params as [|groups params IH]; simpl; intros data Hs Hk.
  - injection Hs as <-. reflexivity.
  - destruct (set_param data _ _) as [data1|] eqn:H1; [|discriminate].
    simpl in Hs. rewrite (IH data1 Hs).
    + apply (set_param_other _ _ _ _ _ H1).
      destruct Hk as [->|[-> Hk]]; [auto|right]. inversion Hk; auto.
    + destruct Hk as [->|[-> Hk]]; [auto|right]. inversion Hk; auto.
Qed.

(** Every record a block gives has a title and a rationale: the length
    test that follows is always passed. *)
Lemma parse_block_keys (rec_block : str) (data : dict) :
  parse_block rec_block = Ret data ->
  is_Some (data !! "title"%string) /\ is_Some (data !! "rationale"%string)
  /\ (1 <? size data) = true.
Proof.
  unfold parse_block. intros Hp.
  destruct (set_params _ _) as [data1|] eqn:Hs; [|discriminate].
  simpl in Hp. injection Hp as <-.
  pose proof (set_params_other _ _ _ "title" Hs (or_introl eq_refl)) as Ht.
  rewrite lookup_insert_eq in Ht.
  assert (forall d : dict,
             is_Some (d !! "title"%string) ->
             is_Some (d !! "rationale"%string) ->
             is_Some (d !! "title"%string) /\ is_Some (d !! "rationale"%string)
             /\ (1 <? size d) = true) as Hfin.
  { intros d H1 H2. repeat split; auto. apply Nat.ltb_lt.
    apply (two_keys d "title" "rationale"); [discriminate|auto|auto]. }
  destruct (data1 !! "rationale"%string) eqn:Hr.
  - apply Hfin; [rewrite Ht|rewrite Hr]; eauto.
  - apply Hfin.
    + rewrite lookup_insert_ne by discriminate. rewrite Ht. eauto.
    + rewrite lookup_insert_eq. eauto.
Qed.

(** A block from which no [Alasan] is extracted, and whose values are
    coerced without an uncaught exception, gets the fallback rationale. *)
Lemma parse_block_fallback (rec_block : str) (data : dict) :
  parse_block rec_block = Ret data ->
  Forall (fun groups => nth 0 groups [] <> lit "Alasan")
         (findall param_re rec_block) ->
  data !! "rationale"%string = Some (PStr RATIONALE_FALLBACK).
Proof.
  unfold parse_block. intros Hp Hno.
  destruct (set_params _ _) as [data1|] eqn:Hs; [|discriminate].
  simpl in Hp. injection Hp as <-.
  pose proof (set_params_other _ _ _ "rationale" Hs
                (or_intror (conj eq_refl Hno))) as Hr.
  rewrite lookup_insert_ne in Hr by discriminate.
  rewrite lookup_empty in Hr. rewrite Hr. apply lookup_insert_eq.
Qed.

(** C2 fails on the code. The fallback rationale is stored before the
    length test, so a block that holds a title only is kept, with the title
    and the fallback rationale as its record. *)
Theorem title_only_block_kept :
  parse_agent_response title_only_text =
  Ret (ResultDict
         {| initial_analysis_text := lit "Kontrol baik.";
            initial_prediction := f75_5;
            target_tonnage := 80;
            initial_difference := f4_5;
            recommendations :=
              [ <["title"%string := PStr (lit "Tambah Truk")]>
                (<["rationale"%string := PStr RATIONALE_FALLBACK]> ∅) ] |}).
Proof. vm_compute. reflexivity. Qed.

(** C7 fails on the code. A block without [Alasan] whose truck count reads
    as an infinite float makes the whole parse raise [OverflowError], which
    the handler for [ValueError] does not catch. *)
Theorem block_overflow_raises :
  parse_agent_response infinite_trucks_text =
  Raise (OverflowError (lit "cannot convert float infinity to integer")).
Proof. vm_compute. reflexivity. Qed.

(** C3, as the code has it. The concrete scenario parses to target 80,
    prediction 75.5, difference 4.5 and one recommendation with the title,
    the three counts, the two numbers and the rationale of the spec; its
    weather is the text [1], which the parser stores uncoerced. *)
Theorem scenario_parse :
  parse_agent_response scenario_text =
  Ret (ResultDict
         {| initial_analysis_text := lit "Kontrol baik.";
            initial_prediction := f75_5;
            target_tonnage := 80;
            initial_difference := f4_5;
            recommendations := [scenario_recommendation] |}).
Proof. vm_compute. reflexivity. Qed.

(** C3 as stated fails: the weather of the parsed recommendation is a
    string, not the integer 1. *)
Lemma scenario_weather_counterexample :
  exists a d,
    parse_agent_response scenario_text = Ret (ResultDict a)
    /\ recommendations a = [d]
    /\ d !! "weather"%string = Some (PStr (lit "1"))
    /\ d !! "weather"%string <> Some (PInt 1).
Proof.
  eexists _, _. split; [vm_compute; reflexivity|]. split; [reflexivity|].
  split; [reflexivity|]. discriminate.
Qed.

(** ** The handlers *)

Section HandlerProperties.
Context `{Collaborators}.

Lemma respond_status (g : globals) (data : MiningInput) :
  forall a k,
    mining_agent g = Some a -> GEMINI_API_KEY g = Some k ->
    (exists r, snd (predict_and_recommend g data) = Body r)
    \/ (exists m, snd (predict_and_recommend g data) = HTTPException 500 m).
Proof.
  intros a k Ha Hk. unfold predict_and_recommend. rewrite Ha, Hk.
  destruct (create_session _ _ _ _) as [s1 e1].
  destruct (run_async _ _ _ _ _) as [s2 r].
  destruct (respond r); simpl; eauto.
Qed.

(** C1, as the code has it. The endpoint answers 503 whenever the agent
    was never initialised or the API key is absent, and only then.  A
    model that failed to load is no condition of refusal: with the agent
    and the key in place, a request that arrives while the model is
    unloaded is not answered with the unavailable signal; it is processed,
    and answered with a body or with status 500. *)
Theorem readiness_gate (g : globals) (data : MiningInput) :
  (snd (predict_and_recommend g data) = HTTPException 503 MSG_UNAVAILABLE
   <-> mining_agent g = None \/ GEMINI_API_KEY g = None)
  /\ (loaded_model g = None ->
      mining_agent g <> None -> GEMINI_API_KEY g <> None ->
      snd (predict_and_recommend g data) <> HTTPException 503 MSG_UNAVAILABLE
      /\ ((exists r, snd (predict_and_recommend g data) = Body r)
          \/ (exists m,
                 snd (predict_and_recommend g data) = HTTPException 500 m))).
Proof.
  split.
  - split.
    + intros H503.
      destruct (mining_agent g) as [a|] eqn:Ha; [|auto].
      destruct (GEMINI_API_KEY g) as [k|] eqn:Hk; [|auto].
      destruct (respond_status g data a k Ha Hk) as [[r Hr]|[m Hm]];
        congruence.
    + unfold predict_and_recommend.
      intros [-> | Hk]; [reflexivity|].
      rewrite Hk. destruct (mining_agent g); reflexivity.
  - intros _ Ha Hk.
    destruct (mining_agent g) as [a|] eqn:Ea; [|contradiction].
    destruct (GEMINI_API_KEY g) as [k|] eqn:Ek; [|contradiction].
    destruct (respond_status g data a k Ea Ek) as [[r Hr]|[m Hm]].
    + split; [rewrite Hr; discriminate|eauto].
    + split; [rewrite Hm; discriminate|eauto].
Qed.


End HandlerProperties.




(** C1 as stated fails: with the agent and the key in place and no model
    loaded, the request is processed and answered with a body. *)
Lemma readiness_gate_counterexample :
  loaded_model demo_globals = None
  /\ exists r, snd (predict_and_recommend demo_globals demo_input) = Body r.
Proof. split; [reflexivity|]. eexists. vm_compute. reflexivity. Qed.

(** C4, as the code has it. From a final event the loop takes the text of
    the first part that has one and leaves the loop over the parts: the
    parts before it have no text, the parts after it are not read. *)
Theorem first_text_part_only (ps1 ps2 : list part) (p : part) (t acc : str)
        (evs : list event) :
  Forall (fun q => truthy (text q) = false) ps1 ->
  text p = Some t -> t <> [] ->
  consume ({| is_final_response := true;
              content := Some (Some (ps1 ++ p :: ps2)) |} :: evs) acc
  = consume evs (acc ++ t).
Proof.
  intros Hps1 Hp Ht. simpl. f_equal.
  assert (append_parts (ps1 ++ p :: ps2) acc = acc ++ t) as Happ.
  { induction Hps1 as [|q ps1 Hq _ IH]; simpl.
    - rewrite Hp. destruct t; [contradiction|reflexivity].
    - rewrite Hq. exact IH. }
  destruct ps1; simpl in *; exact Happ.
Qed.

Lemma first_text_part_only_witness :
  consume [demo_event] [] = scenario_text.
Proof.
  apply (first_text_part_only [] [ {| text := Some (lit "Terima kasih.") |} ]
           {| text := Some scenario_text |} scenario_text [] []).
  - constructor.
  - reflexivity.
  - discriminate.
Defined.

(** C4 as stated fails: of a final event with the two text parts [a] and
    [b] only [a] is accumulated. *)
Lemma first_text_part_only_counterexample :
  consume [ {| is_final_response := true;
               content := Some (Some [ {| text := Some (lit "a") |};
                                       {| text := Some (lit "b") |} ]) |} ] []
  = lit "a"
  /\ lit "a" <> lit "a" ++ lit "b".
Proof. split; [reflexivity|discriminate]. Qed.

(** ** Scanning a text for a word *)

Lemma starts_with_app (p s : str) : starts_with p (p ++ s) = true.
Proof.
  induction p as [|c p IH]; simpl; [reflexivity|].
  rewrite Ascii.eqb_refl. exact IH.
Qed.

Lemma starts_with_true (p s : str) :
  starts_with p s = true -> exists s', s = p ++ s'.
Proof.
  revert s. induction p as [|c p IH]; intros s; simpl.
  - eauto.
  - destruct s as [|b s]; [discriminate|].
    intros H. apply andb_true_iff in H as [Hc Hp].
    apply Ascii.eqb_eq in Hc as ->.
    destruct (IH _ Hp) as [s' ->]. eauto.
Qed.

Lemma skipn_app_length (p s : str) : skipn (length p) (p ++ s) = s.
Proof. induction p; simpl; auto. Qed.

(** A word that is a prefix of [u ++ v] ends inside [u] or runs over all
    of [u]. *)
Lemma starts_with_split (w u v : str) :
  starts_with w (u ++ v) = true ->
  (exists u2, u = w ++ u2)
  \/ (exists w2, w = u ++ w2 /\ starts_with w2 v = true).
Proof.
  revert u. induction w as [|c w IH]; intros u H.
  - left. exists u. reflexivity.
  - destruct u as [|b u].
    + right. exists (c :: w). auto.
    + simpl in H. apply andb_true_iff in H as [Hc Hw].
      apply Ascii.eqb_eq in Hc as ->.
      destruct (IH _ Hw) as [[u2 ->]|[w2 [-> Hw2]]]; [left|right]; eauto.
Qed.

Lemma find_sub_unfold (sep s : str) :
  find_sub sep s =
  if starts_with sep s then Some ([], skipn (length sep) s)
  else match s with
       | [] => None
       | c :: s' =>
           match find_sub sep s' with
           | Some (a, b) => Some (c :: a, b)
           | None => None
           end
       end.
Proof. destruct s; reflexivity. Qed.

Lemma find_sub_here (sep s : str) :
  find_sub sep (sep ++ s) = Some ([], s).
Proof.
  rewrite find_sub_unfold, starts_with_app, skipn_app_length. reflexivity.
Qed.

(** What [find_sub] returns is a decomposition of the text. *)
Lemma find_sub_some (sep s a b : str) :
  find_sub sep s = Some (a, b) -> s = a ++ sep ++ b.
Proof.
  revert a b. induction s as [|c s IH]; intros a b; rewrite find_sub_unfold.
  - destruct sep as [|x sep]; simpl; [|discriminate].
    intros [= <- <-]. reflexivity.
  - destruct (starts_with sep (c :: s)) eqn:E.
    + intros [= <- <-]. apply starts_with_true in E as [s' E].
      rewrite E, skipn_app_length. reflexivity.
    + destruct (find_sub sep s) as [[a' b']|]; [|discriminate].
      intros [= <- <-]. rewrite (IH _ _ eq_refl). reflexivity.
Qed.

Lemma clear_nil (w y : str) : clear w [] y.
Proof. intros pre suf E Hs. destruct pre, suf; try discriminate. congruence. Qed.

Lemma clear_app (w x1 x2 y : str) :
  clear w x1 (x2 ++ y) -> clear w x2 y -> clear w (x1 ++ x2) y.
Proof.
  intros H1 H2 pre suf E Hs.
  revert x1 H1 E. induction pre as [|c pre IH]; intros x1 H1 E.
  - simpl in E. subst suf. destruct x1 as [|c x1].
    + apply (H2 [] x2); auto.
    + rewrite <- app_assoc. apply (H1 [] (c :: x1)); [reflexivity|discriminate].
  - destruct x1 as [|b x1].
    + apply (H2 (c :: pre) suf); auto.
    + injection E as <- E. apply (IH x1); [|exact E].
      intros pre' suf' E' Hs'. apply (H1 (b :: pre') suf'); [|exact Hs'].
      rewrite E'. reflexivity.
Qed.

(** A text in which the first character of [w] does not occur. *)
Lemma clear_first (c0 : ascii) (w x y : str) :
  forallb (fun d => negb (Ascii.eqb c0 d)) x = true -> clear (c0 :: w) x y.
Proof.
  intros Hx pre suf E Hs. subst x.
  rewrite forallb_app in Hx. apply andb_true_iff in Hx as [_ Hx].
  destruct suf as [|d suf]; [contradiction|]. simpl in *.
  apply andb_true_iff in Hx as [Hd _]. apply negb_true_iff in Hd.
  rewrite Hd. reflexivity.
Qed.

Lemma contains_false_suffix (w pre suf : str) :
  contains w (pre ++ suf) = false -> starts_with w suf = false.
Proof.
  unfold contains. induction pre as [|c pre IH].
  - rewrite app_nil_l, find_sub_unfold.
    destruct (starts_with w suf); [|reflexivity].
    intros Hd. discriminate Hd.
  - change ((c :: pre) ++ suf) with (c :: pre ++ suf).
    rewrite find_sub_unfold.
    destruct (starts_with w (c :: pre ++ suf));
      [intros Hd; discriminate Hd|].
    destruct (find_sub w (pre ++ suf)) as [[a b]|] eqn:E;
      [intros Hd; discriminate Hd|].
    intros _. apply IH. reflexivity.
Qed.

(** A text that does not contain [w], followed by a character that is not
    in [w]. *)
Lemma clear_text (w f y : str) (c : ascii) :
  contains w f = false -> ~ In c w -> clear w f (c :: y).
Proof.
  intros Hf Hc pre suf E Hs. subst f.
  apply contains_false_suffix in Hf.
  destruct (starts_with w (suf ++ c :: y)) eqn:Hw; [exfalso|reflexivity].
  apply starts_with_split in Hw as [[u2 ->]|[w2 [-> Hw2]]].
  - rewrite starts_with_app in Hf. discriminate.
  - destruct w2 as [|b w2].
    + rewrite app_nil_r in Hf.
      rewrite <- (app_nil_r suf) in Hf at 2.
      rewrite starts_with_app in Hf. discriminate.
    + simpl in Hw2. apply andb_true_iff in Hw2 as [Hb _].
      apply Ascii.eqb_eq in Hb as ->. apply Hc, in_or_app. right. left.
      reflexivity.
Qed.

Lemma find_sub_skip (w x y : str) :
  clear w x y ->
  find_sub w (x ++ y) =
  match find_sub w y with
  | Some (a, b) => Some (x ++ a, b)
  | None => None
  end.
Proof.
  induction x as [|c x IH]; intros Hc.
  - rewrite app_nil_l. destruct (find_sub w y) as [[a b]|]; reflexivity.
  - change ((c :: x) ++ y) with (c :: (x ++ y)). rewrite find_sub_unfold.
    assert (starts_with w (c :: x ++ y) = false) as ->
        by (apply (Hc [] (c :: x)); [reflexivity|discriminate]).
    rewrite IH.
    + destruct (find_sub w y) as [[a b]|]; reflexivity.
    + intros pre suf E Hs. apply (Hc (c :: pre) suf); [|exact Hs].
      rewrite E. reflexivity.
Qed.

(** The text before the first occurrence of a word that stands right
    after [x]. *)
Lemma find_sub_at (w x y : str) :
  clear w x (w ++ y) -> find_sub w (x ++ w ++ y) = Some (x, y).
Proof.
  intros Hc. rewrite (find_sub_skip _ _ _ Hc), find_sub_here, app_nil_r.
  reflexivity.
Qed.

(** ** The steps of [split], [replace] and [findall] *)

Lemma find_sub_shorter (sep s a b : str) :
  find_sub sep s = Some (a, b) -> length b + length sep <= length s.
Proof.
  intros H. apply find_sub_some in H as ->. rewrite !length_app. lia.
Qed.

Lemma split_fuel_enough (sep : str) (n : nat) (s : str) :
  sep <> [] -> length s <= n -> split_fuel n sep s = split sep s.
Proof.
  intros Hsep. unfold split.
  assert (forall n m s, length s <= n -> length s <= m ->
                        split_fuel n sep s = split_fuel m sep s) as Hgen.
  { clear n s. induction n as [|n IH]; intros m s Hn Hm.
    - destruct s; [|simpl in Hn; lia].
      destruct sep; [contradiction|]. destruct m; reflexivity.
    - destruct m as [|m].
      + destruct s; [|simpl in Hm; lia].
        destruct sep; [contradiction|reflexivity].
      + simpl. destruct (find_sub sep s) as [[a b]|] eqn:E; [|reflexivity].
        pose proof (find_sub_shorter _ _ _ _ E) as Hb.
        assert (0 < length sep) by (destruct sep; [contradiction|simpl; lia]).
        f_equal. apply IH; lia. }
  intros Hn. apply Hgen; lia.
Qed.

Lemma split_step (sep s : str) :
  sep <> [] ->
  split sep s =
  match find_sub sep s with
  | None => [s]
  | Some (a, b) => a :: split sep b
  end.
Proof.
  intros Hsep. unfold split at 1. destruct s as [|c s].
  - destruct sep; [contradiction|reflexivity].
  - cbn [length split_fuel].
    destruct (find_sub sep (c :: s)) as [[a b]|] eqn:E; [|reflexivity].
    pose proof (find_sub_shorter _ _ _ _ E) as Hb. simpl in Hb.
    assert (0 < length sep) by (destruct sep; [contradiction|simpl; lia]).
    f_equal. apply split_fuel_enough; [exact Hsep|lia].
Qed.

Lemma replace_absent (old new s : str) :
  find_sub old s = None -> replace old new s = s.
Proof.
  intros H. unfold replace. destruct (length s); simpl; [reflexivity|].
  rewrite H. reflexivity.
Qed.

(** ** Matching a pattern *)

Lemma lit_k_app {A} (p s : str) (k : str -> option A) :
  lit_k p (p ++ s) k = k s.
Proof.
  induction p as [|c p IH]; simpl; [reflexivity|].
  rewrite Ascii.eqb_refl. exact IH.
Qed.

Lemma lit_k_none {A} (p s : str) (k : str -> option A) :
  starts_with p s = false -> lit_k p s k = None.
Proof.
  revert s. induction p as [|c p IH]; intros s; simpl; [discriminate|].
  destruct s as [|b s]; [reflexivity|].
  destruct (Ascii.eqb c b); simpl; [apply IH|reflexivity].
Qed.

Lemma star_k_stop {A} (c : ascii -> bool) (s : str) (k : str -> option A) :
  match s with [] => True | x :: _ => c x = false end ->
  star_k c s k = k s.
Proof. destruct s as [|x s]; simpl; [reflexivity|]. intros ->. reflexivity. Qed.

Lemma star_k_greedy {A} (c : ascii -> bool) (w s : str)
      (k : str -> option A) (a : A) :
  forallb c w = true -> star_k c s k = Some a ->
  star_k c (w ++ s) k = Some a.
Proof.
  intros Hw Hs. induction w as [|x w IH]; simpl in *; [exact Hs|].
  apply andb_true_iff in Hw as [-> Hw]. rewrite (IH Hw). reflexivity.
Qed.

(** A successful match hands its continuation a text that is shorter by
    at least [min_len r]. *)
Lemma exec_consumes {A} (r : re) :
  forall caps s (k : list str -> str -> option A) a,
    exec r caps s k = Some a ->
    exists caps' s',
      k caps' s' = Some a /\ length s' + min_len r <= length s.
Proof.
  induction r as [p|c|c|c|r1 IH1 r2 IH2|r1 IH1 r2 IH2|r1 IH1];
    intros caps s k a He; simpl in He.
  - apply lit_k_some in He as (s' & -> & Hk). exists caps, s'.
    split; [exact Hk|]. simpl. rewrite length_app. lia.
  - destruct s as [|x s]; [discriminate|].
    destruct (c x); [|discriminate]. exists caps, s. simpl. split; [auto|lia].
  - apply star_k_some in He as (pre & rest & -> & _ & Hk).
    exists caps, rest. split; [exact Hk|]. simpl. rewrite length_app. lia.
  - destruct s as [|x s]; [discriminate|].
    destruct (c x); [|discriminate].
    apply star_k_some in He as (pre & rest & -> & _ & Hk).
    exists caps, rest. split; [exact Hk|]. simpl. rewrite length_app. lia.
  - destruct (exec r1 caps s k) as [a1|] eqn:E1.
    + injection He as ->. destruct (IH1 _ _ _ _ E1) as (c' & s' & Hk & Hl).
      exists c', s'. split; [exact Hk|]. simpl. lia.
    + destruct (IH2 _ _ _ _ He) as (c' & s' & Hk & Hl).
      exists c', s'. split; [exact Hk|]. simpl. lia.
  - destruct (IH1 _ _ _ _ He) as (c1 & s1 & H1 & Hl1).
    destruct (IH2 _ _ _ _ H1) as (c2 & s2 & H2 & Hl2).
    exists c2, s2. split; [exact H2|]. simpl. lia.
  - destruct (IH1 _ _ _ _ He) as (c1 & s1 & H1 & Hl1).
    eexists _, s1. split; [exact H1|]. simpl. lia.
Qed.

Lemma match_here_shorter (r : re) (s : str) caps rest :
  match_here r s = Some (caps, rest) -> length rest + min_len r <= length s.
Proof.
  unfold match_here. intros He.
  apply exec_consumes in He as (c' & s' & [= <- <-] & Hl). exact Hl.
Qed.

Lemma search_unfold (r : re) (s : str) :
  search r s =
  match match_here r s with
  | Some (caps, rest) => Some ([], caps, rest)
  | None =>
      match s with
      | [] => None
      | c :: s' =>
          match search r s' with
          | Some (pre, caps, rest) => Some (c :: pre, caps, rest)
          | None => None
          end
      end
  end.
Proof. destruct s; reflexivity. Qed.

Lemma search_shorter (r : re) (s : str) pre caps rest :
  search r s = Some (pre, caps, rest) ->
  length rest + min_len r <= length s.
Proof.
  revert pre. induction s as [|c s IH]; intros pre; rewrite search_unfold.
  - destruct (match_here r []) as [[c0 r0]|] eqn:E; [|discriminate].
    intros [= <- <- <-]. apply (match_here_shorter _ _ _ _ E).
  - destruct (match_here r (c :: s)) as [[c0 r0]|] eqn:E.
    + intros [= <- <- <-]. apply (match_here_shorter _ _ _ _ E).
    + destruct (search r s) as [[[p0 c0] r0]|]; [|discriminate].
      intros [= <- <- <-]. specialize (IH _ eq_refl). simpl. lia.
Qed.

Lemma search_nil (r : re) : 1 <= min_len r -> search r [] = None.
Proof.
  intros Hr. destruct (search r []) as [[[p0 c0] r0]|] eqn:E; [|reflexivity].
  apply search_shorter in E. simpl in E. lia.
Qed.

Lemma findall_fuel_enough (r : re) (n : nat) (s : str) :
  1 <= min_len r -> length s <= n -> findall_fuel n r s = findall r s.
Proof.
  intros Hr. unfold findall.
  assert (forall n m s, length s <= n -> length s <= m ->
                        findall_fuel n r s = findall_fuel m r s) as Hgen.
  { clear n s. induction n as [|n IH]; intros m s Hn Hm.
    - destruct s; [|simpl in Hn; lia]. destruct m; [reflexivity|].
      cbn [findall_fuel]. rewrite (search_nil r Hr). reflexivity.
    - destruct m as [|m].
      + destruct s; [|simpl in Hm; lia]. cbn [findall_fuel].
        rewrite (search_nil r Hr). reflexivity.
      + cbn [findall_fuel].
        destruct (search r s) as [[[p0 c0] r0]|] eqn:E; [|reflexivity].
        apply search_shorter in E. f_equal. apply IH; lia. }
  intros Hn. apply Hgen; lia.
Qed.

Lemma findall_step (r : re) (s : str) :
  1 <= min_len r ->
  findall r s =
  match search r s with
  | None => []
  | Some (_, caps, rest) => caps :: findall r rest
  end.
Proof.
  intros Hr. unfold findall at 1. destruct s as [|c s].
  - rewrite (search_nil r Hr). reflexivity.
  - cbn [length findall_fuel].
    destruct (search r (c :: s)) as [[[p0 c0] r0]|] eqn:E; [|reflexivity].
    apply search_shorter in E. simpl in E.
    f_equal. apply findall_fuel_enough; [exact Hr|lia].
Qed.

Lemma search_skip (r : re) (x y : str) :
  no_match r x y ->
  search r (x ++ y) =
  match search r y with
  | Some (pre, caps, rest) => Some (x ++ pre, caps, rest)
  | None => None
  end.
Proof.
  induction x as [|c x IH]; intros Hn.
  - rewrite app_nil_l. destruct (search r y) as [[[p0 c0] r0]|]; reflexivity.
  - change ((c :: x) ++ y) with (c :: (x ++ y)). rewrite search_unfold.
    assert (match_here r (c :: x ++ y) = None) as ->
        by (apply (Hn [] (c :: x)); [reflexivity|discriminate]).
    rewrite IH.
    + destruct (search r y) as [[[p0 c0] r0]|]; reflexivity.
    + intros pre suf E Hs. apply (Hn (c :: pre) suf); [|exact Hs].
      rewrite E. reflexivity.
Qed.

Lemma search_here (r : re) (s : str) caps rest :
  match_here r s = Some (caps, rest) -> search r s = Some ([], caps, rest).
Proof. intros H. rewrite search_unfold, H. reflexivity. Qed.

Lemma no_match_app (r : re) (x1 x2 y : str) :
  no_match r x1 (x2 ++ y) -> no_match r x2 y -> no_match r (x1 ++ x2) y.
Proof.
  intros H1 H2 pre suf E Hs.
  revert x1 H1 E. induction pre as [|c pre IH]; intros x1 H1 E.
  - simpl in E. subst suf. destruct x1 as [|c x1].
    + apply (H2 [] x2); auto.
    + rewrite <- app_assoc. apply (H1 [] (c :: x1)); [reflexivity|discriminate].
  - destruct x1 as [|b x1].
    + apply (H2 (c :: pre) suf); auto.
    + injection E as <- E. apply (IH x1); [|exact E].
      intros pre' suf' E' Hs'. apply (H1 (b :: pre') suf'); [|exact Hs'].
      rewrite E'. reflexivity.
Qed.

Lemma exec_Cat {A} (r1 r2 : re) caps s (k : list str -> str -> option A) :
  exec (Cat r1 r2) caps s k
  = exec r1 caps s (fun caps' s' => exec r2 caps' s' k).
Proof. reflexivity. Qed.

Lemma exec_Lit {A} (p : str) caps s (k : list str -> str -> option A) :
  exec (Lit p) caps s k = lit_k p s (k caps).
Proof. reflexivity. Qed.

Lemma exec_Star {A} c caps s (k : list str -> str -> option A) :
  exec (Star c) caps s k = star_k c s (k caps).
Proof. reflexivity. Qed.

(** A labelled number starts with its label. *)
Lemma labelled_number_no_match (label : string) (x y : str) :
  clear (lit label) x y -> no_match (labelled_number label) x y.
Proof.
  intros Hc pre suf E Hs. unfold match_here, labelled_number.
  rewrite exec_Cat, exec_Lit. apply lit_k_none. apply (Hc pre suf E Hs).
Qed.

(** The value after a label: blanks, then the rest of the line. *)
Lemma value_match {A} (c : ascii -> bool) (caps : list str) (v rest : str)
      (k : list str -> str -> option A) (a : A) :
  match v with [] => False | x :: _ => is_space x = false end ->
  forallb c v = true ->
  match rest with [] => True | x :: _ => c x = false end ->
  k (caps ++ [v]) rest = Some a ->
  star_k is_space (" "%char :: v ++ rest)
         (fun s2 => exec (Grp (Plus c)) caps s2 k) = Some a.
Proof.
  intros Hv Hc Hrest Hk. destruct v as [|x v]; [contradiction|].
  cbn [star_k]. change (is_space " ") with true. cbn [app].
  rewrite (star_k_stop is_space (x :: v ++ rest)) by exact Hv.
  cbn [exec]. cbn [forallb] in Hc. apply andb_true_iff in Hc as [-> Hc].
  erewrite star_k_greedy; [reflexivity|exact Hc|].
  rewrite star_k_stop by exact Hrest.
  change (x :: v ++ rest) with ((x :: v) ++ rest).
  rewrite firstn_suffix_length. exact Hk.
Qed.

Lemma labelled_number_match (label : string) (tok rest : str) :
  tok <> [] -> forallb is_digit_or_dot tok = true ->
  match rest with [] => True | x :: _ => is_digit_or_dot x = false end ->
  match_here (labelled_number label) (lit label ++ " "%char :: tok ++ rest)
  = Some ([tok], rest).
Proof.
  intros Hne Htok Hrest. unfold match_here, labelled_number.
  rewrite exec_Cat, exec_Lit, lit_k_app, exec_Cat, exec_Star. cbv beta.
  apply value_match; auto.
  destruct tok as [|x tok]; [contradiction|].
  cbn [forallb] in Htok. apply andb_true_iff in Htok as [Hx _].
  apply digit_or_dot_plain in Hx. tauto.
Qed.

(** ** The lines of a recommendation block *)

Lemma exec_Grp {A} (r : re) caps s (k : list str -> str -> option A) :
  exec (Grp r) caps s k
  = exec r caps s
      (fun caps' s' => k (caps' ++ [firstn (length s - length s') s]) s').
Proof. reflexivity. Qed.

(** A word of an alternation that matches is a prefix of the text. *)
Lemma one_of_some {A} (words : list string) caps s
      (k : list str -> str -> option A) a :
  exec (one_of words) caps s k = Some a ->
  exists w s1, In w words /\ s = lit w ++ s1 /\ k caps s1 = Some a.
Proof.
  induction words as [|w words IH]; intros He.
  - simpl in He. destruct s; discriminate.
  - destruct words as [|w' words].
    + simpl in He. apply lit_k_some in He as (s1 & -> & Hk).
      exists w, s1. simpl. auto.
    + change (one_of (w :: w' :: words))
        with (Alt (Lit (lit w)) (one_of (w' :: words))) in He.
      cbn [exec] in He. fold (@exec A) in He.
      destruct (lit_k (lit w) s (k caps)) as [a1|] eqn:E1.
      * injection He as ->. apply lit_k_some in E1 as (s1 & -> & Hk).
        exists w, s1. simpl. auto.
      * destruct (IH He) as (w0 & s1 & Hin & Hs & Hk).
        exists w0, s1. split; [right; exact Hin|auto].
Qed.

Lemma param_word_match {A} (w : string) (s1 : str) caps
      (k : list str -> str -> option A) :
  In w param_words ->
  exec (one_of param_words) caps (lit w ++ s1) k = k caps s1.
Proof.
  intros Hw. simpl in Hw.
  repeat (destruct Hw as [<-|Hw];
          [simpl; destruct (k caps s1); reflexivity|]).
  contradiction.
Qed.

Lemma append_colon (w : string) :
  lit (String.append w ":") = lit w ++ [":"%char].
Proof. induction w as [|c w IH]; simpl; [reflexivity|]. f_equal. exact IH. Qed.

(** A match of the parameter pattern starts with a label and its colon. *)
Lemma param_no_match (x y : str) :
  (forall l, In l param_labels -> clear (lit l) x y) ->
  no_match param_re x y.
Proof.
  intros Hc pre suf E Hs.
  destruct (match_here param_re (suf ++ y)) as [[caps rest]|] eqn:Hm;
    [exfalso|reflexivity].
  unfold match_here, param_re in Hm. rewrite exec_Cat, exec_Grp in Hm.
  apply one_of_some in Hm as (w & s1 & Hw & Hs1 & Hk).
  rewrite exec_Cat, exec_Lit in Hk.
  apply lit_k_some in Hk as (s2 & -> & _).
  assert (In (String.append w ":") param_labels) as Hl.
  { unfold param_labels. apply in_map_iff. eauto. }
  specialize (Hc _ Hl pre suf E Hs).
  rewrite Hs1, append_colon in Hc.
  change (lit w ++ lit ":" ++ s2) with (lit w ++ [":"%char] ++ s2) in Hc.
  rewrite app_assoc, starts_with_app in Hc. discriminate.
Qed.

Lemma param_match (w : string) (v tail : str) :
  In w param_words -> value_ok v -> line_end tail ->
  match_here param_re (lit (String.append w ":") ++ " "%char :: v ++ tail)
  = Some ([lit w; v], tail).
Proof.
  intros Hw [Hv1 Hv2] Ht. unfold match_here, param_re.
  rewrite append_colon, <- app_assoc.
  rewrite exec_Cat, exec_Grp, (param_word_match _ _ _ _ Hw). cbv beta.
  rewrite firstn_suffix_length.
  rewrite exec_Cat, exec_Lit. change [":"%char] with (lit ":").
  rewrite lit_k_app, exec_Cat, exec_Star. cbv beta.
  apply value_match; auto.
  destruct tail as [|x tail]; [exact I|]. simpl in Ht. subst x. reflexivity.
Qed.

Lemma param_min_len : 1 <= min_len param_re.
Proof. simpl. lia. Qed.

(** One step of [findall] over a block: the text up to a labelled line
    holds no match, the line gives its label and value. *)
Lemma findall_line (w : string) (x v tail : str) :
  In w param_words -> value_ok v -> line_end tail ->
  no_match param_re x
           (lit (String.append w ":") ++ " "%char :: v ++ tail) ->
  findall param_re
          (x ++ lit (String.append w ":") ++ " "%char :: v ++ tail)
  = [lit w; v] :: findall param_re tail.
Proof.
  intros Hw Hv Ht Hx.
  rewrite (findall_step _ _ param_min_len), (search_skip _ _ _ Hx).
  rewrite (search_here _ _ _ _ (param_match w v tail Hw Hv Ht)). reflexivity.
Qed.

(** ** Numerals and texts of a rendered result *)

Lemma uint_digits (d : Decimal.uint) :
  forallb is_digit (list_ascii_of_string (NilEmpty.string_of_uint d)) = true.
Proof. induction d; simpl; auto. Qed.

Lemma show_int_digits (n : Z) :
  (0 <= n)%Z -> show_int n <> [] /\ forallb is_digit (show_int n) = true.
Proof.
  intros Hn. unfold show_int. destruct n as [|p|p]; [| |lia].
  - split; [discriminate|reflexivity].
  - simpl. unfold NilZero.string_of_uint.
    destruct (Pos.to_uint p) as [|d|d|d|d|d|d|d|d|d|d] eqn:E;
      try (rewrite <- E; split; [|apply uint_digits]; rewrite E; discriminate).
    split; [discriminate|reflexivity].
Qed.

Lemma digits_numeral (t : str) :
  forallb is_digit t = true -> forallb is_digit_or_dot t = true.
Proof.
  rewrite !forallb_forall. intros H c Hc. unfold is_digit_or_dot.
  rewrite (H c Hc). reflexivity.
Qed.

Lemma show_int_numeral (n : Z) : (0 <= n)%Z -> numeral (show_int n).
Proof.
  intros Hn. destruct (show_int_digits n Hn) as [Hne Hd].
  split; [exact Hne|apply digits_numeral, Hd].
Qed.

(** A property of every digit and of the dot holds all over a numeral. *)
Lemma numeral_forall (P : ascii -> bool) (t : str) :
  forallb P (lit "0123456789.") = true ->
  forallb is_digit_or_dot t = true -> forallb P t = true.
Proof.
  intros HP Ht. rewrite forallb_forall in *. intros c Hc.
  specialize (Ht c Hc). apply HP. clear -Ht. char_cases c; simpl; tauto.
Qed.

Lemma numeral_value_ok (t : str) : numeral t -> value_ok t.
Proof.
  intros [Hne Ht]. split.
  - destruct t as [|c t]; [contradiction|]. simpl in Ht.
    apply andb_true_iff in Ht as [Hc _]. apply digit_or_dot_plain in Hc. tauto.
  - apply numeral_forall; [reflexivity|exact Ht].
Qed.

Lemma find_sub_clear_none (w x : str) :
  w <> [] -> clear w x [] -> find_sub w x = None.
Proof.
  intros Hw Hc. rewrite <- (app_nil_r x), (find_sub_skip _ _ _ Hc).
  destruct w; [contradiction|reflexivity].
Qed.

(** Cleaning leaves a numeral as it is. *)
Lemma clean_numeral (t : str) : numeral t -> clean t = t.
Proof.
  intros [Hne Ht]. unfold clean.
  rewrite (replace_absent (lit "Ton")).
  - rewrite (replace_absent (lit ",")); [apply token_strip, Ht|].
    apply find_sub_clear_none; [discriminate|].
    apply (clear_first ","%char [] t []).
    apply numeral_forall; [reflexivity|exact Ht].
  - apply find_sub_clear_none; [discriminate|].
    apply (clear_first "T"%char (lit "on") t []).
    apply numeral_forall; [reflexivity|exact Ht].
Qed.

Lemma lstrip_stop (s : str) :
  match s with [] => True | c :: _ => is_space c = false end -> lstrip s = s.
Proof. destruct s as [|c s]; simpl; [reflexivity|]. intros ->. reflexivity. Qed.

Lemma lstrip_newline (s : str) : lstrip (newline :: s) = lstrip s.
Proof. reflexivity. Qed.

Lemma lstrip_blank (ws s : str) :
  forallb is_space ws = true -> lstrip (ws ++ s) = lstrip s.
Proof.
  induction ws as [|c ws IH]; [reflexivity|].
  cbn [forallb app lstrip]. intros H. apply andb_true_iff in H as [-> H].
  apply IH, H.
Qed.

Lemma forallb_rev_true (f : ascii -> bool) (s : str) :
  forallb f s = true -> forallb f (rev s) = true.
Proof.
  rewrite !forallb_forall. intros H c Hc. apply H, in_rev, Hc.
Qed.

(** Stripping a text that stands between blanks and neither starts nor
    ends with a blank. *)
Lemma strip_blank (ws1 ws2 b : str) :
  forallb is_space ws1 = true -> forallb is_space ws2 = true ->
  trimmed b -> strip (ws1 ++ b ++ ws2) = b.
Proof.
  intros H1 H2 [Hc Hc']. unfold starts_unblank in *. unfold strip, rstrip.
  rewrite (lstrip_blank _ _ H1).
  rewrite (lstrip_stop (b ++ ws2))
    by (destruct b; [contradiction|exact Hc]).
  rewrite rev_app_distr.
  rewrite lstrip_blank by (apply forallb_rev_true, H2).
  rewrite lstrip_stop by (destruct (rev b); [contradiction|exact Hc']).
  apply rev_involutive.
Qed.

Lemma trimmed_app (x y : str) :
  starts_unblank x -> trimmed y -> trimmed (x ++ y).
Proof.
  unfold trimmed, starts_unblank. intros Hx [_ Hy]. split.
  - destruct x; [contradiction|exact Hx].
  - rewrite rev_app_distr. destruct (rev y); [contradiction|exact Hy].
Qed.

Lemma trimmed_value_ok (t : str) : trimmed t -> single_line t -> value_ok t.
Proof. intros [Ht _] Hs. split; [exact Ht|exact Hs]. Qed.

(** ** One recommendation block *)

Lemma clear_start (w x y : str) :
  match w with
  | [] => False
  | c0 :: _ => forallb (fun d => negb (Ascii.eqb c0 d)) x = true
  end ->
  clear w x y.
Proof. destruct w as [|c0 w]; [contradiction|]. apply clear_first. Qed.

(** A numeral holds the first character of no label and of no
    delimiter. *)
Lemma clear_numeral (w t y : str) :
  forallb is_digit_or_dot t = true ->
  match w with [] => False | c0 :: _ => is_digit_or_dot c0 = false end ->
  clear w t y.
Proof.
  intros Ht Hw. apply clear_start. destruct w as [|c0 w]; [contradiction|].
  rewrite forallb_forall in *. intros d Hd. specialize (Ht d Hd).
  apply negb_true_iff. destruct (Ascii.eqb c0 d) eqn:E; [|reflexivity].
  apply Ascii.eqb_eq in E. congruence.
Qed.

Lemma line_app (label : string) (v rest : str) :
  line label v ++ rest = lit label ++ " "%char :: v ++ nl ++ rest.
Proof.
  unfold line. rewrite <- app_assoc. f_equal.
  change ((" "%char :: v ++ nl) ++ rest) with (" "%char :: (v ++ nl) ++ rest).
  rewrite <- app_assoc. reflexivity.
Qed.

Lemma nl_line_end (rest : str) : line_end (nl ++ rest).
Proof. reflexivity. Qed.

(** A line feed starts no parameter label. *)
Lemma nl_no_match (y : str) : no_match param_re nl y.
Proof.
  apply param_no_match. intros l Hl. simpl in Hl.
  repeat (destruct Hl as [<-|Hl]; [apply clear_start; reflexivity|]).
  contradiction.
Qed.

(** The step of [findall] from the end of one line to the end of the
    next. *)
Lemma findall_next (w : string) (v rest : str) :
  In w param_words -> value_ok v ->
  findall param_re (nl ++ line (String.append w ":") v ++ rest)
  = [lit w; v] :: findall param_re (nl ++ rest).
Proof.
  intros Hw Hv. rewrite line_app.
  apply findall_line; [exact Hw|exact Hv|apply nl_line_end|apply nl_no_match].
Qed.

Lemma findall_last (w : string) (v : str) :
  In w param_words -> value_ok v ->
  findall param_re (nl ++ lit (String.append w ":") ++ " "%char :: v)
  = [[lit w; v]].
Proof.
  intros Hw Hv. rewrite <- (app_nil_r v) at 1.
  rewrite findall_line;
    [reflexivity|exact Hw|exact Hv|exact I|apply nl_no_match].
Qed.

Section Block.
Variable fmt : spec_float -> str.
Variable i : nat.
Variable r : recommendation.
Hypothesis Hwf : wf_recommendation fmt r.

Lemma weather_numeral : numeral (show_int (r_weather r)).
Proof. apply show_int_numeral. destruct Hwf as (_ & _ & _ & Hw & _). lia. Qed.

Lemma heading_clear (l : string) (y : str) :
  In l param_labels -> clear (lit l) (render_heading i r) y.
Proof.
  intros Hl. destruct Hwf as (_ & _ & _ & _ & _ & _ & _ & Hfree & _).
  unfold free_of in Hfree. apply Forall_cons_iff in Hfree as [_ Hfree].
  rewrite List.Forall_forall in Hfree. specialize (Hfree l Hl).
  assert (forallb is_digit (show_int (Z.of_nat i)) = true) as Hi
      by (apply show_int_digits; lia).
  apply digits_numeral in Hi.
  unfold render_heading. simpl in Hl.
  repeat (destruct Hl as [<-|Hl];
          [apply clear_app; [apply clear_start; reflexivity|];
           apply clear_app; [apply clear_numeral; [exact Hi|reflexivity]|];
           apply clear_app; [apply clear_start; reflexivity|];
           apply clear_app;
             [apply clear_text; [exact Hfree|];
              simpl; intuition discriminate
             |apply clear_start; reflexivity]|]).
  contradiction.
Qed.

(** The pairs [findall] extracts from the block: one per line, in the
    order of the lines. *)
Lemma findall_block :
  findall param_re (render_heading i r ++ render_fields fmt r)
  = [ [lit "Truk"; show_int (r_trucks r)];
      [lit "Ekskavator"; show_int (r_excavators r)];
      [lit "Operator"; show_int (r_operators r)];
      [lit "Cuaca"; show_int (r_weather r)];
      [lit "Prediksi"; fmt (r_predicted_tonnage r)];
      [lit "Selisih"; fmt (r_difference_from_target r)];
      [lit "Alasan"; r_rationale r] ].
Proof.
  pose proof weather_numeral as Hw.
  destruct Hwf as ([Ht _] & [He _] & [Ho _] & _ & [Hp _] & [Hd _]
                   & _ & _ & Hrs & _ & Hrt).
  apply show_int_numeral, numeral_value_ok in Ht, He, Ho.
  apply numeral_value_ok in Hw, Hp, Hd.
  pose proof (trimmed_value_ok _ Hrt Hrs) as Hr.
  unfold render_fields.
  change (line "Truk:") with (line (String.append "Truk" ":")).
  rewrite line_app, findall_line;
    [| simpl; auto | exact Ht | apply nl_line_end
     | apply param_no_match; intros l Hl; apply heading_clear, Hl ].
  f_equal.
  change (line "Ekskavator:") with (line (String.append "Ekskavator" ":")).
  rewrite findall_next; [|simpl; auto 10|exact He]. f_equal.
  change (line "Operator:") with (line (String.append "Operator" ":")).
  rewrite findall_next; [|simpl; auto 10|exact Ho]. f_equal.
  change (line "Cuaca:") with (line (String.append "Cuaca" ":")).
  rewrite findall_next; [|simpl; auto 10|exact Hw]. f_equal.
  change (line "Prediksi:") with (line (String.append "Prediksi" ":")).
  rewrite findall_next; [|simpl; auto 10|exact Hp]. f_equal.
  change (line "Selisih:") with (line (String.append "Selisih" ":")).
  rewrite findall_next; [|simpl; auto 10|exact Hd]. f_equal.
  change (lit "Alasan: " ++ r_rationale r)
    with (lit (String.append "Alasan" ":") ++ " "%char :: r_rationale r).
  apply findall_last; [simpl; auto 10|exact Hr].
Qed.

Lemma set_int (data : dict) (w : string) (key : string) (n : Z) :
  In (w, key) [("Truk", "trucks"); ("Ekskavator", "excavators");
               ("Operator", "operators")]%string ->
  reads_int n ->
  set_param data (lit w) (show_int n) = Ret (<[key := PInt n]> data).
Proof.
  intros Hw [Hn Hr]. unfold set_param.
  rewrite (clean_numeral _ (show_int_numeral n Hn)).
  simpl in Hw.
  destruct Hw as [[= <- <-]|[[= <- <-]|[[= <- <-]|[]]]].
  all: match goal with
       | |- context [get mapping (lit ?x)] =>
           let v := eval vm_compute in (get mapping (lit x)) in
           change (get mapping (lit x)) with v
       end.
  all: unfold coerce;
    match goal with
    | |- context [bool_decide ?P] =>
        let b := eval vm_compute in (bool_decide P) in
        change (bool_decide P) with b
    end; cbv iota;
    destruct (float_of_str (show_int n)) as [x|e]; cbn [bind] in *;
      [|discriminate];
    rewrite Hr; reflexivity.
Qed.

Lemma set_float (data : dict) (w : string) (key : string) (v : spec_float) :
  In (w, key) [("Prediksi", "predicted_tonnage");
               ("Selisih", "difference_from_target")]%string ->
  reads_float fmt v ->
  set_param data (lit w) (fmt v) = Ret (<[key := PFloat v]> data).
Proof.
  intros Hw [Hn Hr]. unfold set_param. rewrite (clean_numeral _ Hn).
  simpl in Hw.
  destruct Hw as [[= <- <-]|[[= <- <-]|[]]].
  all: match goal with
       | |- context [get mapping (lit ?x)] =>
           let v := eval vm_compute in (get mapping (lit x)) in
           change (get mapping (lit x)) with v
       end.
  all: unfold coerce;
    repeat match goal with
    | |- context [bool_decide ?P] =>
        let b := eval vm_compute in (bool_decide P) in
        change (bool_decide P) with b
    end; cbv iota; rewrite Hr; reflexivity.
Qed.

Lemma set_text (data : dict) (w : string) (key : string) (t : str) :
  In (w, key) [("Cuaca", "weather"); ("Alasan", "rationale")]%string ->
  set_param data (lit w) t = Ret (<[key := PStr (clean t)]> data).
Proof.
  intros Hw. unfold set_param. simpl in Hw.
  destruct Hw as [[= <- <-]|[[= <- <-]|[]]]; reflexivity.
Qed.

(** The record of a rendered block holds the recommendation's numbers. *)
Lemma parse_block_rendered :
  exists d,
    parse_block (render_heading i r ++ render_fields fmt r) = Ret d
    /\ same_numbers r d.
Proof.
  pose proof weather_numeral as Hw.
  unfold parse_block. rewrite findall_block.
  destruct Hwf as (Ht & He & Ho & _ & Hp & Hd & _).
  cbn [set_params nth].
  rewrite (set_int _ "Truk" "trucks") by (simpl; auto). cbn [bind].
  rewrite (set_int _ "Ekskavator" "excavators") by (simpl; auto). cbn [bind].
  rewrite (set_int _ "Operator" "operators") by (simpl; auto). cbn [bind].
  rewrite (set_text _ "Cuaca" "weather") by (simpl; auto). cbn [bind].
  rewrite (set_float _ "Prediksi" "predicted_tonnage") by (simpl; auto).
  cbn [bind].
  rewrite (set_float _ "Selisih" "difference_from_target") by (simpl; auto).
  cbn [bind].
  rewrite (set_text _ "Alasan" "rationale") by (simpl; auto). cbn [bind].
  rewrite lookup_insert_eq. eexists. split; [reflexivity|].
  rewrite (clean_numeral _ Hw).
  unfold same_numbers. repeat split.
  all: repeat (rewrite lookup_insert_ne by discriminate).
  all: apply lookup_insert_eq.
Qed.

End Block.

(** ** The delimiters of a rendered text *)

Lemma clear_text_nl (w f y : str) :
  contains w f = false -> forallb not_newline w = true ->
  clear w f (nl ++ y).
Proof.
  intros Hf Hw. apply clear_text; [exact Hf|].
  intros Hin. rewrite forallb_forall in Hw. specialize (Hw _ Hin).
  discriminate.
Qed.

(** A line of a label and a numeral holds no first character of [w]. *)
Lemma clear_line (w : str) (label : string) (t y : str) :
  forallb is_digit_or_dot t = true ->
  match w with
  | [] => False
  | c0 :: _ =>
      forallb (fun d => negb (Ascii.eqb c0 d)) (lit label ++ lit " " ++ nl)
      = true
      /\ is_digit_or_dot c0 = false
  end ->
  clear w (line label t) y.
Proof.
  intros Ht Hw. apply clear_start. destruct w as [|c0 w]; [contradiction|].
  destruct Hw as [Hl Hc]. unfold line.
  rewrite !forallb_app in Hl. apply andb_true_iff in Hl as [Hl Hsn].
  rewrite forallb_app. apply andb_true_iff. split; [exact Hl|].
  change (" "%char :: t ++ nl) with (lit " " ++ t ++ nl).
  rewrite !forallb_app. simpl in Hsn.
  apply andb_true_iff in Hsn as [Hs Hn]. simpl. rewrite Hs, Hn.
  rewrite andb_true_r. simpl.
  rewrite forallb_forall in *. intros d Hd. specialize (Ht d Hd).
  apply negb_true_iff. destruct (Ascii.eqb c0 d) eqn:E; [|reflexivity].
  apply Ascii.eqb_eq in E. congruence.
Qed.

Section Delimiters.
Variable fmt : spec_float -> str.

Lemma fields_clear (r : recommendation) (y : str) :
  wf_recommendation fmt r ->
  clear START_RECOMMENDATION (render_fields fmt r) (nl ++ y).
Proof.
  intros Hwf.
  assert (numeral (show_int (r_weather r))) as [_ Hw]
      by (apply (weather_numeral fmt r Hwf)).
  destruct Hwf as ([Ht _] & [He _] & [Ho _] & _ & [[_ Hp] _] & [[_ Hd] _]
                   & _ & _ & _ & Hfree & _).
  apply show_int_numeral in Ht as [_ Ht], He as [_ He], Ho as [_ Ho].
  apply Forall_cons_iff in Hfree as [Hfree _].
  unfold render_fields.
  repeat (apply clear_app;
          [apply clear_line; [assumption|split; reflexivity]|]).
  apply clear_app; [apply clear_start; reflexivity|].
  apply clear_text_nl; [exact Hfree|reflexivity].
Qed.

Lemma heading_clear_start (i : nat) (r : recommendation) (y : str) :
  wf_recommendation fmt r ->
  clear START_RECOMMENDATION (render_heading i r) y.
Proof.
  intros Hwf.
  destruct Hwf as (_ & _ & _ & _ & _ & _ & _ & Hfree & _).
  apply Forall_cons_iff in Hfree as [Hfree _].
  assert (forallb is_digit (show_int (Z.of_nat i)) = true) as Hi
      by (apply show_int_digits; lia).
  apply digits_numeral in Hi. unfold render_heading.
  apply clear_app; [apply clear_start; reflexivity|].
  apply clear_app; [apply clear_numeral; [exact Hi|reflexivity]|].
  apply clear_app; [apply clear_start; reflexivity|].
  apply clear_app; [|apply clear_start; reflexivity].
  apply clear_text_nl; [exact Hfree|reflexivity].
Qed.

Lemma piece_clear (i : nat) (r : recommendation) (y : str) :
  wf_recommendation fmt r ->
  clear START_RECOMMENDATION (nl ++ block_text fmt i r ++ nl) y.
Proof.
  intros Hwf. apply clear_app; [apply clear_start; reflexivity|].
  apply clear_app; [|apply clear_start; reflexivity].
  unfold block_text. apply clear_app.
  - apply heading_clear_start, Hwf.
  - apply fields_clear, Hwf.
Qed.

(** Splitting the rendered recommendations gives one piece per block and
    a last piece that is a line feed. *)
Lemma split_rendered (l : list recommendation) :
  Forall (wf_recommendation fmt) l ->
  forall i,
    split START_RECOMMENDATION (nl ++ render_recommendations fmt i l)
    = pieces fmt i l.
Proof.
  induction 1 as [|r l Hr Hl IH]; intros i; [reflexivity|].
  cbn [render_recommendations pieces].
  replace (nl ++ render_recommendation fmt i r
              ++ render_recommendations fmt (S i) l)
    with ((nl ++ block_text fmt i r ++ nl) ++ START_RECOMMENDATION
          ++ (nl ++ render_recommendations fmt (S i) l))
    by (unfold render_recommendation, block_text;
        rewrite <- !app_assoc; reflexivity).
  rewrite split_step by discriminate.
  rewrite find_sub_at by (apply piece_clear, Hr).
  rewrite IH. reflexivity.
Qed.

Lemma block_text_trimmed (i : nat) (r : recommendation) :
  wf_recommendation fmt r -> trimmed (block_text fmt i r).
Proof.
  intros Hwf. destruct Hwf as (_ & _ & _ & _ & _ & _ & _ & _ & _ & _ & Hr).
  unfold block_text, render_heading, render_fields.
  rewrite !app_assoc. apply trimmed_app; [|exact Hr].
  rewrite <- !app_assoc. reflexivity.
Qed.

(** A piece that holds a block between blanks adds the record of its
    recommendation. *)
Lemma parse_piece (i : nat) (r : recommendation) (ws1 ws2 : str)
      (rest : list str) (acc : list dict) :
  wf_recommendation fmt r ->
  forallb is_space ws1 = true -> forallb is_space ws2 = true ->
  exists d,
    parse_blocks ((ws1 ++ block_text fmt i r ++ ws2) :: rest) acc
    = parse_blocks rest (acc ++ [d])
    /\ same_numbers r d.
Proof.
  intros Hr H1 H2. cbn [parse_blocks].
  rewrite (strip_blank _ _ _ H1 H2 (block_text_trimmed i r Hr)).
  destruct (parse_block_rendered fmt i r Hr) as (d & Hd & Hsame).
  fold (block_text fmt i r) in Hd.
  destruct (block_text fmt i r) as [|c b] eqn:Hb.
  { apply (f_equal (@length ascii)) in Hb. unfold block_text in Hb.
    unfold render_heading in Hb. rewrite !length_app in Hb.
    simpl in Hb. lia. }
  rewrite Hd. cbn [bind].
  destruct (parse_block_keys _ _ Hd) as (_ & _ & ->).
  exists d. split; [reflexivity|exact Hsame].
Qed.

(** Processing the pieces appends one record per block, in order, each
    with the numbers of its recommendation. *)
Lemma parse_pieces (l : list recommendation) :
  Forall (wf_recommendation fmt) l ->
  forall i acc,
    exists ds,
      parse_blocks (pieces fmt i l) acc = Ret (acc ++ ds)
      /\ Forall2 same_numbers l ds.
Proof.
  induction 1 as [|r l Hr Hl IH]; intros i acc.
  - exists []. rewrite app_nil_r. split; [reflexivity|constructor].
  - cbn [pieces].
    destruct (parse_piece i r nl nl (pieces fmt (S i) l) acc Hr
                eq_refl eq_refl) as (d & -> & Hsame).
    destruct (IH (S i) (acc ++ [d])) as (ds & Hds & Hall).
    exists (d :: ds). rewrite Hds, <- app_assoc. split; [reflexivity|].
    constructor; assumption.
Qed.

End Delimiters.

(** ** The analysis section of a rendered text *)

(** Searching a labelled number that stands right after [x]. *)
Lemma search_label (label : string) (x tok rest : str) :
  numeral tok ->
  clear (lit label) x (lit label ++ " "%char :: tok ++ nl ++ rest) ->
  group1 (search (labelled_number label)
                 (x ++ lit label ++ " "%char :: tok ++ nl ++ rest))
  = Some tok.
Proof.
  intros [Hne Ht] Hx.
  rewrite (search_skip _ _ _ (labelled_number_no_match _ _ _ Hx)).
  rewrite (search_here _ _ [tok] (nl ++ rest)); [reflexivity|].
  apply labelled_number_match; [exact Hne|exact Ht|reflexivity].
Qed.

Section Analysis.
Variable fmt : spec_float -> str.
Variable a : analysis_result.
Hypothesis Hwf : wf_result fmt a.

Lemma analysis_numerals :
  numeral (show_int (a_target_tonnage a)) /\ numeral (fmt (a_prediction a))
  /\ numeral (fmt (a_difference a)).
Proof.
  destruct Hwf as (_ & [Ht _] & _ & [Hp _] & [Hd _] & _).
  split; [apply show_int_numeral, Ht|auto].
Qed.

Lemma analysis_free (w : string) :
  In w ("---END_ANALYSIS---"%string :: analysis_labels) ->
  contains (lit w) (a_analysis_text a) = false.
Proof.
  destruct Hwf as (_ & _ & _ & _ & _ & Hfree & _).
  unfold free_of in Hfree. rewrite List.Forall_forall in Hfree. apply Hfree.
Qed.

(** The delimiter is first met where the renderer wrote it. *)
Lemma find_delimiter (rest : str) :
  find_sub END_ANALYSIS (render_analysis fmt a ++ END_ANALYSIS ++ rest)
  = Some (render_analysis fmt a, rest).
Proof.
  destruct analysis_numerals as ([_ Ht] & [_ Hp] & [_ Hd]).
  apply find_sub_at. unfold render_analysis.
  apply clear_app.
  { apply clear_text_nl; [|reflexivity].
    apply (analysis_free "---END_ANALYSIS---"). simpl. auto. }
  apply clear_app; [apply clear_start; reflexivity|].
  repeat (apply clear_app;
          [apply clear_line; [assumption|split; reflexivity]|]).
  apply clear_line; [assumption|split; reflexivity].
Qed.

Lemma search_target :
  group1 (search target_re (render_analysis fmt a))
  = Some (show_int (a_target_tonnage a)).
Proof.
  destruct analysis_numerals as (Ht & _ & _).
  unfold render_analysis, target_re. rewrite line_app, app_assoc.
  apply search_label; [exact Ht|]. apply clear_app.
  - apply clear_text_nl; [|reflexivity].
    apply (analysis_free "Target_Tonase_Ekstrak:"). simpl. auto.
  - apply clear_start. reflexivity.
Qed.

Lemma search_pred :
  group1 (search pred_re (render_analysis fmt a))
  = Some (fmt (a_prediction a)).
Proof.
  destruct analysis_numerals as ([_ Ht] & Hp & _).
  unfold render_analysis, pred_re.
  replace (a_analysis_text a ++ nl
           ++ line "Target_Tonase_Ekstrak:" (show_int (a_target_tonnage a))
           ++ line "Prediksi_Kontrol:" (fmt (a_prediction a))
           ++ line "Selisih_Kontrol:" (fmt (a_difference a)))
    with ((a_analysis_text a ++ nl
           ++ line "Target_Tonase_Ekstrak:" (show_int (a_target_tonnage a)))
          ++ lit "Prediksi_Kontrol:" ++ " "%char :: fmt (a_prediction a)
          ++ nl ++ line "Selisih_Kontrol:" (fmt (a_difference a)))
    by (rewrite <- line_app, <- !app_assoc; reflexivity).
  apply search_label; [exact Hp|]. apply clear_app.
  - apply clear_text_nl; [|reflexivity].
    apply (analysis_free "Prediksi_Kontrol:"). simpl. auto.
  - apply clear_app; [apply clear_start; reflexivity|].
    apply clear_line; [assumption|split; reflexivity].
Qed.

Lemma search_diff :
  group1 (search diff_re (render_analysis fmt a))
  = Some (fmt (a_difference a)).
Proof.
  destruct analysis_numerals as ([_ Ht] & [_ Hp] & Hd).
  unfold render_analysis, diff_re.
  replace (a_analysis_text a ++ nl
           ++ line "Target_Tonase_Ekstrak:" (show_int (a_target_tonnage a))
           ++ line "Prediksi_Kontrol:" (fmt (a_prediction a))
           ++ line "Selisih_Kontrol:" (fmt (a_difference a)))
    with ((a_analysis_text a ++ nl
           ++ line "Target_Tonase_Ekstrak:" (show_int (a_target_tonnage a))
           ++ line "Prediksi_Kontrol:" (fmt (a_prediction a)))
          ++ lit "Selisih_Kontrol:" ++ " "%char :: fmt (a_difference a)
          ++ nl ++ [])
    by (rewrite <- line_app, app_nil_r, <- !app_assoc; reflexivity).
  apply search_label; [exact Hd|]. apply clear_app.
  - apply clear_text_nl; [|reflexivity].
    apply (analysis_free "Selisih_Kontrol:"). simpl. auto.
  - apply clear_app; [apply clear_start; reflexivity|].
    apply clear_app; apply clear_line;
      solve [assumption | split; reflexivity].
Qed.

(** The three numbers are read back from the rendered analysis. *)
Lemma analysis_numbers_rendered :
  analysis_numbers (render_analysis fmt a)
  = Ret (a_prediction a, a_target_tonnage a, a_difference a).
Proof.
  unfold analysis_numbers. rewrite search_target, search_pred, search_diff.
  destruct Hwf as (_ & [_ Ht] & _ & [_ Hp] & [_ Hd] & _).
  rewrite Hp. cbn [bind]. rewrite Ht. cbn [bind]. rewrite Hd. reflexivity.
Qed.

End Analysis.

(** What the parser returns on the rendering of a well-formed result. *)
Lemma parse_rendered (fmt : spec_float -> str) (a : analysis_result) :
  wf_result fmt a ->
  exists txt ds,
    parse_agent_response (render fmt a)
    = Ret (ResultDict
             {| initial_analysis_text := txt;
                initial_prediction := a_prediction a;
                target_tonnage := a_target_tonnage a;
                initial_difference := a_difference a;
                recommendations := ds |})
    /\ Forall2 same_numbers (a_recommendations a) ds.
Proof.
  intros Hwf. unfold parse_agent_response, render.
  rewrite (find_delimiter fmt a Hwf), (analysis_numbers_rendered fmt a Hwf).
  destruct Hwf as (Hnz & _ & Hp & _ & _ & _ & Hrecs).
  rewrite (split_rendered fmt _ Hrecs).
  destruct (parse_pieces fmt _ Hrecs 1 []) as (ds & -> & Hall).
  cbn [bind]. apply Z.eqb_neq in Hnz. rewrite Hnz, Hp. cbn [orb app].
  eexists _, ds. split; [reflexivity|exact Hall].
Qed.

(** C8, as the code has it. An analysis result is rendered in the Strict
    Response Format, its integers in decimal digits and its floats by any
    way of writing [fmt].  When the result is well formed for that way of
    writing (see [wf_result]: the target is not zero and the prediction is
    not 0.0; every number is written as digits with at most one dot that
    [float], and [int(float(...))] for the integers, reads back; the
    weather is 0, 1 or 2; the analysis text holds neither the delimiter nor
    an analysis label; a title is one line without the block delimiter and
    without a parameter label; a rationale is one line without the block
    delimiter that neither starts nor ends with a blank), parsing the
    rendered text succeeds with the same target, prediction and
    difference, and with one record per recommendation, in the same order,
    that holds its counts and its two numbers; its weather comes back as
    the digits that were written. *)
Theorem format_round_trip (fmt : spec_float -> str) (a : analysis_result) :
  wf_result fmt a ->
  exists p,
    parse_agent_response (render fmt a) = Ret (ResultDict p)
    /\ target_tonnage p = a_target_tonnage a
    /\ initial_prediction p = a_prediction a
    /\ initial_difference p = a_difference a
    /\ Forall2 same_numbers (a_recommendations a) (recommendations p).
Proof.
  intros Hwf. destruct (parse_rendered fmt a Hwf) as (txt & ds & Hparse & Hds).
  eexists. split; [exact Hparse|].
  cbn [target_tonnage initial_prediction initial_difference recommendations].
  repeat split; [exact Hds].
Qed.

Lemma scenario_result_wf : wf_result show_float scenario_result.
Proof.
  unfold wf_result.
  split; [discriminate|]. split; [wf_int|]. split; [reflexivity|].
  split; [wf_float|]. split; [wf_float|]. split; [wf_free|].
  apply List.Forall_cons; [|apply List.Forall_nil].
  unfold wf_recommendation.
  split; [wf_int|]. split; [wf_int|]. split; [wf_int|].
  split; [simpl; lia|]. split; [wf_float|]. split; [wf_float|].
  split; [by_compute|]. split; [wf_free|]. split; [by_compute|].
  split; [wf_free|]. split; by_compute.
Qed.

Lemma format_round_trip_witness :
  exists p,
    parse_agent_response (render show_float scenario_result)
    = Ret (ResultDict p)
    /\ target_tonnage p = 80%Z
    /\ initial_prediction p = f75_5
    /\ initial_difference p = f4_5
    /\ Forall2 same_numbers (a_recommendations scenario_result)
               (recommendations p).
Proof.
  apply (format_round_trip show_float scenario_result).
  apply scenario_result_wf.
Defined.

(** C8 as stated fails: a result with a non-zero, negative target, a
    non-zero prediction, a weather among 0, 1, 2 and a non-empty rationale
    is rendered to a text that the parser rejects, because the pattern of
    a number accepts no sign. *)
Lemma format_round_trip_counterexample :
  a_target_tonnage negative_target_result <> 0%Z
  /\ is_zero (a_prediction negative_target_result) = false
  /\ Forall (fun r => (0 <= r_weather r <= 2)%Z /\ r_rationale r <> [])
            (a_recommendations negative_target_result)
  /\ parse_agent_response (render show_float negative_target_result)
     = Ret (ErrorDict MSG_INCOMPLETE).
Proof.
  split; [discriminate|]. split; [reflexivity|]. split.
  - apply List.Forall_cons; [|apply List.Forall_nil].
    split; [simpl; lia|discriminate].
  - by_compute.
Qed.

(** ** Integers that are read back

    An integer below [2^53] is written in digits that [int(float(...))]
    reads back unchanged. *)

Lemma digits_val_acc (d : Decimal.uint) (acc : positive) :
  digits_val (Zpos acc)
             (list_ascii_of_string (NilEmpty.string_of_uint d))
  = Zpos (Pos.of_uint_acc d acc).
Proof.
  revert acc. induction d; intros acc; cbn [NilEmpty.string_of_uint
    list_ascii_of_string digits_val Pos.of_uint_acc]; [reflexivity|..];
    rewrite <- IHd; f_equal;
    match goal with
    | |- context [digit_val ?c] =>
        let v := eval vm_compute in (digit_val c) in
        change (digit_val c) with v
    end; lia.
Qed.

Lemma digits_val_uint (d : Decimal.uint) :
  digits_val 0 (list_ascii_of_string (NilEmpty.string_of_uint d))
  = Z.of_N (Pos.of_uint d).
Proof.
  induction d; cbn [NilEmpty.string_of_uint list_ascii_of_string digits_val
                    Pos.of_uint]; [reflexivity|exact IHd|..];
    cbn [Z.of_N]; rewrite <- digits_val_acc; reflexivity.
Qed.

Lemma digits_val_show_int (n : Z) :
  (0 <= n)%Z -> digits_val 0 (show_int n) = n.
Proof.
  intros Hn. unfold show_int. destruct n as [|p|p]; [reflexivity| |lia].
  cbn [Z.to_int NilZero.string_of_int]. unfold NilZero.string_of_uint.
  pose proof (DecimalPos.Unsigned.of_to p) as Hp.
  destruct (Pos.to_uint p) eqn:E; [discriminate Hp|..];
    rewrite digits_val_uint, Hp; reflexivity.
Qed.

Lemma span_all (c : ascii -> bool) (s : str) :
  forallb c s = true -> span c s = (s, []).
Proof.
  induction s as [|x s IH]; simpl; [reflexivity|].
  intros H. apply andb_true_iff in H as [-> Hs]. rewrite (IH Hs). reflexivity.
Qed.

(** A token of digits alone is the numeral of an integer. *)
Lemma parse_number_digits (t : str) :
  t <> [] -> forallb is_digit t = true ->
  parse_number t = Some (of_decimal false (digits_val 0 t) 0).
Proof.
  intros Hne Hd. pose proof (digits_numeral _ Hd) as Ht.
  unfold parse_number.
  rewrite (token_sign _ Ht), (token_lower _ Ht).
  rewrite !(token_not_word _ Ht) by reflexivity. cbn [orb].
  rewrite (span_all _ _ Hd). rewrite app_nil_r.
  destruct t as [|c t]; [contradiction|]. reflexivity.
Qed.

Lemma digits2_iter (p k : positive) :
  digits2_pos (Pos.iter xO p k) = (digits2_pos p + k)%positive.
Proof.
  induction k as [|k IH] using Pos.peano_ind.
  - simpl. lia.
  - rewrite Pos.iter_succ. simpl. rewrite IH. lia.
Qed.

Lemma Zpos_iter (p k : positive) :
  Zpos (Pos.iter xO p k) = (Zpos p * 2 ^ Zpos k)%Z.
Proof.
  induction k as [|k IH] using Pos.peano_ind.
  - simpl. lia.
  - rewrite Pos.iter_succ, Pos2Z.inj_succ, Z.pow_succ_r by lia.
    rewrite Pos2Z.inj_xO, IH. lia.
Qed.

Lemma digits2_size (p : positive) : digits2_pos p = Pos.size p.
Proof. induction p; simpl; congruence. Qed.

Lemma digits2_bound (p : positive) :
  (Zpos p < 2 ^ 53)%Z -> (Zpos (digits2_pos p) <= 53)%Z.
Proof.
  intros Hp. rewrite digits2_size.
  pose proof (Pos.size_le p) as Hs.
  assert (2 ^ Zpos (Pos.size p) <= 2 * Zpos p)%Z as Hz.
  { rewrite <- Pos2Z.inj_xO. change 2%Z with (Zpos 2).
    rewrite <- Pos2Z.inj_pow. apply Pos2Z.pos_le_pos. exact Hs. }
  destruct (Z.le_gt_cases (Zpos (Pos.size p)) 53) as [H|H]; [exact H|].
  exfalso.
  assert (2 ^ 54 <= 2 ^ Zpos (Pos.size p))%Z
    by (apply Z.pow_le_mono_r; lia).
  change (2 ^ 54)%Z with (2 * 2 ^ 53)%Z in *. lia.
Qed.

(** A mantissa that already has the exponent of its size is kept. *)
Lemma shr_fexp_exact (m : positive) (e : Z) :
  fexp prec emax (Zpos (digits2_pos m) + e) = e ->
  shr_fexp prec emax (Zpos m) e loc_Exact
  = ({| shr_m := Zpos m; shr_r := false; shr_s := false |}, e).
Proof.
  intros H. unfold shr_fexp. cbn [Zdigits2]. rewrite H, Z.sub_diag.
  reflexivity.
Qed.

Lemma binary_round_aux_exact (m : positive) (e : Z) :
  fexp prec emax (Zpos (digits2_pos m) + e) = e ->
  (e <= 971)%Z ->
  binary_round_aux prec emax false (Zpos m) e loc_Exact
  = S754_finite false m e.
Proof.
  intros H He. unfold binary_round_aux.
  rewrite (shr_fexp_exact m e H).
  cbn [shr_m shr_r shr_s loc_of_shr_record round_nearest_even].
  rewrite (shr_fexp_exact m e H). cbn [shr_m].
  replace (e <=? emax - prec)%Z with true; [reflexivity|].
  symmetry. apply Z.leb_le. unfold emax, prec. lia.
Qed.

(** Rounding an integer below [2^53] only normalises it. *)
Lemma binary_round_small (p : positive) :
  (Zpos p < 2 ^ 53)%Z ->
  int_of_float (binary_round prec emax false p 0) = Ret (Zpos p).
Proof.
  intros Hp. pose proof (digits2_bound p Hp) as Hd.
  assert (fexp prec emax (Zpos (digits2_pos p) + 0)
          = Zpos (digits2_pos p) - 53)%Z as Hf
      by (unfold fexp, emin, prec, emax; lia).
  unfold binary_round, shl_align. rewrite Hf, Z.sub_0_r.
  destruct (Zpos (digits2_pos p) - 53)%Z as [|k|k] eqn:Ek; [|lia|].
  - rewrite binary_round_aux_exact; [|rewrite Hf; reflexivity|lia].
    cbn [int_of_float]. f_equal. lia.
  - rewrite binary_round_aux_exact; [| |lia].
    + cbn [int_of_float]. f_equal.
      rewrite Zpos_iter. change (- Zneg k)%Z with (Zpos k).
      apply Z.div_mul. apply Z.pow_nonzero; lia.
    + rewrite digits2_iter. unfold fexp, emin, prec, emax. lia.
Qed.

(** Every integer from 0 to [2^53 - 1] is read back from its digits. *)
Lemma reads_int_small (n : Z) : (0 <= n < 2 ^ 53)%Z -> reads_int n.
Proof.
  intros [Hn Hb]. split; [exact Hn|].
  destruct (show_int_digits n Hn) as [Hne Hd].
  rewrite (token_parse _ (digits_numeral _ Hd)).
  rewrite (parse_number_digits _ Hne Hd), (digits_val_show_int n Hn).
  cbn [bind]. destruct n as [|p|p]; [reflexivity| |lia].
  unfold of_decimal. change (10 ^ 0)%Z with 1%Z. rewrite Z.mul_1_r.
  cbn [Z.to_pos]. apply binary_round_small, Hb.
Qed.
(** ** Floats that are read back

    [show_float] writes the exact decimal expansion of a binary64 number;
    [float] reads it back unchanged. *)

Lemma shr_1_double (z : Z) :
  (0 < z)%Z -> shr_1 (mk_shr (2 * z)) = mk_shr z.
Proof. destruct z; intros Hz; try lia. reflexivity. Qed.

Lemma pow2_xO (p : positive) :
  (2 ^ Zpos p~0 = 2 ^ Zpos p * 2 ^ Zpos p)%Z.
Proof. rewrite <- Z.pow_add_r by lia. f_equal. lia. Qed.

Lemma pow2_xI (p : positive) :
  (2 ^ Zpos p~1 = 2 * (2 ^ Zpos p * 2 ^ Zpos p))%Z.
Proof.
  rewrite <- Z.pow_add_r by lia. rewrite <- Z.pow_succ_r by lia.
  f_equal. lia.
Qed.

Lemma iter_shr_exact (p : positive) :
  forall z, (0 < z)%Z ->
    SpecFloat.iter_pos shr_1 p (mk_shr (z * 2 ^ Zpos p)) = mk_shr z.
Proof.
  induction p as [p IH|p IH|]; intros z Hz; cbn [SpecFloat.iter_pos].
  - rewrite pow2_xI.
    replace (z * (2 * (2 ^ Zpos p * 2 ^ Zpos p)))%Z
      with (2 * ((z * 2 ^ Zpos p) * 2 ^ Zpos p))%Z by ring.
    assert (0 < 2 ^ Zpos p)%Z by (apply Z.pow_pos_nonneg; lia).
    rewrite shr_1_double by nia. rewrite IH by nia. apply IH, Hz.
  - rewrite pow2_xO.
    replace (z * (2 ^ Zpos p * 2 ^ Zpos p))%Z
      with ((z * 2 ^ Zpos p) * 2 ^ Zpos p)%Z by ring.
    assert (0 < 2 ^ Zpos p)%Z by (apply Z.pow_pos_nonneg; lia).
    rewrite IH by nia. apply IH, Hz.
  - change (2 ^ 1)%Z with 2%Z. rewrite Z.mul_comm. apply shr_1_double, Hz.
Qed.

Lemma Zdigits2_shift (m : positive) (t : Z) :
  (0 <= t)%Z ->
  Zdigits2 (Zpos m * 2 ^ t) = (Zpos (digits2_pos m) + t)%Z.
Proof.
  intros Ht. destruct t as [|k|k]; [|  |lia].
  - rewrite Z.mul_1_r, Z.add_0_r. reflexivity.
  - rewrite <- Zpos_iter. cbn [Zdigits2]. rewrite digits2_iter. reflexivity.
Qed.

Lemma bounded_fexp (m : positive) (e : Z) :
  bounded prec emax m e = true ->
  fexp prec emax (Zpos (digits2_pos m) + e) = e /\ (e <= 971)%Z.
Proof.
  unfold bounded, canonical_mantissa. intros H.
  apply andb_true_iff in H as [H1 H2].
  apply Z.eqb_eq in H1. apply Z.leb_le in H2.
  unfold emax, prec in H2. split; [exact H1|lia].
Qed.

(** A canonical mantissa shifted to the left is rounded back to itself. *)
Lemma binary_round_aux_shift (m : positive) (e t : Z) :
  (0 <= t)%Z -> bounded prec emax m e = true ->
  binary_round_aux prec emax false (Zpos m * 2 ^ t) (e - t) loc_Exact
  = S754_finite false m e.
Proof.
  intros Ht Hb. destruct (bounded_fexp m e Hb) as [Hf He].
  destruct t as [|k|k]; [| |lia].
  - rewrite Z.mul_1_r, Z.sub_0_r. apply binary_round_aux_exact; assumption.
  - unfold binary_round_aux.
    assert (shr_fexp prec emax (Zpos m * 2 ^ Zpos k) (e - Zpos k) loc_Exact
            = (mk_shr (Zpos m), e)) as ->.
    { unfold shr_fexp. rewrite Zdigits2_shift by lia.
      replace (Zpos (digits2_pos m) + Zpos k + (e - Zpos k))%Z
        with (Zpos (digits2_pos m) + e)%Z by lia.
      rewrite Hf. replace (e - (e - Zpos k))%Z with (Zpos k) by lia.
      cbn [shr_record_of_loc shr].
      change {| shr_m := Zpos m * 2 ^ Zpos k; shr_r := false;
                shr_s := false |} with (mk_shr (Zpos m * 2 ^ Zpos k)).
      rewrite iter_shr_exact by lia. f_equal. lia. }
    cbn [mk_shr shr_m shr_r shr_s loc_of_shr_record round_nearest_even].
    rewrite (shr_fexp_exact m e Hf). cbn [shr_m].
    replace (e <=? emax - prec)%Z with true; [reflexivity|].
    symmetry. apply Z.leb_le. unfold emax, prec. lia.
Qed.

Lemma size_spec (p : positive) :
  (2 ^ Zpos (Pos.size p) <= 2 * Zpos p)%Z
  /\ (Zpos p < 2 ^ Zpos (Pos.size p))%Z.
Proof.
  split.
  - pose proof (Pos.size_le p) as Hs.
    rewrite <- Pos2Z.inj_xO. change 2%Z with (Zpos 2).
    rewrite <- Pos2Z.inj_pow. apply Pos2Z.pos_le_pos. exact Hs.
  - pose proof (Pos.size_gt p) as Hs.
    change 2%Z with (Zpos 2). rewrite <- Pos2Z.inj_pow.
    apply Pos2Z.pos_lt_pos. exact Hs.
Qed.

Lemma digits2_mul (a b : positive) :
  (Zpos (digits2_pos (a * b))
   <= Zpos (digits2_pos a) + Zpos (digits2_pos b))%Z.
Proof.
  rewrite !digits2_size.
  destruct (size_spec a) as [_ Ha], (size_spec b) as [_ Hb].
  destruct (size_spec (a * b)) as [Hab _].
  rewrite Pos2Z.inj_mul in Hab.
  assert (2 ^ Zpos (Pos.size (a * b))
          < 2 ^ (Zpos (Pos.size a) + Zpos (Pos.size b) + 1))%Z as Hlt.
  { rewrite Z.pow_add_r, Z.pow_add_r by lia. change (2 ^ 1)%Z with 2%Z.
    assert (Zpos a * Zpos b
            < 2 ^ Zpos (Pos.size a) * 2 ^ Zpos (Pos.size b))%Z
      by (apply Z.mul_lt_mono_nonneg; lia).
    lia. }
  destruct (Z.le_gt_cases (Zpos (Pos.size (a * b)))
              (Zpos (Pos.size a) + Zpos (Pos.size b))) as [H|H];
    [exact H|exfalso].
  assert (2 ^ (Zpos (Pos.size a) + Zpos (Pos.size b) + 1)
          <= 2 ^ Zpos (Pos.size (a * b)))%Z
    by (apply Z.pow_le_mono_r; lia).
  lia.
Qed.

Lemma div_eucl_exact (q d : Z) :
  (0 < d)%Z -> Z.div_eucl (q * d) d = (q, 0%Z).
Proof.
  intros Hd. pose proof (Z.div_mul q d) as H1.
  pose proof (Z.mod_mul q d) as H2. unfold Z.div, Z.modulo in H1, H2.
  destruct (Z.div_eucl (q * d) d) as [a b]. simpl in H1, H2.
  rewrite H1, H2 by lia. reflexivity.
Qed.

Lemma new_location_exact (d : Z) : new_location d 0 = loc_Exact.
Proof.
  unfold new_location, new_location_even, new_location_odd.
  destruct (Z.even d); reflexivity.
Qed.

(** The decimal [M * 10^(-j)] of a binary64 number [m * 2^(-k)] is read as
    that number. *)
Lemma of_decimal_exact (m k : positive) (M j : Z) :
  bounded prec emax m (Zneg k) = true ->
  (0 <= j <= Zpos k)%Z ->
  (M * 10 ^ (Zpos k - j) = Zpos m * 5 ^ Zpos k)%Z ->
  of_decimal false M (- j) = S754_finite false m (Zneg k).
Proof.
  intros Hb Hj HM. destruct (bounded_fexp _ _ Hb) as [Hf He].
  assert (0 < 10 ^ (Zpos k - j))%Z as H10 by (apply Z.pow_pos_nonneg; lia).
  assert (0 < 5 ^ Zpos k)%Z as H5 by (apply Z.pow_pos_nonneg; lia).
  assert (0 < 2 ^ Zpos k)%Z as H2 by (apply Z.pow_pos_nonneg; lia).
  assert (0 < 10 ^ j)%Z as H10j by (apply Z.pow_pos_nonneg; lia).
  assert (M * 2 ^ Zpos k = Zpos m * 10 ^ j)%Z as HF.
  { apply (Z.mul_reg_r _ _ (10 ^ (Zpos k - j))); [lia|].
    replace (Zpos m * 10 ^ j * 10 ^ (Zpos k - j))%Z
      with (Zpos m * 10 ^ Zpos k)%Z.
    - change 10%Z with (5 * 2)%Z at 2. rewrite Z.pow_mul_l.
      rewrite Z.mul_assoc, <- HM. ring.
    - rewrite <- Z.mul_assoc, <- Z.pow_add_r by lia. do 2 f_equal. lia. }
  destruct M as [|P|P]; [lia| |lia].
  assert (Zpos (digits2_pos P) + Zpos k
          <= Zpos (digits2_pos m) + Zdigits2 (10 ^ j))%Z as Hd.
  { rewrite <- (Zdigits2_shift P (Zpos k)) by lia. rewrite HF.
    destruct (10 ^ j)%Z as [|T|T] eqn:ET; [lia| |lia].
    cbn [Zdigits2 Z.mul]. apply digits2_mul. }
  destruct j as [|jj|jj]; [| |lia].
  - (* no digit after the point *)
    change (10 ^ 0)%Z with 1%Z in HF. rewrite Z.mul_1_r in HF.
    change (of_decimal false (Zpos P) (- 0))
      with (binary_round prec emax false (Z.to_pos (Zpos P * 1)) 0).
    rewrite Z.mul_1_r. cbn [Z.to_pos].
    rewrite <- Zpos_iter in HF. injection HF as HF.
    change (Zdigits2 (10 ^ 0)) with 1%Z in Hd.
    assert (Zpos (digits2_pos P) + Zpos k = Zpos (digits2_pos m))%Z as Hdm
      by (rewrite <- HF, digits2_iter; lia).
    unfold binary_round, shl_align.
    replace (Zpos (digits2_pos P) + 0)%Z
      with (Zpos (digits2_pos m) + Zneg k)%Z by lia.
    rewrite Hf. change (Zneg k - 0)%Z with (Zneg k). cbv iota beta.
    rewrite HF.
    apply binary_round_aux_exact; assumption.
  - (* digits after the point *)
    change (of_decimal false (Zpos P) (- Zpos jj))
      with (SFdiv prec emax (S754_finite false P 0)
              (S754_finite false (Z.to_pos (10 ^ Zpos jj)) 0)).
    destruct (10 ^ Zpos jj)%Z as [|T|T] eqn:ET; [lia| |lia].
    cbn [Z.to_pos Zdigits2] in *.
    unfold SFdiv, SFdiv_core_binary. cbn [Zdigits2 xorb].
    rewrite !Z.add_0_r. change (0 - 0)%Z with 0%Z.
    set (e' := Z.min (fexp prec emax (Zpos (digits2_pos P)
                                      - Zpos (digits2_pos T))) 0).
    assert (exists t, (0 <= t)%Z /\ e' = (Zneg k - t)%Z) as (t & Ht & Ee).
    { exists (Zneg k - e')%Z. split; [|lia]. subst e'.
      unfold fexp, emin, prec, emax in *. lia. }
    replace (0 - e')%Z with (Zpos k + t)%Z by lia.
    destruct (Zpos k + t)%Z as [|s|s] eqn:Es; [lia| |lia].
    rewrite Z.shiftl_mul_pow2 by lia. rewrite <- Es.
    replace (Zpos P * 2 ^ (Zpos k + t))%Z
      with ((Zpos m * 2 ^ t) * Zpos T)%Z.
    + rewrite div_eucl_exact by lia. rewrite new_location_exact.
      rewrite Ee. apply binary_round_aux_shift; assumption.
    + rewrite Z.pow_add_r by lia. rewrite Z.mul_assoc, HF. ring.
Qed.

(** *** The digits of the expansion *)

Lemma digit_spec (d : Z) :
  (0 <= d < 10)%Z -> is_digit (digit d) = true /\ digit_val (digit d) = d.
Proof.
  intros Hd.
  assert (d = 0 \/ d = 1 \/ d = 2 \/ d = 3 \/ d = 4 \/ d = 5 \/ d = 6
          \/ d = 7 \/ d = 8 \/ d = 9)%Z as H by lia.
  repeat (destruct H as [->|H]; [split; reflexivity|]).
  subst d. split; reflexivity.
Qed.

Lemma fixed_length (k : nat) : forall n, length (fixed k n) = k.
Proof.
  induction k as [|k IH]; intros n; cbn [fixed]; [reflexivity|].
  rewrite length_app, IH. simpl. lia.
Qed.

Lemma fixed_digits (k : nat) : forall n, forallb is_digit (fixed k n) = true.
Proof.
  induction k as [|k IH]; intros n; cbn [fixed]; [reflexivity|].
  rewrite forallb_app, IH. cbn [forallb andb].
  destruct (digit_spec (n mod 10)) as [-> _]; [|reflexivity].
  apply Z.mod_pos_bound. lia.
Qed.

Lemma digits_val_app (a b : str) :
  forall acc, digits_val acc (a ++ b) = digits_val (digits_val acc a) b.
Proof.
  induction a as [|c a IH]; intros acc; cbn [app digits_val];
    [reflexivity|apply IH].
Qed.

Lemma digits_val_scale (s : str) :
  forall acc,
    digits_val acc s
    = (acc * 10 ^ Z.of_nat (length s) + digits_val 0 s)%Z.
Proof.
  induction s as [|c s IH]; intros acc; cbn [digits_val length].
  - change (10 ^ Z.of_nat 0)%Z with 1%Z. lia.
  - rewrite (IH (10 * acc + digit_val c)%Z), (IH (10 * 0 + digit_val c)%Z).
    rewrite Nat2Z.inj_succ, Z.pow_succ_r by lia. ring.
Qed.

Lemma digits_val_fixed (k : nat) :
  forall n, (0 <= n)%Z ->
    digits_val 0 (fixed k n) = (n mod 10 ^ Z.of_nat k)%Z.
Proof.
  induction k as [|k IH]; intros n Hn; cbn [fixed].
  - change (10 ^ Z.of_nat 0)%Z with 1%Z. rewrite Z.mod_1_r. reflexivity.
  - rewrite digits_val_app. cbn [digits_val].
    rewrite IH by (apply Z.div_pos; lia).
    destruct (digit_spec (n mod 10)) as [_ ->];
      [apply Z.mod_pos_bound; lia|].
    rewrite Nat2Z.inj_succ, Z.pow_succ_r by lia.
    rewrite Z.rem_mul_r by (try apply Z.pow_nonzero; lia). lia.
Qed.

Lemma strip_zeros_value (r : str) :
  length (drop_zeros r) <= length r
  /\ digits_val 0 (rev r)
     = (digits_val 0 (rev (drop_zeros r))
        * 10 ^ Z.of_nat (length r - length (drop_zeros r)))%Z.
Proof.
  induction r as [|c r [IHl IHv]]; cbn [drop_zeros length rev].
  - split; [lia|]. simpl. reflexivity.
  - destruct (Ascii.eqb c "0") eqn:Ec.
    + apply Ascii.eqb_eq in Ec. subst c. split; [lia|].
      rewrite digits_val_app. cbn [digits_val].
      change (digit_val "0") with 0%Z. rewrite IHv.
      replace (S (length r) - length (drop_zeros r))
        with (S (length r - length (drop_zeros r))) by lia.
      rewrite Nat2Z.inj_succ, Z.pow_succ_r by lia. ring.
    + split; [reflexivity|]. cbn [length rev].
      rewrite Nat.sub_diag. change (10 ^ Z.of_nat 0)%Z with 1%Z. lia.
Qed.

Lemma strip_zeros_digits (s : str) :
  forallb is_digit s = true -> forallb is_digit (strip_zeros s) = true.
Proof.
  intros H. unfold strip_zeros.
  assert (forall r, forallb is_digit r = true ->
                    forallb is_digit (drop_zeros r) = true) as Hdz.
  { induction r as [|c r IH]; cbn [drop_zeros forallb]; [reflexivity|].
    intros Hc. destruct (Ascii.eqb c "0"); [|exact Hc].
    apply andb_true_iff in Hc as [_ Hr]. apply IH, Hr. }
  rewrite forallb_forall in *. intros c Hc. apply in_rev in Hc.
  pose proof (Hdz (rev s)) as Hd. rewrite !forallb_forall in Hd.
  apply Hd; [|exact Hc]. intros x Hx. apply H. apply in_rev. exact Hx.
Qed.

Lemma span_stop (c : ascii -> bool) (a b : str) (x : ascii) :
  forallb c a = true -> c x = false -> span c (a ++ x :: b) = (a, x :: b).
Proof.
  intros Ha Hx. induction a as [|y a IH]; cbn [app span].
  - rewrite Hx. reflexivity.
  - cbn [forallb] in Ha. apply andb_true_iff in Ha as [-> Ha].
    rewrite (IH Ha). reflexivity.
Qed.

(** A numeral with a point between two runs of digits. *)
Lemma parse_number_point (ip fp : str) :
  ip <> [] -> forallb is_digit ip = true -> forallb is_digit fp = true ->
  parse_number (ip ++ "."%char :: fp)
  = Some (of_decimal false (digits_val 0 (ip ++ fp))
            (0 - Z.of_nat (length fp))).
Proof.
  intros Hne Hi Hf.
  assert (forallb is_digit_or_dot (ip ++ "."%char :: fp) = true) as Ht.
  { rewrite forallb_app. cbn [forallb].
    rewrite (digits_numeral _ Hi), (digits_numeral _ Hf). reflexivity. }
  unfold parse_number.
  rewrite (token_sign _ Ht), (token_lower _ Ht).
  rewrite !(token_not_word _ Ht) by reflexivity. cbn [orb].
  rewrite (span_stop _ _ _ _ Hi) by reflexivity.
  change (Ascii.eqb "." ".") with true. cbv iota.
  rewrite (span_all _ _ Hf).
  destruct (ip ++ fp) as [|c t] eqn:E.
  - apply app_eq_nil in E as [-> _]. contradiction.
  - reflexivity.
Qed.

Lemma of_decimal_int (m : positive) (e : Z) :
  bounded prec emax m e = true -> (0 <= e)%Z ->
  of_decimal false (Zpos m * 2 ^ e) 0 = S754_finite false m e.
Proof.
  intros Hb He. destruct (bounded_fexp _ _ Hb) as [Hf _].
  assert (0 < 2 ^ e)%Z by (apply Z.pow_pos_nonneg; lia).
  pose proof (Zdigits2_shift m e He) as Hd.
  destruct (Zpos m * 2 ^ e)%Z as [|q|q] eqn:Eq; [lia| |lia].
  change (of_decimal false (Zpos q) 0)
    with (binary_round prec emax false (Z.to_pos (Zpos q * 1)) 0).
  rewrite Z.mul_1_r. cbn [Z.to_pos Zdigits2] in *.
  unfold binary_round, shl_align. rewrite Hd, Z.add_0_r, Hf, Z.sub_0_r.
  assert (binary_round_aux prec emax false (Zpos q) 0 loc_Exact
          = S754_finite false m e) as Hr.
  { rewrite <- Eq. replace 0%Z with (e - e)%Z by lia.
    apply binary_round_aux_shift; assumption. }
  destruct e as [|e|e]; [exact Hr|exact Hr|lia].
Qed.

(** Every non-negative binary64 number is read back from its expansion. *)
Lemma reads_float_show (v : spec_float) :
  plain v = true -> reads_float show_float v.
Proof.
  destruct v as [[|]|[|]| |[|] m e]; try discriminate.
  - intros _. split; [split; [discriminate|reflexivity]|reflexivity].
  - cbn [plain]. intros Hb. unfold reads_float.
    destruct e as [|e|k].
    + cbn [show_float app].
      assert (0 <= Zpos m * 2 ^ 0)%Z as Hn by lia.
      destruct (show_int_digits _ Hn) as [Hne Hd].
      split; [apply show_int_numeral, Hn|].
      rewrite (token_parse _ (digits_numeral _ Hd)).
      rewrite (parse_number_digits _ Hne Hd), (digits_val_show_int _ Hn).
      rewrite of_decimal_int by (assumption || lia). reflexivity.
    + cbn [show_float app].
      assert (0 <= Zpos m * 2 ^ Zpos e)%Z as Hn by lia.
      destruct (show_int_digits _ Hn) as [Hne Hd].
      split; [apply show_int_numeral, Hn|].
      rewrite (token_parse _ (digits_numeral _ Hd)).
      rewrite (parse_number_digits _ Hne Hd), (digits_val_show_int _ Hn).
      rewrite of_decimal_int by (assumption || lia). reflexivity.
    + cbn [show_float app].
      set (n := (Zpos m * 5 ^ Zpos k)%Z). set (p := (10 ^ Zpos k)%Z).
      set (fx := fixed (Pos.to_nat k) (n mod p)).
      assert (0 < p)%Z as Hp by (apply Z.pow_pos_nonneg; lia).
      assert (0 < 5 ^ Zpos k)%Z as H5 by (apply Z.pow_pos_nonneg; lia).
      assert (0 <= n)%Z as Hn by (subst n; lia).
      assert (0 <= n / p)%Z as Hq by (apply Z.div_pos; lia).
      destruct (show_int_digits _ Hq) as [Hne Hd].
      pose proof (fixed_digits (Pos.to_nat k) (n mod p)) as Hfx.
      fold fx in Hfx. pose proof (strip_zeros_digits _ Hfx) as Hfr.
      assert (Z.of_nat (length (strip_zeros fx)) <= Zpos k
              /\ digits_val 0 (show_int (n / p) ++ strip_zeros fx)
                 * 10 ^ (Zpos k - Z.of_nat (length (strip_zeros fx)))
                 = n)%Z as [Hj HM].
      { destruct (strip_zeros_value (rev fx)) as [Hl Hv].
        rewrite rev_involutive in Hv. fold (strip_zeros fx) in Hv.
        assert (length (strip_zeros fx) = length (drop_zeros (rev fx))) as El
          by (unfold strip_zeros; apply length_rev).
        rewrite <- El in Hl, Hv. rewrite length_rev in Hl, Hv.
        unfold fx in Hl at 2. unfold fx in Hv at 1 3.
        rewrite fixed_length in Hl, Hv.
        rewrite digits_val_fixed in Hv by (apply Z.mod_pos_bound; lia).
        rewrite positive_nat_Z in Hv. fold p in Hv.
        rewrite Z.mod_mod in Hv by lia.
        rewrite Nat2Z.inj_sub in Hv by exact Hl.
        rewrite positive_nat_Z in Hv.
        split; [lia|].
        rewrite digits_val_app, digits_val_scale.
        rewrite (digits_val_show_int _ Hq).
        rewrite Z.mul_add_distr_r, <- Hv, <- Z.mul_assoc.
        rewrite <- Z.pow_add_r by lia.
        replace (Z.of_nat (length (strip_zeros fx))
                 + (Zpos k - Z.of_nat (length (strip_zeros fx))))%Z
          with (Zpos k) by lia.
        fold p. pose proof (Z.div_mod n p). lia. }
      destruct (strip_zeros fx) as [|c fr] eqn:Efr.
      * rewrite app_nil_r in *.
        split; [apply show_int_numeral, Hq|].
        rewrite (token_parse _ (digits_numeral _ Hd)).
        rewrite (parse_number_digits _ Hne Hd).
        change 0%Z with (- 0)%Z at 2.
        rewrite (of_decimal_exact m k _ 0 Hb); [reflexivity|lia|exact HM].
      * assert (forallb is_digit_or_dot
                  (show_int (n / p) ++ "."%char :: c :: fr) = true) as Ht.
        { rewrite forallb_app. cbn [forallb].
          rewrite (digits_numeral _ Hd).
          cbn [forallb] in Hfr. apply andb_true_iff in Hfr as [Hc Hr].
          unfold is_digit_or_dot at 2. rewrite Hc.
          rewrite (digits_numeral _ Hr). reflexivity. }
        split.
        { split; [|exact Ht]. destruct (show_int (n / p)); discriminate. }
        rewrite (token_parse _ Ht).
        rewrite (parse_number_point _ _ Hne Hd Hfr).
        rewrite Z.sub_0_l.
        rewrite (of_decimal_exact m k _ _ Hb); [reflexivity|lia|exact HM].
Qed.
(** ** Further properties of the parser and of the endpoint *)

Lemma no_dots_digits (b : str) :
  forallb is_digit_or_dot b = true -> dots b = 0 ->
  forallb is_digit b = true.
Proof.
  induction b as [|c b IH]; [reflexivity|].
  cbn [forallb]. intros H Hd. apply andb_true_iff in H as [Hc Hb].
  change (c :: b) with ([c] ++ b) in Hd. rewrite dots_app in Hd.
  unfold is_digit_or_dot in Hc. apply orb_true_iff in Hc as [Hc|Hc].
  - rewrite Hc. apply IH; [exact Hb|lia].
  - exfalso. unfold dots in Hd at 1. cbn [List.filter] in Hd.
    rewrite Hc in Hd. simpl in Hd. lia.
Qed.

Lemma good_token_number (tok : str) :
  forallb is_digit_or_dot tok = true ->
  bad_token tok = false -> exists f, parse_number tok = Some f.
Proof.
  intros H Hgood. unfold bad_token in Hgood.
  apply orb_false_iff in Hgood as [Hdig Hdots].
  apply negb_false_iff in Hdig. apply Nat.leb_gt in Hdots.
  unfold parse_number.
  rewrite (token_sign _ H), (token_lower _ H).
  rewrite !(token_not_word _ H) by reflexivity. cbn [orb].
  destruct (span is_digit tok) as [ip s2] eqn:Hip.
  destruct (token_span _ _ _ H Hip) as (E & Hd & H2 & Hs2).
  destruct Hs2 as [->|[b ->]].
  - rewrite app_nil_r in *. subst ip.
    destruct tok as [|c t]; [discriminate|]. simpl. eauto.
  - change (Ascii.eqb "." ".") with true. cbv iota.
    assert (forallb is_digit b = true) as Hb.
    { cbn [forallb] in H2. apply andb_true_iff in H2 as [_ H2].
      apply no_dots_digits; [exact H2|].
      rewrite E in Hdots. rewrite dots_app in Hdots.
      change ("."%char :: b) with (["."%char] ++ b) in Hdots.
      rewrite dots_app in Hdots.
      change (dots ["."%char]) with 1 in Hdots. lia. }
    rewrite (span_all _ _ Hb).
    destruct (ip ++ b) as [|c t] eqn:Eib; [|simpl; eauto].
    apply app_eq_nil in Eib as [-> ->]. rewrite E in Hdig. discriminate.
Qed.

(** On a token of digits and dots, [float] succeeds exactly when the token
    has a digit and at most one dot. *)
Theorem numeral_token_accepted (tok : str) :
  forallb is_digit_or_dot tok = true ->
  (exists f, float_of_str tok = Ret f) <-> bad_token tok = false.
Proof.
  intros H. split.
  - intros [f Hf]. destruct (bad_token tok) eqn:Hbad; [|reflexivity].
    rewrite (bad_token_raises _ H Hbad) in Hf. discriminate.
  - intros Hgood. destruct (good_token_number _ H Hgood) as [f Hf].
    exists f. rewrite (token_parse _ H), Hf. reflexivity.
Qed.

Lemma numeral_token_accepted_witness :
  (exists f, float_of_str (lit "75.50") = Ret f)
  <-> bad_token (lit "75.50") = false.
Proof. apply (numeral_token_accepted (lit "75.50")). reflexivity. Defined.

(** Every record built from a block has a title and a rationale, so the
    test [len(data) > 1] never fails. *)
Theorem length_test_always_passes (rec_block : str) (data : dict) :
  parse_block rec_block = Ret data ->
  is_Some (data !! "title"%string) /\ is_Some (data !! "rationale"%string)
  /\ (1 <? size data) = true.
Proof. apply parse_block_keys. Qed.

Lemma length_test_always_passes_witness :
  let data : dict :=
    <["title"%string := PStr (lit "Tambah Truk")]>
      (<["rationale"%string := PStr RATIONALE_FALLBACK]> ∅) in
  is_Some (data !! "title"%string) /\ is_Some (data !! "rationale"%string)
  /\ (1 <? size data) = true.
Proof.
  apply (length_test_always_passes (lit "Rekomendasi 1: Tambah Truk")).
  vm_compute. reflexivity.
Defined.

(** A block in which no [Alasan] line is found gets the fallback
    rationale. *)
Theorem missing_rationale_gets_fallback (rec_block : str) (data : dict) :
  parse_block rec_block = Ret data ->
  Forall (fun groups => nth 0 groups [] <> lit "Alasan")
         (findall param_re rec_block) ->
  data !! "rationale"%string = Some (PStr RATIONALE_FALLBACK).
Proof. apply parse_block_fallback. Qed.

Lemma missing_rationale_gets_fallback_witness :
  (<["title"%string := PStr (lit "Tambah Truk")]>
     (<["rationale"%string := PStr RATIONALE_FALLBACK]> (∅ : dict)))
    !! "rationale"%string
  = Some (PStr RATIONALE_FALLBACK).
Proof.
  apply (missing_rationale_gets_fallback (lit "Rekomendasi 1: Tambah Truk")).
  - vm_compute. reflexivity.
  - vm_compute. apply List.Forall_nil.
Defined.

Section Endpoint.
Context `{Collaborators}.

(** With the agent and the key in place, the endpoint answers with a body
    or with status 500, never with 503. *)
Theorem ready_endpoint_answers (g : globals) (data : MiningInput) :
  forall a k,
    mining_agent g = Some a -> GEMINI_API_KEY g = Some k ->
    (exists r, snd (predict_and_recommend g data) = Body r)
    \/ (exists m, snd (predict_and_recommend g data) = HTTPException 500 m).
Proof. apply respond_status. Qed.

End Endpoint.

Lemma ready_endpoint_answers_witness :
  (exists r, snd (predict_and_recommend demo_globals demo_input) = Body r)
  \/ (exists m, snd (predict_and_recommend demo_globals demo_input)
                 = HTTPException 500 m).
Proof.
  apply (@ready_endpoint_answers demo demo_globals demo_input tt (lit "key"));
    reflexivity.
Defined.

(** *** Numbers in decimal digits *)

(** Every integer from 0 to [2^53 - 1] is read back from its digits by
    [int(float(...))]. *)
Theorem small_integers_read_back (n : Z) :
  (0 <= n < 2 ^ 53)%Z -> reads_int n.
Proof. apply reads_int_small. Qed.

Lemma small_integers_read_back_witness : reads_int 80.
Proof. apply (small_integers_read_back 80). split; [lia|reflexivity]. Defined.

(** Zero and every positive binary64 number are read back by [float] from
    their exact decimal expansion. *)
Theorem positive_floats_read_back (v : spec_float) :
  plain v = true -> reads_float show_float v.
Proof. apply reads_float_show. Qed.

Lemma positive_floats_read_back_witness : reads_float show_float f79_8.
Proof. apply (positive_floats_read_back f79_8). reflexivity. Defined.

Lemma wf_of_decimal (a : analysis_result) :
  decimal_result a -> result_texts a -> wf_result show_float a.
Proof.
  intros (Ht & Hp & Hz & Hd & Hrecs) (Hfree & Htexts).
  unfold wf_result.
  split; [lia|]. split; [apply reads_int_small; lia|].
  split; [exact Hz|]. split; [apply reads_float_show, Hp|].
  split; [apply reads_float_show, Hd|]. split; [exact Hfree|].
  rewrite List.Forall_forall in *. intros r Hr.
  destruct (Hrecs r Hr) as (H1 & H2 & H3 & H4 & H5 & H6).
  destruct (Htexts r Hr) as (T1 & T2 & T3 & T4 & T5).
  unfold wf_recommendation.
  split; [apply reads_int_small, H1|]. split; [apply reads_int_small, H2|].
  split; [apply reads_int_small, H3|]. split; [exact H4|].
  split; [apply reads_float_show, H5|].
  split; [apply reads_float_show, H6|]. auto.
Qed.

(** A result whose counts are below [2^53], whose floats are zero or
    positive, whose target and prediction are not zero and whose texts the
    format can carry is parsed back from its rendering with exact
    decimals. *)
Theorem decimal_round_trip (a : analysis_result) :
  decimal_result a -> result_texts a ->
  exists p,
    parse_agent_response (render show_float a) = Ret (ResultDict p)
    /\ target_tonnage p = a_target_tonnage a
    /\ initial_prediction p = a_prediction a
    /\ initial_difference p = a_difference a
    /\ Forall2 same_numbers (a_recommendations a) (recommendations p).
Proof.
  intros Hd Ht.
  destruct (parse_rendered show_float a (wf_of_decimal a Hd Ht))
    as (txt & ds & Hparse & Hds).
  eexists. split; [exact Hparse|].
  cbn [target_tonnage initial_prediction initial_difference recommendations].
  repeat split; [exact Hds].
Qed.

Lemma decimal_round_trip_witness :
  exists p,
    parse_agent_response (render show_float scenario_result)
    = Ret (ResultDict p)
    /\ target_tonnage p = 80%Z
    /\ Forall2 same_numbers (a_recommendations scenario_result)
               (recommendations p).
Proof.
  destruct (decimal_round_trip scenario_result) as (p & Hp & Ht & _ & _ & Hr).
  - unfold decimal_result. split; [split; reflexivity|].
    repeat (split; [reflexivity|]).
    apply List.Forall_cons; [|apply List.Forall_nil].
    unfold decimal_recommendation.
    repeat split; try reflexivity; try (simpl; lia); try discriminate.
  - split; [wf_free|].
    apply List.Forall_cons; [|apply List.Forall_nil].
    split; [by_compute|]. split; [wf_free|]. split; [by_compute|].
    split; [wf_free|]. split; by_compute.
  - exists p. auto.
Defined.
(** ** The layout of the agent's instruction *)

Section Instructed.
Variable fmt : spec_float -> str.

(** Splitting the recommendations of that layout gives one piece per
    block. *)
Lemma split_instructed (l : list recommendation) :
  Forall (wf_recommendation fmt) l -> l <> [] ->
  forall i,
    split START_RECOMMENDATION (nl ++ instructed_recommendations fmt i l)
    = instructed_pieces fmt i l.
Proof.
  induction 1 as [|r l Hr Hl IH]; intros Hne i; [contradiction|].
  cbn [instructed_recommendations instructed_pieces].
  destruct l as [|r' l'].
  - rewrite app_nil_r. rewrite split_step by discriminate.
    rewrite find_sub_clear_none; [reflexivity|discriminate|].
    apply clear_app; [apply clear_start; reflexivity|].
    apply piece_clear, Hr.
  - replace (nl ++ nl ++ block_text fmt i r ++ nl ++ START_RECOMMENDATION
                ++ nl ++ instructed_recommendations fmt (S i) (r' :: l'))
      with ((nl ++ nl ++ block_text fmt i r ++ nl) ++ START_RECOMMENDATION
            ++ (nl ++ instructed_recommendations fmt (S i) (r' :: l')))
      by (rewrite <- !app_assoc; reflexivity).
    rewrite split_step by discriminate.
    rewrite find_sub_at
      by (apply clear_app; [apply clear_start; reflexivity|];
          apply piece_clear, Hr).
    rewrite IH by discriminate. reflexivity.
Qed.

(** Processing these pieces appends one record per block, in order. *)
Lemma parse_instructed (l : list recommendation) :
  Forall (wf_recommendation fmt) l ->
  forall i acc,
    exists ds,
      parse_blocks (instructed_pieces fmt i l) acc = Ret (acc ++ ds)
      /\ Forall2 same_numbers l ds.
Proof.
  induction 1 as [|r l Hr Hl IH]; intros i acc.
  - exists []. rewrite app_nil_r. split; [reflexivity|constructor].
  - cbn [instructed_pieces]. rewrite (app_assoc nl nl).
    destruct (parse_piece fmt i r (nl ++ nl) nl
                (instructed_pieces fmt (S i) l) acc Hr eq_refl eq_refl)
      as (d & -> & Hsame).
    destruct (IH (S i) (acc ++ [d])) as (ds & Hds & Hall).
    exists (d :: ds). rewrite Hds, <- app_assoc. split; [reflexivity|].
    constructor; assumption.
Qed.

End Instructed.

(** A well-formed result written in the layout of the agent's instruction
    is parsed back with the same numbers, one record per recommendation,
    in order. *)
Theorem instructed_round_trip (fmt : spec_float -> str)
        (a : analysis_result) :
  wf_result fmt a ->
  exists p,
    parse_agent_response (render_instructed fmt a) = Ret (ResultDict p)
    /\ target_tonnage p = a_target_tonnage a
    /\ initial_prediction p = a_prediction a
    /\ initial_difference p = a_difference a
    /\ Forall2 same_numbers (a_recommendations a) (recommendations p).
Proof.
  intros Hwf. unfold parse_agent_response, render_instructed.
  rewrite (find_delimiter fmt a Hwf), (analysis_numbers_rendered fmt a Hwf).
  destruct Hwf as (Hnz & _ & Hp & _ & _ & _ & Hrecs).
  apply Z.eqb_neq in Hnz.
  destruct (a_recommendations a) as [|r l] eqn:El.
  - cbn [bind]. rewrite Hnz, Hp. eexists. split; [reflexivity|].
    cbn. repeat split; constructor.
  - rewrite (split_instructed fmt _ Hrecs) by discriminate.
    destruct (parse_instructed fmt _ Hrecs 1 []) as (ds & -> & Hall).
    cbn [bind]. rewrite Hnz, Hp. cbn [orb app].
    eexists. split; [reflexivity|]. cbn. auto.
Qed.

Lemma instructed_round_trip_witness :
  exists p,
    parse_agent_response (render_instructed show_float scenario_result)
    = Ret (ResultDict p)
    /\ target_tonnage p = 80%Z
    /\ initial_prediction p = f75_5
    /\ initial_difference p = f4_5
    /\ Forall2 same_numbers (a_recommendations scenario_result)
               (recommendations p).
Proof.
  apply (instructed_round_trip show_float scenario_result).
  apply scenario_result_wf.
Defined.
(** ** What the parser keeps and what it raises *)

Lemma mapping_keys (key : str) (python_key : string) :
  get mapping key = Some python_key ->
  python_key ∈ text_keys ++ int_keys ++ float_keys.
Proof.
  unfold get, mapping, str_eqb.
  repeat (case_bool_decide; [intros [= <-]; set_solver|]).
  discriminate.
Qed.

Lemma float_of_str_raises (s : str) (e : exn) :
  float_of_str s = Raise e -> e = float_error s.
Proof.
  unfold float_of_str. intros H.
  destruct (if existsb _ _ then _ else _) as [u|]; [|congruence].
  destruct (parse_number _); congruence.
Qed.

Lemma int_of_float_raises (x : spec_float) (e : exn) :
  int_of_float x = Raise e ->
  (exists s, x = S754_infinity s /\ e = OVERFLOW)
  \/ (x = S754_nan /\ exists m, e = ValueError m).
Proof.
  destruct x as [s|s| |s m k]; simpl; intros H; try discriminate;
    injection H as <-; eauto.
Qed.

Lemma coerce_ok (python_key : string) (c : str) (v : pyval) :
  python_key ∈ text_keys ++ int_keys ++ float_keys ->
  coerce python_key c = Ret v -> field_ok python_key v = true.
Proof.
  intros Hk. unfold coerce.
  fold int_keys float_keys.
  case_bool_decide as Hi.
  - destruct (float_of_str c) as [x|]; [|discriminate]. cbn [bind].
    destruct (int_of_float x); [|discriminate]. cbn [bind].
    intros [= <-]. apply bool_decide_eq_true, Hi.
  - case_bool_decide as Hf.
    + destruct (float_of_str c) as [x|]; [|discriminate]. cbn [bind].
      intros [= <-]. apply bool_decide_eq_true, Hf.
    + intros [= <-]. apply bool_decide_eq_true, Hk.
Qed.

(** A coercion raises [ValueError], or [OverflowError] on a count whose
    text reads as an infinite float. *)
Lemma coerce_raises (python_key : string) (c : str) (e : exn) :
  coerce python_key c = Raise e ->
  (exists m, e = ValueError m)
  \/ (e = OVERFLOW /\ python_key ∈ int_keys
      /\ exists s, float_of_str c = Ret (S754_infinity s)).
Proof.
  unfold coerce. fold int_keys float_keys.
  case_bool_decide as Hi.
  - destruct (float_of_str c) as [x|e'] eqn:Hx; cbn [bind].
    + destruct (int_of_float x) as [n|e'] eqn:Hn; cbn [bind];
        [discriminate|].
      intros [= <-].
      apply int_of_float_raises in Hn as [(s & -> & ->)|(_ & m & ->)];
        eauto 6.
    + intros [= <-]. apply float_of_str_raises in Hx as ->.
      left. unfold float_error. eauto.
  - case_bool_decide as Hf; [|discriminate].
    destruct (float_of_str c) as [x|e'] eqn:Hx; cbn [bind]; [discriminate|].
    intros [= <-]. apply float_of_str_raises in Hx as ->.
    left. unfold float_error. eauto.
Qed.

Lemma set_param_ok (data data' : dict) (key value : str) :
  map_Forall (fun k v => field_ok k v = true) data ->
  set_param data key value = Ret data' ->
  map_Forall (fun k v => field_ok k v = true) data'.
Proof.
  intros Hd. unfold set_param.
  destruct (get mapping key) as [python_key|] eqn:Hg;
    [|intros [= <-]; exact Hd].
  apply mapping_keys in Hg.
  destruct (coerce python_key (clean value)) as [v|[m|m|m]] eqn:Hc;
    try discriminate; intros [= <-]; apply map_Forall_insert_2; try exact Hd.
  - apply (coerce_ok _ _ _ Hg Hc).
  - apply bool_decide_eq_true, Hg.
Qed.

Lemma set_params_ok (params : list (list str)) :
  forall data data' : dict,
    map_Forall (fun k v => field_ok k v = true) data ->
    set_params params data = Ret data' ->
    map_Forall (fun k v => field_ok k v = true) data'.
Proof.
  induction params as [|groups params IH]; intros data data' Hd;
    cbn [set_params].
  - intros [= <-]. exact Hd.
  - destruct (set_param data _ _) as [data1|] eqn:H1; [|discriminate].
    cbn [bind]. apply IH. apply (set_param_ok _ _ _ _ Hd H1).
Qed.

(** A record holds nothing but the eight keys of the schema, a count under
    a count key being an integer or a text, a tonnage figure a float or a
    text, and the title, the weather and the rationale always a text. *)
Theorem record_fields_typed (rec_block : str) (data : dict) :
  parse_block rec_block = Ret data ->
  forall k v, data !! k = Some v -> field_ok k v = true.
Proof.
  unfold parse_block. intros Hp.
  destruct (set_params _ _) as [data1|] eqn:Hs; [|discriminate].
  cbn [bind] in Hp. injection Hp as <-.
  assert (map_Forall (fun k v => field_ok k v = true) data1) as H1.
  { eapply set_params_ok; [|exact Hs].
    apply map_Forall_insert_2; [reflexivity|apply map_Forall_empty]. }
  destruct (data1 !! "rationale"%string); [exact H1|].
  apply map_Forall_insert_2; [reflexivity|exact H1].
Qed.

Lemma record_fields_typed_witness :
  field_ok "weather" (PStr (lit "1")) = true.
Proof.
  apply (record_fields_typed
           (lit "Rekomendasi 1: Tambah Truk" ++ nl ++ lit "Cuaca: 1")
           (<["weather"%string := PStr (lit "1")]>
              (<["title"%string := PStr (lit "Tambah Truk")]>
                 (<["rationale"%string := PStr RATIONALE_FALLBACK]> ∅)))).
  - vm_compute. reflexivity.
  - reflexivity.
Defined.

(** *** What makes the parser raise *)

(** Storing a field raises exactly when the field is a count whose cleaned
    text reads as an infinite float; the exception is [OverflowError]. *)
Theorem field_raises_iff_infinite (data : dict) (key value : str) :
  (exists e, set_param data key value = Raise e)
  <-> exists python_key s,
        get mapping key = Some python_key /\ python_key ∈ int_keys
        /\ float_of_str (clean value) = Ret (S754_infinity s).
Proof.
  unfold set_param. split.
  - intros [e He]. destruct (get mapping key) as [python_key|];
      [|discriminate].
    destruct (coerce python_key (clean value)) as [v|e'] eqn:Hc;
      [discriminate|].
    apply coerce_raises in Hc as [[m ->]|(-> & Hk & s & Hs)];
      [discriminate|eauto].
  - intros (python_key & s & -> & Hk & Hs). exists OVERFLOW.
    unfold coerce. fold int_keys. rewrite (bool_decide_eq_true_2 _ Hk).
    rewrite Hs. reflexivity.
Qed.

Lemma set_param_raises (data : dict) (key value : str) (e : exn) :
  set_param data key value = Raise e -> e = OVERFLOW.
Proof.
  unfold set_param. destruct (get mapping key) as [python_key|];
    [|discriminate].
  destruct (coerce python_key (clean value)) as [v|e'] eqn:Hc;
    [discriminate|].
  apply coerce_raises in Hc as [[m ->]|(-> & _)]; [discriminate|].
  intros [= <-]. reflexivity.
Qed.

Lemma set_params_raises (params : list (list str)) :
  forall (data : dict) (e : exn),
    set_params params data = Raise e -> e = OVERFLOW.
Proof.
  induction params as [|groups params IH]; intros data e; cbn [set_params];
    [discriminate|].
  destruct (set_param data _ _) as [data1|e1] eqn:H1; cbn [bind].
  - apply IH.
  - intros [= <-]. apply (set_param_raises _ _ _ _ H1).
Qed.

Lemma parse_block_raises (rec_block : str) (e : exn) :
  parse_block rec_block = Raise e -> e = OVERFLOW.
Proof.
  unfold parse_block.
  destruct (set_params _ _) as [data1|e1] eqn:Hs; cbn [bind]; [discriminate|].
  intros [= <-]. apply (set_params_raises _ _ _ Hs).
Qed.

Lemma parse_blocks_raises (recs_list : list str) :
  forall (acc : list dict) (e : exn),
    parse_blocks recs_list acc = Raise e -> e = OVERFLOW.
Proof.
  induction recs_list as [|b rest IH]; intros acc e; cbn [parse_blocks];
    [discriminate|].
  destruct (strip b) as [|c b'] eqn:Hb; [apply IH|].
  destruct (parse_block (c :: b')) as [data|e1] eqn:Hp; cbn [bind].
  - apply IH.
  - intros [= <-]. apply (parse_block_raises _ _ Hp).
Qed.

(** [parse_agent_response] raises nothing but the [OverflowError] of a
    count that reads as an infinite float: every other failure comes back
    as an error dictionary. *)
Theorem parser_raises_only_overflow (text : str) (e : exn) :
  parse_agent_response text = Raise e -> e = OVERFLOW.
Proof.
  unfold parse_agent_response.
  destruct (find_sub END_ANALYSIS text) as [[A R]|]; [|discriminate].
  destruct (analysis_numbers A) as [[[p t] d]|e1]; [|discriminate].
  destruct (parse_blocks _ []) as [ds|e1] eqn:Hb; cbn [bind].
  - destruct (_ || _); discriminate.
  - intros [= <-]. apply (parse_blocks_raises _ _ _ Hb).
Qed.

Lemma parser_raises_only_overflow_witness :
  OverflowError (lit "cannot convert float infinity to integer") = OVERFLOW.
Proof.
  apply (parser_raises_only_overflow infinite_trucks_text).
  vm_compute. reflexivity.
Defined.

(** *** How many records *)

Lemma parse_blocks_length (recs_list : list str) :
  forall acc ds : list dict,
    parse_blocks recs_list acc = Ret ds ->
    exists new,
      ds = acc ++ new
      /\ length new
         = length (List.filter (fun p => negb (blank p)) recs_list).
Proof.
  induction recs_list as [|b rest IH]; intros acc ds; cbn [parse_blocks].
  - intros [= <-]. exists []. rewrite app_nil_r. auto.
  - cbn [List.filter]. unfold blank at 1.
    destruct (strip b) as [|c b'] eqn:Hb; cbn [negb]; [apply IH|].
    destruct (parse_block (c :: b')) as [data|e1] eqn:Hp; cbn [bind];
      [|discriminate].
    destruct (parse_block_keys _ _ Hp) as (_ & _ & ->).
    intros Hrest. destruct (IH _ _ Hrest) as (new & -> & Hlen).
    exists (data :: new). rewrite <- app_assoc. split; [reflexivity|].
    simpl. rewrite Hlen. reflexivity.
Qed.

(** A successful parse returns one record for every piece between the
    block delimiters that is not blank: no such piece is dropped. *)
Theorem one_record_per_block (text A R : str) (a : analysis) :
  find_sub END_ANALYSIS text = Some (A, R) ->
  parse_agent_response text = Ret (ResultDict a) ->
  length (recommendations a)
  = length (List.filter (fun p => negb (blank p))
              (split START_RECOMMENDATION R)).
Proof.
  unfold parse_agent_response. intros -> Hp.
  destruct (analysis_numbers A) as [[[p t] d]|e1]; [|discriminate].
  destruct (parse_blocks _ []) as [ds|e1] eqn:Hb; cbn [bind] in Hp;
    [|discriminate].
  destruct (_ || _); [discriminate|]. injection Hp as <-.
  cbn [recommendations].
  destruct (parse_blocks_length _ _ _ Hb) as (new & -> & Hlen). exact Hlen.
Qed.

Lemma one_record_per_block_witness :
  length [scenario_recommendation]
  = length
      (List.filter (fun p => negb (blank p))
         (split START_RECOMMENDATION
            (nl ++ unlines ["Rekomendasi 1: Tambah Truk"; "Truk: 14";
                            "Ekskavator: 3"; "Operator: 18"; "Cuaca: 1";
                            "Prediksi: 79.80"; "Selisih: 0.20";
                            "Alasan: Penambahan truk mendekati target.";
                            "---START_RECOMMENDATION---"]%string))).
Proof.
  apply (one_record_per_block scenario_text
           (unlines ["Kontrol baik."; "Target_Tonase_Ekstrak: 80";
                     "Prediksi_Kontrol: 75.50";
                     "Selisih_Kontrol: 4.50"]%string)
           _
           {| initial_analysis_text := lit "Kontrol baik.";
              initial_prediction := f75_5;
              target_tonnage := 80;
              initial_difference := f4_5;
              recommendations := [scenario_recommendation] |});
    vm_compute; reflexivity.
Defined.

(** *** Repeated fields and absent blocks *)

Lemma set_params_app (ps qs : list (list str)) :
  forall data : dict,
    set_params (ps ++ qs) data
    = (let* data' := set_params ps data in set_params qs data').
Proof.
  induction ps as [|g ps IH]; intros data; cbn [app set_params bind];
    [reflexivity|].
  destruct (set_param data _ _) as [data1|e]; cbn [bind];
    [apply IH|reflexivity].
Qed.

Lemma set_param_keeps (data data' : dict) (key value : str) (k : string) :
  set_param data key value = Ret data' ->
  get mapping key <> Some k -> data' !! k = data !! k.
Proof.
  unfold set_param. intros Hs Hk.
  destruct (get mapping key) as [python_key|];
    [|injection Hs as <-; reflexivity].
  assert (python_key <> k) as Hne by congruence.
  destruct (coerce python_key (clean value)) as [v|[m|m|m]];
    try discriminate; injection Hs as <-; apply lookup_insert_ne, Hne.
Qed.

Lemma set_params_keeps (params : list (list str)) (k : string) :
  forall data data' : dict,
    set_params params data = Ret data' ->
    Forall (fun groups => get mapping (nth 0 groups []) <> Some k) params ->
    data' !! k = data !! k.
Proof.
  induction params as [|groups params IH]; intros data data' Hs Hk;
    cbn [set_params] in Hs.
  - injection Hs as <-. reflexivity.
  - apply Forall_cons_iff in Hk as [Hg Hk].
    destruct (set_param data _ _) as [data1|] eqn:H1; [|discriminate].
    cbn [bind] in Hs. rewrite (IH _ _ Hs Hk).
    apply (set_param_keeps _ _ _ _ _ H1 Hg).
Qed.

(** When a field is met several times in a block, the record holds what
    its last occurrence gives, whatever fields stand before it, between
    its occurrences and after it. *)
Theorem last_occurrence_wins (rec_block : str)
        (params later : list (list str)) (key value : str)
        (python_key : string) (data : dict) :
  findall param_re rec_block = params ++ [key; value] :: later ->
  get mapping key = Some python_key ->
  Forall (fun groups => get mapping (nth 0 groups []) <> Some python_key)
         later ->
  parse_block rec_block = Ret data ->
  data !! python_key = Some (stored python_key value).
Proof.
  intros Hfind Hg Hlater. unfold parse_block. rewrite Hfind.
  rewrite set_params_app.
  destruct (set_params params _) as [data1|]; cbn [bind]; [|discriminate].
  cbn [set_params nth].
  destruct (set_param data1 key value) as [data2|] eqn:H2; cbn [bind];
    [|discriminate].
  destruct (set_params later data2) as [data3|] eqn:H3; cbn [bind];
    [|discriminate].
  intros [= <-].
  assert (data3 !! python_key = Some (stored python_key value)) as Hv.
  { rewrite (set_params_keeps _ _ _ _ H3 Hlater).
    revert H2. unfold set_param, stored. rewrite Hg.
    destruct (coerce python_key (clean value)) as [v|[m|m|m]];
      try discriminate; intros [= <-]; apply lookup_insert_eq. }
  destruct (data3 !! "rationale"%string) eqn:Hr; [exact Hv|].
  rewrite lookup_insert_ne; [exact Hv|]. intros <-. congruence.
Qed.

Lemma last_occurrence_wins_witness :
  (<["operators"%string := PInt 18]>
     (<["trucks"%string := PInt 14]>
        (<["excavators"%string := PInt 3]>
           (<["title"%string := PStr TITLE_FALLBACK]>
              (<["rationale"%string := PStr RATIONALE_FALLBACK]>
                 (∅ : dict))))))
    !! "trucks"%string
  = Some (stored "trucks" (lit "14")).
Proof.
  apply (last_occurrence_wins
           (unlines ["Truk: 12"; "Ekskavator: 3"; "Truk: 14";
                     "Operator: 18"]%string)
           [[lit "Truk"; lit "12"]; [lit "Ekskavator"; lit "3"]]
           [[lit "Operator"; lit "18"]] (lit "Truk") (lit "14")).
  - vm_compute. reflexivity.
  - reflexivity.
  - apply List.Forall_cons; [discriminate|apply List.Forall_nil].
  - vm_compute. reflexivity.
Defined.

Lemma strip_blank_text (s : str) : forallb is_space s = true -> strip s = [].
Proof.
  intros H. unfold strip, rstrip.
  rewrite <- (app_nil_r s), (lstrip_blank _ _ H). reflexivity.
Qed.

Lemma blank_no_delimiter (s : str) :
  forallb is_space s = true -> split START_RECOMMENDATION s = [s].
Proof.
  intros H. rewrite split_step by discriminate.
  rewrite find_sub_clear_none; [reflexivity|discriminate|].
  apply clear_start. cbn [START_RECOMMENDATION lit list_ascii_of_string].
  rewrite forallb_forall in *. intros d Hd. specialize (H d Hd).
  apply negb_true_iff. destruct (Ascii.eqb "-" d) eqn:E; [|reflexivity].
  apply Ascii.eqb_eq in E. subst d. discriminate.
Qed.

(** A text with nothing but blanks after [---END_ANALYSIS---] is accepted,
    with an empty list of recommendations. *)
Theorem no_block_no_recommendation (text A R : str) (p d : spec_float)
        (t : Z) :
  find_sub END_ANALYSIS text = Some (A, R) ->
  forallb is_space R = true ->
  analysis_numbers A = Ret (p, t, d) ->
  t <> 0%Z -> is_zero p = false ->
  parse_agent_response text
  = Ret (ResultDict
           {| initial_analysis_text :=
                strip (remove_all analysis_line_re A);
              initial_prediction := p;
              target_tonnage := t;
              initial_difference := d;
              recommendations := [] |}).
Proof.
  intros Hf HR Hn Ht Hp. unfold parse_agent_response.
  rewrite Hf, Hn, (blank_no_delimiter _ HR). cbn [parse_blocks].
  rewrite (strip_blank_text _ HR). cbn [bind].
  apply Z.eqb_neq in Ht. rewrite Ht, Hp. reflexivity.
Qed.

Lemma no_block_no_recommendation_witness :
  parse_agent_response
    (unlines ["Kontrol baik."; "Target_Tonase_Ekstrak: 80";
              "Prediksi_Kontrol: 75.50"; "---END_ANALYSIS---"]%string)
  = Ret (ResultDict
           {| initial_analysis_text := lit "Kontrol baik.";
              initial_prediction := f75_5;
              target_tonnage := 80;
              initial_difference := S754_zero false;
              recommendations := [] |}).
Proof.
  apply (no_block_no_recommendation _
           (unlines ["Kontrol baik."; "Target_Tonase_Ekstrak: 80";
                     "Prediksi_Kontrol: 75.50"]%string) nl);
    try (vm_compute; reflexivity).
  discriminate.
Defined.
(** ** The title of a block *)

Lemma parse_block_title (rec_block : str) (data : dict) :
  parse_block rec_block = Ret data ->
  data !! "title"%string
  = Some (PStr match group1 (search title_re rec_block) with
               | Some g => strip g
               | None => TITLE_FALLBACK
               end).
Proof.
  unfold parse_block. intros Hp.
  destruct (set_params _ _) as [data1|] eqn:Hs; [|discriminate].
  cbn [bind] in Hp. injection Hp as <-.
  pose proof (set_params_other _ _ _ "title" Hs (or_introl eq_refl)) as Ht.
  rewrite lookup_insert_eq in Ht.
  destruct (data1 !! "rationale"%string); [exact Ht|].
  rewrite lookup_insert_ne by discriminate. exact Ht.
Qed.

(** The heading pattern at the start of a heading line: its group is the
    rest of the line. *)
Lemma title_match (d : ascii) (T rest : str) :
  is_digit d = true -> single_line T -> line_end rest ->
  match_here title_re (lit "Rekomendasi " ++ d :: lit ": " ++ T ++ rest)
  = Some ([T], rest).
Proof.
  intros Hd HT Hrest. unfold match_here, title_re.
  rewrite exec_Cat, exec_Lit, lit_k_app. rewrite exec_Cat.
  cbn [exec]. rewrite Hd. rewrite lit_k_app.
  apply star_k_greedy; [exact HT|].
  rewrite star_k_stop.
  - cbn [app]. rewrite firstn_suffix_length. reflexivity.
  - destruct rest as [|x rest]; [exact I|]. simpl in Hrest. subst x.
    reflexivity.
Qed.

(** A block that starts with a heading of one digit has the text of that
    line, stripped, as its title. *)
Theorem heading_gives_title (d : ascii) (T rest : str) (data : dict) :
  is_digit d = true -> single_line T -> line_end rest ->
  parse_block (lit "Rekomendasi " ++ d :: lit ": " ++ T ++ rest) = Ret data ->
  data !! "title"%string = Some (PStr (strip T)).
Proof.
  intros Hd HT Hrest Hp. rewrite (parse_block_title _ _ Hp).
  rewrite (search_here _ _ _ _ (title_match d T rest Hd HT Hrest)).
  reflexivity.
Qed.

Lemma heading_gives_title_witness :
  (<["title"%string := PStr (lit "Tambah Truk")]>
     (<["rationale"%string := PStr RATIONALE_FALLBACK]> (∅ : dict)))
    !! "title"%string
  = Some (PStr (strip (lit " Tambah Truk "))).
Proof.
  apply (heading_gives_title "1" (lit " Tambah Truk ") []);
    first [exact I | vm_compute; reflexivity].
Defined.

Lemma contains_clear_end (w x : str) : contains w x = false -> clear w x [].
Proof.
  intros H pre suf E _. subst x. rewrite app_nil_r.
  apply (contains_false_suffix _ _ _ H).
Qed.

(** A match of the heading pattern starts with its first word. *)
Lemma title_no_match (x y : str) :
  clear (lit "Rekomendasi ") x y -> no_match title_re x y.
Proof.
  intros Hc pre suf E Hs. specialize (Hc pre suf E Hs).
  unfold match_here, title_re. rewrite exec_Cat, exec_Lit.
  apply lit_k_none, Hc.
Qed.

Lemma title_min_len : 1 <= min_len title_re.
Proof. vm_compute. lia. Qed.

(** A heading numbered with two digits is no heading for the pattern
    [Rekomendasi \d: ]: unless a one-digit heading stands further down,
    the block gets the fallback title. *)
Theorem two_digit_heading_loses_title (d1 d2 : ascii) (rest : str)
        (data : dict) :
  is_digit d1 = true -> is_digit d2 = true ->
  contains (lit "Rekomendasi ") (d2 :: rest) = false ->
  parse_block (lit "Rekomendasi " ++ d1 :: d2 :: rest) = Ret data ->
  data !! "title"%string = Some (PStr TITLE_FALLBACK).
Proof.
  intros H1 H2 Hfree Hp. rewrite (parse_block_title _ _ Hp).
  assert (search title_re (lit "Rekomendasi " ++ d1 :: d2 :: rest) = None)
    as ->; [|reflexivity].
  rewrite <- (app_nil_r (_ ++ _)).
  rewrite search_skip; [rewrite (search_nil _ title_min_len); reflexivity|].
  change (lit "Rekomendasi " ++ d1 :: d2 :: rest)
    with (["R"%char] ++ lit "ekomendasi " ++ [d1] ++ d2 :: rest).
  apply no_match_app.
  - (* the heading itself *)
    intros pre suf E Hs.
    destruct pre as [|c pre];
      [|injection E as _ E; symmetry in E;
        apply app_eq_nil in E as [_ ->]; contradiction].
    cbn [app] in E. subst suf.
    change (["R"%char] ++ (lit "ekomendasi " ++ [d1] ++ d2 :: rest) ++ [])
      with (lit "Rekomendasi " ++ d1 :: (d2 :: rest) ++ []).
    unfold match_here, title_re.
    rewrite exec_Cat, exec_Lit, lit_k_app, exec_Cat. cbn [exec]. rewrite H1.
    apply lit_k_none. cbn [lit list_ascii_of_string starts_with app].
    clear -H2. char_cases d2; try discriminate; reflexivity.
  - apply title_no_match.
    apply clear_app; [apply clear_start; reflexivity|].
    apply clear_app; [|apply contains_clear_end, Hfree].
    apply clear_start. cbn [lit list_ascii_of_string forallb].
    rewrite andb_true_r. clear -H1.
    char_cases d1; try discriminate; reflexivity.
Qed.

Lemma two_digit_heading_loses_title_witness :
  (<["title"%string := PStr TITLE_FALLBACK]>
     (<["rationale"%string := PStr RATIONALE_FALLBACK]> (∅ : dict)))
    !! "title"%string
  = Some (PStr TITLE_FALLBACK).
Proof.
  apply (two_digit_heading_loses_title "1" "0" (lit ": Tambah Truk"));
    vm_compute; reflexivity.
Defined.
(** ** Units and separators in a value *)

Lemma replace_fuel_enough (old new : str) (n : nat) (s : str) :
  old <> [] -> length s <= n -> replace_fuel n old new s = replace old new s.
Proof.
  intros Hold. unfold replace.
  assert (forall n m s, length s <= n -> length s <= m ->
                        replace_fuel n old new s = replace_fuel m old new s)
    as Hgen.
  { clear n s. induction n as [|n IH]; intros m s Hn Hm.
    - destruct s; [|simpl in Hn; lia].
      destruct old; [contradiction|]. destruct m; reflexivity.
    - destruct m as [|m].
      + destruct s; [|simpl in Hm; lia].
        destruct old; [contradiction|reflexivity].
      + simpl. destruct (find_sub old s) as [[a b]|] eqn:E; [|reflexivity].
        pose proof (find_sub_shorter _ _ _ _ E) as Hb.
        assert (0 < length old) by (destruct old; [contradiction|simpl; lia]).
        do 2 f_equal. apply IH; lia. }
  intros Hn. apply Hgen; lia.
Qed.

Lemma replace_step (old new s : str) :
  old <> [] ->
  replace old new s =
  match find_sub old s with
  | None => s
  | Some (a, b) => a ++ new ++ replace old new b
  end.
Proof.
  intros Hold. unfold replace at 1. destruct s as [|c s].
  - destruct old; [contradiction|reflexivity].
  - cbn [length replace_fuel].
    destruct (find_sub old (c :: s)) as [[a b]|] eqn:E; [|reflexivity].
    pose proof (find_sub_shorter _ _ _ _ E) as Hb. simpl in Hb.
    assert (0 < length old) by (destruct old; [contradiction|simpl; lia]).
    do 2 f_equal. apply replace_fuel_enough; [exact Hold|lia].
Qed.

(** Digits, dots, commas and blanks. *)
Lemma grouped_chars (P : ascii -> bool) (groups : list str) :
  forallb P (lit "0123456789.,") = true ->
  Forall (fun g => forallb is_digit_or_dot g = true) groups ->
  forallb P (grouped groups) = true.
Proof.
  intros HP. induction 1 as [|g gs Hg Hgs IH]; [reflexivity|].
  assert (forallb P g = true) as HPg.
  { apply numeral_forall; [|exact Hg].
    cbn [lit list_ascii_of_string forallb] in *.
    repeat (apply andb_true_iff in HP as [? HP]).
    repeat (apply andb_true_iff; split); auto. }
  cbn [grouped]. destruct gs as [|g' gs']; [exact HPg|].
  rewrite forallb_app. cbn [forallb]. rewrite HPg, IH.
  cbn [lit list_ascii_of_string forallb] in HP.
  repeat (apply andb_true_iff in HP as [? HP]).
  repeat (apply andb_true_iff; split); auto.
Qed.

Lemma remove_commas (groups : list str) (tail : str) :
  Forall (fun g => forallb is_digit_or_dot g = true) groups ->
  find_sub (lit ",") tail = None ->
  replace (lit ",") [] (grouped groups ++ tail) = concat groups ++ tail.
Proof.
  intros Hg Htail. induction Hg as [|g gs Hg Hgs IH].
  - apply replace_absent, Htail.
  - assert (forall y, clear (lit ",") g y) as Hclear.
    { intros y. apply (clear_first ","%char []).
      apply numeral_forall; [reflexivity|exact Hg]. }
    cbn [grouped concat]. destruct gs as [|g' gs'].
    + cbn [concat]. rewrite app_nil_r. apply replace_absent.
      rewrite (find_sub_skip _ _ _ (Hclear tail)), Htail. reflexivity.
    + rewrite <- !app_assoc.
      change ((","%char :: grouped (g' :: gs')) ++ tail)
        with (lit "," ++ grouped (g' :: gs') ++ tail).
      rewrite replace_step by discriminate.
      rewrite find_sub_at by apply Hclear.
      rewrite IH. reflexivity.
Qed.

Lemma strip_token_space (t : str) :
  forallb is_digit_or_dot t = true -> strip (t ++ lit " ") = t.
Proof.
  intros Ht. rewrite <- (app_nil_l (t ++ lit " ")).
  destruct t as [|c t]; [reflexivity|].
  apply strip_blank; try reflexivity. split.
  - cbn [forallb] in Ht. apply andb_true_iff in Ht as [Hc _].
    unfold starts_unblank. clear -Hc. char_cases c.
  - pose proof (token_rev _ Ht) as Hr.
    unfold starts_unblank. destruct (rev (c :: t)) as [|x r] eqn:E.
    + apply (f_equal (@length ascii)) in E. rewrite length_rev in E.
      discriminate.
    + cbn [forallb] in Hr. apply andb_true_iff in Hr as [Hx _].
      clear -Hx. char_cases x.
Qed.

Lemma concat_token (groups : list str) :
  Forall (fun g => forallb is_digit_or_dot g = true) groups ->
  forallb is_digit_or_dot (concat groups) = true.
Proof.
  induction 1 as [|g gs Hg Hgs IH]; [reflexivity|].
  cbn [concat]. rewrite forallb_app, Hg, IH. reflexivity.
Qed.

Lemma clean_grouped_ton (groups : list str) :
  Forall (fun g => forallb is_digit_or_dot g = true) groups ->
  clean (grouped groups ++ lit " Ton") = concat groups.
Proof.
  intros Hg. unfold clean.
  replace (grouped groups ++ lit " Ton")
    with ((grouped groups ++ lit " ") ++ lit "Ton" ++ [])
    by (rewrite <- app_assoc; reflexivity).
  rewrite (replace_step (lit "Ton")) by discriminate.
  rewrite find_sub_at.
  - rewrite (replace_absent (lit "Ton") [] []) by reflexivity.
    rewrite !app_nil_r.
    rewrite (remove_commas _ _ Hg) by reflexivity.
    apply strip_token_space, concat_token, Hg.
  - apply (clear_first "T"%char (lit "on")).
    rewrite forallb_app.
    rewrite (grouped_chars (fun d => negb (Ascii.eqb "T" d)) _ eq_refl Hg).
    reflexivity.
Qed.

(** A figure written with commas between its groups of digits and with
    the unit [Ton] is stored as the same figure written plainly. *)
Theorem unit_and_commas_dropped (data : dict) (key : str)
        (groups : list str) :
  Forall (fun g => forallb is_digit_or_dot g = true) groups ->
  concat groups <> [] ->
  set_param data key (grouped groups ++ lit " Ton")
  = set_param data key (concat groups).
Proof.
  intros Hg Hne. unfold set_param.
  rewrite (clean_grouped_ton _ Hg).
  rewrite (clean_numeral (concat groups)); [reflexivity|].
  split; [exact Hne|apply concat_token, Hg].
Qed.

Lemma unit_and_commas_dropped_witness :
  set_param ∅ (lit "Prediksi") (lit "1,250.5 Ton")
  = set_param ∅ (lit "Prediksi") (lit "1250.5").
Proof.
  apply (unit_and_commas_dropped ∅ (lit "Prediksi") [lit "1"; lit "250.5"]).
  - repeat constructor.
  - discriminate.
Defined.
(** ** The answers of the endpoint *)

Lemma parse_error_messages (text m : str) :
  parse_agent_response text = Ret (ErrorDict m) ->
  m = MSG_MALFORMED \/ m = MSG_INCOMPLETE
  \/ exists e, m = MSG_NUMERIC ++ exn_str e.
Proof.
  unfold parse_agent_response.
  destruct (find_sub END_ANALYSIS text) as [[A R]|]; [|intros [= <-]; auto].
  destruct (analysis_numbers A) as [[[p t] d]|e1]; [|intros [= <-]; eauto].
  destruct (parse_blocks _ []) as [ds|e1]; cbn [bind]; [|discriminate].
  destruct (_ || _); [intros [= <-]; auto|discriminate].
Qed.

Section Answers.
Context `{Collaborators}.

Lemma ready_answer (g : globals) (data : MiningInput) (a : agent) (k : str) :
  mining_agent g = Some a -> GEMINI_API_KEY g = Some k ->
  snd (predict_and_recommend g data)
  = match respond (agent_run g a data) with
    | Ret response => Body response
    | Raise e => HTTPException 500 (DETAIL_PREFIX ++ exn_str e)
    end.
Proof.
  intros Ha Hk. unfold predict_and_recommend, agent_run. rewrite Ha, Hk.
  destruct (create_session _ _ _ _) as [s1 e1]. cbn [fst].
  destruct (run_async _ _ _ _ _) as [s2 r]. cbn [snd].
  destruct (respond r); reflexivity.
Qed.

Lemma append_parts_acc (ps : list part) (acc : str) :
  append_parts ps acc = acc ++ append_parts ps [].
Proof.
  induction ps as [|p ps IH]; cbn [append_parts].
  - rewrite app_nil_r. reflexivity.
  - destruct (truthy (text p)); [reflexivity|exact IH].
Qed.

Lemma consume_acc (evs : list event) :
  forall acc, consume evs acc = acc ++ consume evs [].
Proof.
  induction evs as [|ev evs IH]; intros acc; cbn [consume].
  - rewrite app_nil_r. reflexivity.
  - rewrite IH. rewrite (IH (match is_final_response ev, content ev with
                             | true, Some (Some (p :: ps)) => _
                             | _, _ => []
                             end)).
    rewrite app_assoc. f_equal.
    destruct (is_final_response ev); [|rewrite app_nil_r; reflexivity].
    destruct (content ev) as [[[|p ps]|]|];
      try (rewrite app_nil_r; reflexivity).
    apply append_parts_acc.
Qed.

Lemma consume_app (evs1 evs2 : list event) :
  forall acc, consume (evs1 ++ evs2) acc = consume evs2 (consume evs1 acc).
Proof.
  induction evs1 as [|ev evs1 IH]; intros acc; [reflexivity|].
  cbn [app consume]. apply IH.
Qed.

(** The response text of a run is the texts of its events one after the
    other, in the order of the events. *)
Theorem response_text_joined (evs1 evs2 : list event) :
  consume (evs1 ++ evs2) [] = consume evs1 [] ++ consume evs2 [].
Proof. rewrite consume_app. apply consume_acc. Qed.

Lemma append_parts_nil (ps : list part) :
  append_parts ps [] = []
  <-> forallb (fun p => negb (truthy (text p))) ps = true.
Proof.
  induction ps as [|p ps IH]; cbn [append_parts forallb]; [tauto|].
  unfold truthy at 1 3. destruct (text p) as [[|c t]|]; cbn [negb andb];
    try exact IH.
  split; discriminate.
Qed.

Lemma consume_nil (evs : list event) :
  consume evs [] = [] <-> forallb silent evs = true.
Proof.
  induction evs as [|ev evs IH]; cbn [consume forallb]; [tauto|].
  rewrite consume_acc. unfold silent at 1.
  destruct (is_final_response ev); cbn [negb orb];
    [|rewrite app_nil_l; rewrite IH; tauto].
  destruct (content ev) as [[[|p ps]|]|];
    try (rewrite app_nil_l, IH; cbn [forallb]; tauto).
  rewrite andb_true_iff, <- IH, <- append_parts_nil.
  split.
  - intros E. apply app_eq_nil in E. exact E.
  - intros [-> ->]. reflexivity.
Qed.

(** When the run ends without an exception and none of its events is a
    final response with a text, the endpoint answers 500 and says that the
    agent gave no valid final response. *)
Theorem no_final_text_is_500 (g : globals) (data : MiningInput) (a : agent)
        (k : str) :
  mining_agent g = Some a -> GEMINI_API_KEY g = Some k ->
  failure (agent_run g a data) = None ->
  forallb silent (events (agent_run g a data)) = true ->
  snd (predict_and_recommend g data)
  = HTTPException 500 (DETAIL_PREFIX ++ MSG_NO_FINAL).
Proof.
  intros Ha Hk Hf Hs. rewrite (ready_answer g data a k Ha Hk).
  unfold respond. rewrite Hf. apply consume_nil in Hs. rewrite Hs.
  reflexivity.
Qed.

(** When the run ends without an exception, the endpoint answers with the
    validated response, or with status 500 and one of six details: no
    final response, one of the parser's three errors, the overflow of a
    count, or what the response schema raises. *)
Theorem failure_details (g : globals) (data : MiningInput) (a : agent)
        (k : str) :
  mining_agent g = Some a -> GEMINI_API_KEY g = Some k ->
  failure (agent_run g a data) = None ->
  (exists r response,
      validate (lit "success") r = Ret response
      /\ snd (predict_and_recommend g data) = Body response)
  \/ exists detail,
       snd (predict_and_recommend g data)
       = HTTPException 500 (DETAIL_PREFIX ++ detail)
       /\ (detail = MSG_NO_FINAL
           \/ detail = PARSE_PREFIX ++ MSG_MALFORMED
           \/ detail = PARSE_PREFIX ++ MSG_INCOMPLETE
           \/ (exists e, detail = PARSE_PREFIX ++ MSG_NUMERIC ++ exn_str e)
           \/ detail = exn_str OVERFLOW
           \/ exists r e,
                validate (lit "success") r = Raise e
                /\ detail = exn_str e).
Proof.
  intros Ha Hk Hf. rewrite (ready_answer g data a k Ha Hk).
  unfold respond. rewrite Hf.
  destruct (consume _ []) as [|c t]; [right; eexists; eauto|].
  destruct (parse_agent_response (c :: t)) as [[m|r]|e] eqn:Hp; cbn [bind].
  - right. eexists. split; [reflexivity|]. cbn [exn_str].
    apply parse_error_messages in Hp as [->|[->|[e ->]]]; eauto 7.
  - destruct (validate _ r) as [response|e] eqn:Hv.
    + left. eauto.
    + right. eexists. split; [reflexivity|]. do 5 right. eauto.
  - right. eexists. split; [reflexivity|]. do 4 right. left.
    f_equal. revert Hp. unfold parse_agent_response.
    destruct (find_sub END_ANALYSIS _) as [[A R]|]; [|discriminate].
    destruct (analysis_numbers A) as [[[p0 t0] d0]|e1]; [|discriminate].
    destruct (parse_blocks _ []) as [ds|e1] eqn:Hb; cbn [bind].
    + destruct (_ || _); discriminate.
    + intros [= <-]. apply (parse_blocks_raises _ _ _ Hb).
Qed.

End Answers.

Lemma no_final_text_is_500_witness :
  snd (@predict_and_recommend (demo_service quiet_run demo_validate)
         (service_globals quiet_run demo_validate) demo_input)
  = HTTPException 500 (DETAIL_PREFIX ++ MSG_NO_FINAL).
Proof.
  apply (@no_final_text_is_500 (demo_service quiet_run demo_validate)
           (service_globals quiet_run demo_validate) demo_input tt
           (lit "key")); reflexivity.
Defined.

Lemma failure_details_witness :
  exists detail,
    snd (@predict_and_recommend (demo_service (says (lit "Halo.")) demo_validate)
           (service_globals (says (lit "Halo.")) demo_validate) demo_input)
    = HTTPException 500 (DETAIL_PREFIX ++ detail).
Proof.
  destruct (@failure_details (demo_service (says (lit "Halo.")) demo_validate)
              (service_globals (says (lit "Halo.")) demo_validate)
              demo_input tt (lit "key") eq_refl eq_refl eq_refl)
    as [(r & response & _ & Hb)|(detail & Hd & _)].
  - vm_compute in Hb. discriminate Hb.
  - exists detail. exact Hd.
Defined.

(** *** After the start of the module *)

Section Started.
Context `{Collaborators}.

(** When the module has started, the agent is in place, whatever
    unpickling the model gave: the endpoint answers 503 exactly when the
    API key is absent. *)
Theorem started_service_needs_key (getenv : option str)
        (unpickled : res (option model)) (LlmAgent : res agent)
        (fresh : store) (g : globals) (data : MiningInput) :
  startup getenv unpickled LlmAgent fresh = Ret g ->
  mining_agent g <> None
  /\ (snd (predict_and_recommend g data) = HTTPException 503 MSG_UNAVAILABLE
      <-> getenv = None).
Proof.
  unfold startup, initialize_agent.
  destruct LlmAgent as [a|e]; cbn [bind]; [|discriminate].
  intros [= <-]. split; [discriminate|]. split.
  - intros H503. destruct getenv as [k|]; [|reflexivity].
    match type of H503 with
    | snd (predict_and_recommend ?g0 _) = _ =>
        destruct (respond_status g0 data a k eq_refl eq_refl)
          as [[r Hr]|[m Hm]]
    end; congruence.
  - intros ->. reflexivity.
Qed.

(** The response schema refuses a record that lacks a field (none of the
    fields of [RecommendationDetail] has a default): a parsed answer with
    such a record ends in status 500, with what the schema raises as its
    detail. *)
Theorem underfilled_record_is_500 (g : globals) (data : MiningInput)
        (a : agent) (k : str) (r : analysis) (d : dict) (key : string) :
  (forall st r' d' key',
      In d' (recommendations r') -> In key' required_keys ->
      d' !! key' = None -> exists e, validate st r' = Raise e) ->
  mining_agent g = Some a -> GEMINI_API_KEY g = Some k ->
  failure (agent_run g a data) = None ->
  consume (events (agent_run g a data)) [] <> [] ->
  parse_agent_response (consume (events (agent_run g a data)) [])
  = Ret (ResultDict r) ->
  In d (recommendations r) -> In key required_keys -> d !! key = None ->
  exists e,
    validate (lit "success") r = Raise e
    /\ snd (predict_and_recommend g data)
       = HTTPException 500 (DETAIL_PREFIX ++ exn_str e).
Proof.
  intros Hlaw Ha Hk Hf Hne Hp Hd Hkey Hmiss.
  destruct (Hlaw (lit "success") r d key Hd Hkey Hmiss) as [e He].
  exists e. split; [exact He|].
  rewrite (ready_answer g data a k Ha Hk). unfold respond. rewrite Hf.
  destruct (consume _ []) as [|c t]; [contradiction|].
  rewrite Hp. cbn [bind]. rewrite He. reflexivity.
Qed.

End Started.

Lemma started_service_needs_key_witness :
  @mining_agent demo demo_globals <> None
  /\ (snd (@predict_and_recommend demo demo_globals demo_input)
      = HTTPException 503 MSG_UNAVAILABLE
      <-> Some (lit "key") = None).
Proof.
  apply (@started_service_needs_key demo (Some (lit "key"))
           (Raise (Exception (lit "No such file"))) (Ret tt) []).
  reflexivity.
Defined.

Lemma strict_validate_law (st : str) (r : analysis) (d : dict)
      (key : string) :
  In d (recommendations r) -> In key required_keys -> d !! key = None ->
  exists e, strict_validate st r = Raise e.
Proof.
  intros Hd Hkey Hmiss. unfold strict_validate.
  destruct (forallb _ (recommendations r)) eqn:E; [exfalso|eauto].
  rewrite forallb_forall in E. specialize (E d Hd).
  rewrite forallb_forall in E. specialize (E key Hkey).
  apply bool_decide_eq_true in E. rewrite Hmiss in E.
  destruct E as [x E]. discriminate E.
Qed.

Lemma underfilled_record_is_500_witness :
  exists e,
    strict_validate (lit "success")
      {| initial_analysis_text := lit "Kontrol baik.";
         initial_prediction := f75_5;
         target_tonnage := 80;
         initial_difference := f4_5;
         recommendations :=
           [ <["title"%string := PStr (lit "Tambah Truk")]>
               (<["rationale"%string := PStr RATIONALE_FALLBACK]> ∅) ] |}
    = Raise e
    /\ snd (@predict_and_recommend
              (demo_service (says title_only_text) strict_validate)
              (service_globals (says title_only_text) strict_validate)
              demo_input)
       = HTTPException 500 (DETAIL_PREFIX ++ exn_str e).
Proof.
  apply (@underfilled_record_is_500
           (demo_service (says title_only_text) strict_validate)
           (service_globals (says title_only_text) strict_validate)
           demo_input tt (lit "key") _
           (<["title"%string := PStr (lit "Tambah Truk")]>
              (<["rationale"%string := PStr RATIONALE_FALLBACK]> ∅))
           "trucks").
  - apply strict_validate_law.
  - reflexivity.
  - reflexivity.
  - reflexivity.
  - discriminate.
  - vm_compute. reflexivity.
  - left. reflexivity.
  - simpl. auto.
  - reflexivity.
Defined.
(** ** The prediction tool *)

Section Tool.
Context `{Collaborators}.

Lemma item_ret (input_data : list pyval) (i : nat) (v : pyval) :
  item input_data i = Ret v <-> nth_error input_data i = Some v.
Proof.
  unfold item. destruct (nth_error input_data i); split; congruence.
Qed.

Lemma item_short (input_data : list pyval) (i : nat) :
  length input_data <= i -> item input_data i = Raise index_error.
Proof.
  intros Hl. unfold item. apply nth_error_None in Hl. rewrite Hl.
  reflexivity.
Qed.

Lemma item_long (input_data : list pyval) (i : nat) :
  i < length input_data -> exists v, item input_data i = Ret v.
Proof.
  intros Hl. unfold item.
  destruct (nth_error input_data i) eqn:E; [eauto|].
  apply nth_error_None in E. lia.
Qed.

(** The rows of scenarios that all have four entries. *)
Lemma rows_ret (scenarios : list (list pyval)) :
  forall (i : Z) (predictions : list spec_float),
    Forall (fun input_data => 4 <= length input_data) scenarios ->
    exists results,
      rows i scenarios predictions = Ret results
      /\ length results = Nat.min (length scenarios) (length predictions)
      /\ forall n row,
           nth_error results n = Some row ->
           exists input_data target,
             nth_error scenarios n = Some input_data
             /\ nth_error predictions n = Some target
             /\ row_of (i + 1 + Z.of_nat n) input_data target row.
Proof.
  induction scenarios as [|input_data scenarios IH]; intros i predictions Hs.
  - exists []. repeat split. intros [|n] row; discriminate.
  - destruct predictions as [|target predictions].
    + exists []. repeat split. intros [|n] row; discriminate.
    + inversion Hs as [|? ? H4 Hs']; subst.
      destruct (item_long input_data 0) as [t Ht]; [lia|].
      destruct (item_long input_data 1) as [e He]; [lia|].
      destruct (item_long input_data 2) as [o Ho]; [lia|].
      destruct (item_long input_data 3) as [w Hw]; [lia|].
      destruct (IH (i + 1)%Z predictions Hs') as (rest & Hr & Hl & Hrows).
      cbn [rows]. rewrite Ht, He, Ho, Hw. cbn [bind]. rewrite Hr. cbn [bind].
      eexists. split; [reflexivity|]. split; [simpl; lia|].
      intros [|n] row; cbn [nth_error].
      * intros [= <-]. exists input_data, target.
        apply item_ret in Ht, He, Ho, Hw.
        repeat split; try assumption. simpl. lia.
      * intros Hn. destruct (Hrows n row Hn) as (x & y & Hx & Hy & Hrow).
        exists x, y. repeat split; try apply Hrow; try assumption.
        destruct Hrow as [Hid _]. rewrite Hid. lia.
Qed.

(** A scenario of fewer than four entries, among those that have a
    prediction, makes [rows] raise. *)
Lemma rows_short (scenarios : list (list pyval)) :
  forall (i : Z) (predictions : list spec_float) (n : nat)
         (input_data : list pyval),
    nth_error scenarios n = Some input_data -> n < length predictions ->
    length input_data < 4 ->
    rows i scenarios predictions = Raise index_error.
Proof.
  induction scenarios as [|x scenarios IH];
    intros i predictions n input_data Hn Hp Hl; [destruct n; discriminate|].
  destruct predictions as [|target predictions]; [simpl in Hp; lia|].
  cbn [rows].
  destruct (item x 0) as [t|e0] eqn:Ht; cbn [bind];
    [|unfold item in Ht; destruct (nth_error x 0); congruence].
  destruct (item x 1) as [e|e0] eqn:He; cbn [bind];
    [|unfold item in He; destruct (nth_error x 1); congruence].
  destruct (item x 2) as [o|e0] eqn:Ho; cbn [bind];
    [|unfold item in Ho; destruct (nth_error x 2); congruence].
  destruct (item x 3) as [w|e0] eqn:Hw; cbn [bind];
    [|unfold item in Hw; destruct (nth_error x 3); congruence].
  destruct n as [|n].
  - injection Hn as ->. rewrite item_short in Hw by lia. discriminate.
  - simpl in Hn, Hp.
    rewrite (IH (i + 1)%Z predictions n input_data Hn) by lia.
    reflexivity.
Qed.

(** With a model loaded, scenarios of at least four entries each and a
    prediction that raises nothing, the tool answers with one row for
    each scenario that has a prediction, numbered from 1 in the order of
    the scenarios, each with the first four entries of its scenario and
    its rounded prediction. *)
Theorem tool_rows (g : globals) (m : model) (scenarios : list (list pyval))
        (predictions : list spec_float) :
  loaded_model g = Some m -> scenarios <> [] ->
  predict m scenarios = Ret predictions ->
  Forall (fun input_data => 4 <= length input_data) scenarios ->
  exists results,
    predict_mining_target g scenarios
    = lit "PREDICTION_RESULTS: " ++ repr_rows results
    /\ length results = Nat.min (length scenarios) (length predictions)
    /\ forall n row,
         nth_error results n = Some row ->
         exists input_data target,
           nth_error scenarios n = Some input_data
           /\ nth_error predictions n = Some target
           /\ row_of (1 + Z.of_nat n) input_data target row.
Proof.
  intros Hm Hne Hp Hs.
  destruct (rows_ret scenarios 0 predictions Hs) as (results & Hr & Hl & Hrows).
  exists results. split; [|split; [exact Hl|exact Hrows]].
  unfold predict_mining_target. rewrite Hm.
  destruct scenarios as [|x scenarios]; [contradiction|].
  rewrite Hp. cbn [bind]. rewrite Hr. reflexivity.
Qed.

(** With a model loaded and a prediction that raises nothing, one
    scenario of fewer than four entries among those that have a prediction
    makes the tool answer with the error text of a wrong dimension, and
    with no row at all. *)
Theorem short_scenario_is_error (g : globals) (m : model)
        (scenarios : list (list pyval)) (predictions : list spec_float)
        (n : nat) (input_data : list pyval) :
  loaded_model g = Some m ->
  predict m scenarios = Ret predictions ->
  nth_error scenarios n = Some input_data -> n < length predictions ->
  length input_data < 4 ->
  predict_mining_target g scenarios = MSG_DIMENSION.
Proof.
  intros Hm Hp Hn Hlt Hl. unfold predict_mining_target. rewrite Hm.
  destruct scenarios as [|x scenarios]; [destruct n; discriminate|].
  rewrite Hp. cbn [bind].
  rewrite (rows_short _ 0 predictions n input_data Hn Hlt Hl). reflexivity.
Qed.

End Tool.

Lemma tool_rows_witness :
  exists results,
    @predict_mining_target constant_model model_globals
      [[PInt 12; PInt 3; PInt 18; PInt 1]; [PInt 14; PInt 3; PInt 18; PInt 1]]
    = lit "PREDICTION_RESULTS: " ++ @repr_rows constant_model results
    /\ length results = 2.
Proof.
  destruct (@tool_rows constant_model model_globals tt
              [[PInt 12; PInt 3; PInt 18; PInt 1];
               [PInt 14; PInt 3; PInt 18; PInt 1]]
              [f75_5; f75_5])
    as (results & Ht & Hl & _).
  - reflexivity.
  - discriminate.
  - reflexivity.
  - repeat constructor.
  - exists results. split; [exact Ht|exact Hl].
Defined.

Lemma short_scenario_is_error_witness :
  @predict_mining_target constant_model model_globals
    [[PInt 12; PInt 3; PInt 18; PInt 1]; [PInt 14; PInt 3; PInt 18]]
  = MSG_DIMENSION.
Proof.
  apply (@short_scenario_is_error constant_model model_globals tt _
           [f75_5; f75_5] 1 [PInt 14; PInt 3; PInt 18]);
    first [reflexivity | simpl; lia].
Defined.
(** ** The texts of a rendered result *)

Lemma remove_fuel_enough (r : re) (n : nat) (s : str) :
  1 <= min_len r -> length s <= n -> remove_fuel n r s = remove_all r s.
Proof.
  intros Hr. unfold remove_all.
  assert (forall n m s, length s <= n -> length s <= m ->
                        remove_fuel n r s = remove_fuel m r s) as Hgen.
  { clear n s. induction n as [|n IH]; intros m s Hn Hm.
    - destruct s; [|simpl in Hn; lia]. destruct m; [reflexivity|].
      cbn [remove_fuel]. rewrite (search_nil r Hr). reflexivity.
    - destruct m as [|m].
      + destruct s; [|simpl in Hm; lia]. cbn [remove_fuel].
        rewrite (search_nil r Hr). reflexivity.
      + cbn [remove_fuel].
        destruct (search r s) as [[[p0 c0] r0]|] eqn:E; [|reflexivity].
        apply search_shorter in E. f_equal. apply IH; lia. }
  intros Hn. apply Hgen; lia.
Qed.

Lemma remove_step (r : re) (s : str) :
  1 <= min_len r ->
  remove_all r s =
  match search r s with
  | None => s
  | Some (pre, _, rest) => pre ++ remove_all r rest
  end.
Proof.
  intros Hr. unfold remove_all at 1. destruct s as [|c s].
  - rewrite (search_nil r Hr). reflexivity.
  - cbn [length remove_fuel].
    destruct (search r (c :: s)) as [[[p0 c0] r0]|] eqn:E; [|reflexivity].
    apply search_shorter in E. simpl in E.
    f_equal. apply remove_fuel_enough; [exact Hr|lia].
Qed.

Lemma analysis_word_match {A} (w : string) (s1 : str) caps
      (k : list str -> str -> option A) :
  In w analysis_words ->
  exec (one_of analysis_words) caps (lit w ++ s1) k = k caps s1.
Proof.
  intros Hw. simpl in Hw.
  repeat (destruct Hw as [<-|Hw];
          [simpl; destruct (k caps s1); reflexivity|]).
  contradiction.
Qed.

(** A match of the pattern of the analysis lines starts with a label and
    its colon. *)
Lemma analysis_no_match (x y : str) :
  (forall l, In l analysis_labels -> clear (lit l) x y) ->
  no_match analysis_line_re x y.
Proof.
  intros Hc pre suf E Hs.
  destruct (match_here analysis_line_re (suf ++ y)) as [[caps rest]|] eqn:Hm;
    [exfalso|reflexivity].
  unfold match_here, analysis_line_re in Hm. rewrite exec_Cat, exec_Grp in Hm.
  apply one_of_some in Hm as (w & s1 & Hw & Hs1 & Hk).
  rewrite exec_Cat, exec_Lit in Hk.
  apply lit_k_some in Hk as (s2 & -> & _).
  assert (In (String.append w ":") analysis_labels) as Hl.
  { unfold analysis_labels. apply in_map_iff. eauto. }
  specialize (Hc _ Hl pre suf E Hs).
  rewrite Hs1, append_colon in Hc.
  change (lit w ++ lit ":" ++ s2) with (lit w ++ [":"%char] ++ s2) in Hc.
  rewrite app_assoc, starts_with_app in Hc. discriminate.
Qed.

Lemma number_match {A} (caps : list str) (tok rest : str)
      (k : list str -> str -> option A) (a : A) :
  numeral tok ->
  match rest with [] => True | x :: _ => is_digit_or_dot x = false end ->
  k caps rest = Some a ->
  star_k is_space (" "%char :: tok ++ rest)
         (fun s2 => exec (Plus is_digit_or_dot) caps s2 k) = Some a.
Proof.
  intros [Hne Ht] Hrest Hk. destruct tok as [|x tok]; [contradiction|].
  cbn [forallb] in Ht. apply andb_true_iff in Ht as [Hx Ht].
  cbn [star_k]. change (is_space " ") with true. cbn [app].
  rewrite (star_k_stop is_space (x :: tok ++ rest))
    by (apply digit_or_dot_plain in Hx; tauto).
  cbn [exec]. rewrite Hx.
  erewrite star_k_greedy; [reflexivity|exact Ht|].
  rewrite star_k_stop by exact Hrest. exact Hk.
Qed.

Lemma analysis_line_match (w : string) (tok rest : str) :
  In w analysis_words -> numeral tok ->
  match rest with [] => True | x :: _ => is_digit_or_dot x = false end ->
  match_here analysis_line_re
             (lit (String.append w ":") ++ " "%char :: tok ++ rest)
  = Some ([lit w], rest).
Proof.
  intros Hw Ht Hrest. unfold match_here, analysis_line_re.
  rewrite append_colon, <- app_assoc.
  rewrite exec_Cat, exec_Grp, (analysis_word_match _ _ _ _ Hw). cbv beta.
  rewrite firstn_suffix_length.
  rewrite exec_Cat, exec_Lit. change [":"%char] with (lit ":").
  rewrite lit_k_app, exec_Cat, exec_Star. cbv beta.
  apply number_match; auto.
Qed.

Lemma analysis_min_len : 1 <= min_len analysis_line_re.
Proof. vm_compute. lia. Qed.

(** Removing the labelled number that stands right after [x]. *)
Lemma remove_line (w : string) (x tok rest : str) :
  In w analysis_words -> numeral tok ->
  no_match analysis_line_re x
           (line (String.append w ":") tok ++ rest) ->
  remove_all analysis_line_re (x ++ line (String.append w ":") tok ++ rest)
  = x ++ remove_all analysis_line_re (nl ++ rest).
Proof.
  intros Hw Ht Hx.
  rewrite (remove_step _ _ analysis_min_len), (search_skip _ _ _ Hx).
  rewrite line_app.
  rewrite (search_here _ _ _ _
             (analysis_line_match w tok (nl ++ rest) Hw Ht eq_refl)).
  rewrite app_nil_r. reflexivity.
Qed.

Lemma nl_no_analysis (y : str) : no_match analysis_line_re nl y.
Proof.
  apply analysis_no_match. intros l Hl. simpl in Hl.
  repeat (destruct Hl as [<-|Hl]; [apply clear_start; reflexivity|]).
  contradiction.
Qed.

Section AnalysisText.
Variable fmt : spec_float -> str.
Variable a : analysis_result.
Hypothesis Hwf : wf_result fmt a.

(** What is left of the rendered analysis once the three labelled numbers
    are removed: the text and four line feeds. *)
Lemma remove_rendered :
  remove_all analysis_line_re (render_analysis fmt a)
  = a_analysis_text a ++ nl ++ nl ++ nl ++ nl.
Proof.
  destruct (analysis_numerals fmt a Hwf) as (Ht & Hp & Hd).
  unfold render_analysis. rewrite app_assoc.
  change (line "Target_Tonase_Ekstrak:")
    with (line (String.append "Target_Tonase_Ekstrak" ":")).
  change (line "Prediksi_Kontrol:")
    with (line (String.append "Prediksi_Kontrol" ":")).
  change (line "Selisih_Kontrol:")
    with (line (String.append "Selisih_Kontrol" ":")).
  rewrite remove_line; [|simpl; auto|exact Ht|].
  - rewrite <- app_assoc. do 2 f_equal.
    rewrite remove_line; [|simpl; auto|exact Hp|apply nl_no_analysis].
    f_equal.
    rewrite <- (app_nil_r (line _ (fmt (a_difference a)))).
    rewrite remove_line; [|simpl; auto|exact Hd|apply nl_no_analysis].
    reflexivity.
  - apply analysis_no_match. intros l Hl. apply clear_app.
    + apply clear_text_nl.
      * apply (analysis_free fmt a Hwf). right. exact Hl.
      * simpl in Hl.
        repeat (destruct Hl as [<-|Hl]; [reflexivity|]). contradiction.
    + apply clear_start. simpl in Hl.
      repeat (destruct Hl as [<-|Hl]; [reflexivity|]). contradiction.
Qed.

End AnalysisText.

Lemma lstrip_app (t ws : str) :
  lstrip (t ++ ws)
  = match lstrip t with [] => lstrip ws | _ :: _ => lstrip t ++ ws end.
Proof.
  induction t as [|c t IH]; cbn [app lstrip].
  - destruct (lstrip ws); reflexivity.
  - destruct (is_space c); [exact IH|reflexivity].
Qed.

Lemma rstrip_blank (u ws : str) :
  forallb is_space ws = true -> rstrip (u ++ ws) = rstrip u.
Proof.
  intros H. unfold rstrip. rewrite rev_app_distr.
  rewrite lstrip_blank by (apply forallb_rev_true, H). reflexivity.
Qed.

(** Blanks after a text do not show after the strip. *)
Lemma strip_app_blank (t ws : str) :
  forallb is_space ws = true -> strip (t ++ ws) = strip t.
Proof.
  intros H. unfold strip. rewrite lstrip_app.
  destruct (lstrip t) as [|c u].
  - rewrite <- (app_nil_r ws), (lstrip_blank _ _ H). reflexivity.
  - apply rstrip_blank, H.
Qed.

Lemma heading_digit (i : nat) :
  1 <= i <= 9 ->
  exists d, is_digit d = true /\ show_int (Z.of_nat i) = [d].
Proof.
  intros Hi.
  exists (nth i (lit "0123456789") "0"%char).
  do 10 (destruct i as [|i]; [try lia; split; vm_compute; reflexivity|]).
  lia.
Qed.

Section BlockTexts.
Variable fmt : spec_float -> str.
Variable i : nat.
Variable r : recommendation.
Hypothesis Hwf : wf_recommendation fmt r.

(** The record of a rendered block: its numbers, and its rationale
    cleaned like every value. *)
Lemma block_record :
  exists d,
    parse_block (block_text fmt i r) = Ret d
    /\ same_numbers r d
    /\ d !! "rationale"%string = Some (PStr (clean (r_rationale r))).
Proof.
  pose proof (weather_numeral fmt r Hwf) as Hw.
  unfold block_text, parse_block. rewrite (findall_block fmt i r Hwf).
  destruct Hwf as (Ht & He & Ho & _ & Hp & Hd & _).
  cbn [set_params nth].
  rewrite (set_int _ "Truk" "trucks") by (simpl; auto). cbn [bind].
  rewrite (set_int _ "Ekskavator" "excavators") by (simpl; auto). cbn [bind].
  rewrite (set_int _ "Operator" "operators") by (simpl; auto). cbn [bind].
  rewrite (set_text _ "Cuaca" "weather") by (simpl; auto). cbn [bind].
  rewrite (set_float fmt _ "Prediksi" "predicted_tonnage") by (simpl; auto).
  cbn [bind].
  rewrite (set_float fmt _ "Selisih" "difference_from_target")
    by (simpl; auto).
  cbn [bind].
  rewrite (set_text _ "Alasan" "rationale") by (simpl; auto). cbn [bind].
  rewrite lookup_insert_eq. eexists. split; [reflexivity|].
  rewrite (clean_numeral _ Hw).
  split; [|apply lookup_insert_eq].
  unfold same_numbers. repeat split.
  all: repeat (rewrite lookup_insert_ne by discriminate).
  all: apply lookup_insert_eq.
Qed.

(** The heading of one of the first nine blocks gives the title. *)
Lemma block_title :
  1 <= i <= 9 ->
  group1 (search title_re (block_text fmt i r)) = Some (r_title r).
Proof.
  intros Hi. destruct (heading_digit i Hi) as (d & Hd & Ed).
  destruct Hwf as (_ & _ & _ & _ & _ & _ & Hline & _).
  unfold block_text, render_heading. rewrite Ed.
  replace ((lit "Rekomendasi " ++ [d] ++ lit ": " ++ r_title r ++ nl)
           ++ render_fields fmt r)
    with (lit "Rekomendasi " ++ d :: lit ": " ++ r_title r
          ++ (nl ++ render_fields fmt r))
    by (rewrite <- !app_assoc; reflexivity).
  rewrite (search_here _ _ _ _
             (title_match d (r_title r) (nl ++ render_fields fmt r)
                Hd Hline eq_refl)).
  reflexivity.
Qed.

Lemma parse_piece_texts (ws1 ws2 : str) (rest : list str)
      (acc : list dict) :
  1 <= i <= 9 ->
  forallb is_space ws1 = true -> forallb is_space ws2 = true ->
  exists d,
    parse_blocks ((ws1 ++ block_text fmt i r ++ ws2) :: rest) acc
    = parse_blocks rest (acc ++ [d])
    /\ same_numbers r d /\ same_texts r d.
Proof.
  intros Hi H1 H2. cbn [parse_blocks].
  rewrite (strip_blank _ _ _ H1 H2 (block_text_trimmed fmt i r Hwf)).
  destruct block_record as (d & Hd & Hsame & Hr).
  pose proof (parse_block_title _ _ Hd) as Ht.
  rewrite (block_title Hi) in Ht.
  destruct (block_text fmt i r) as [|c b] eqn:Hb.
  { apply (f_equal (@length ascii)) in Hb. unfold block_text in Hb.
    unfold render_heading in Hb. rewrite !length_app in Hb.
    simpl in Hb. lia. }
  rewrite Hd. cbn [bind].
  destruct (parse_block_keys _ _ Hd) as (_ & _ & ->).
  exists d. split; [reflexivity|]. split; [exact Hsame|].
  split; [exact Ht|exact Hr].
Qed.

End BlockTexts.

Section ResultTexts.
Variable fmt : spec_float -> str.

Lemma parse_pieces_texts (l : list recommendation) :
  Forall (wf_recommendation fmt) l ->
  forall i acc,
    1 <= i -> i + length l <= 10 ->
    exists ds,
      parse_blocks (pieces fmt i l) acc = Ret (acc ++ ds)
      /\ Forall2 same_numbers l ds /\ Forall2 same_texts l ds.
Proof.
  induction 1 as [|r l Hr Hl IH]; intros i acc Hi Hlen.
  - exists []. rewrite app_nil_r. repeat split; constructor.
  - cbn [pieces]. cbn [length] in Hlen.
    destruct (parse_piece_texts fmt i r Hr nl nl (pieces fmt (S i) l) acc)
      as (d & -> & Hnum & Htxt); [lia|reflexivity|reflexivity|].
    destruct (IH (S i) (acc ++ [d])) as (ds & Hds & Hn & Ht); [lia|lia|].
    exists (d :: ds). rewrite Hds, <- app_assoc.
    split; [reflexivity|]. split; constructor; assumption.
Qed.

Lemma parse_rendered_texts (a : analysis_result) :
  wf_result fmt a -> length (a_recommendations a) <= 9 ->
  exists ds,
    parse_agent_response (render fmt a)
    = Ret (ResultDict
             {| initial_analysis_text := strip (a_analysis_text a);
                initial_prediction := a_prediction a;
                target_tonnage := a_target_tonnage a;
                initial_difference := a_difference a;
                recommendations := ds |})
    /\ Forall2 same_numbers (a_recommendations a) ds
    /\ Forall2 same_texts (a_recommendations a) ds.
Proof.
  intros Hwf Hlen. unfold parse_agent_response, render.
  rewrite (find_delimiter fmt a Hwf), (analysis_numbers_rendered fmt a Hwf).
  rewrite (remove_rendered fmt a Hwf).
  rewrite strip_app_blank by reflexivity.
  destruct Hwf as (Hnz & _ & Hp & _ & _ & _ & Hrecs).
  rewrite (split_rendered fmt _ Hrecs).
  destruct (parse_pieces_texts _ Hrecs 1 []) as (ds & -> & Hn & Ht);
    [lia|lia|].
  cbn [bind]. apply Z.eqb_neq in Hnz. rewrite Hnz, Hp. cbn [orb app].
  exists ds. split; [reflexivity|]. split; assumption.
Qed.

End ResultTexts.

(** Parsing the rendering of a well-formed result of at most nine
    recommendations gives back its texts as well: the analysis text
    stripped, each title stripped, and each rationale with every [Ton] and
    every comma removed, then stripped. *)
Theorem texts_round_trip (fmt : spec_float -> str) (a : analysis_result) :
  wf_result fmt a -> length (a_recommendations a) <= 9 ->
  exists p,
    parse_agent_response (render fmt a) = Ret (ResultDict p)
    /\ initial_analysis_text p = strip (a_analysis_text a)
    /\ Forall2 same_numbers (a_recommendations a) (recommendations p)
    /\ Forall2 same_texts (a_recommendations a) (recommendations p).
Proof.
  intros Hwf Hlen.
  destruct (parse_rendered_texts fmt a Hwf Hlen) as (ds & Hp & Hn & Ht).
  eexists. split; [exact Hp|].
  cbn [initial_analysis_text recommendations]. auto.
Qed.

Lemma texts_round_trip_witness :
  exists p,
    parse_agent_response (render show_float scenario_result)
    = Ret (ResultDict p)
    /\ initial_analysis_text p = strip (lit "Kontrol baik.")
    /\ Forall2 same_numbers (a_recommendations scenario_result)
               (recommendations p)
    /\ Forall2 same_texts (a_recommendations scenario_result)
               (recommendations p).
Proof.
  apply (texts_round_trip show_float scenario_result).
  - apply scenario_result_wf.
  - simpl. lia.
Defined.

Lemma clean_plain (t : str) :
  free_of ["Ton"; ","]%string t -> trimmed t -> clean t = t.
Proof.
  intros Hfree Ht. unfold free_of in Hfree.
  apply Forall_cons_iff in Hfree as [HTon Hfree].
  apply Forall_cons_iff in Hfree as [Hcomma _].
  unfold contains in HTon, Hcomma. unfold clean.
  rewrite (replace_absent (lit "Ton"))
    by (destruct (find_sub (lit "Ton") t); [discriminate|reflexivity]).
  rewrite (replace_absent (lit ","))
    by (destruct (find_sub (lit ",") t); [discriminate|reflexivity]).
  rewrite <- (app_nil_r t) at 1. rewrite <- (app_nil_l (t ++ [])).
  apply strip_blank; [reflexivity|reflexivity|exact Ht].
Qed.

(** Texts without blanks around them, and rationales without [Ton] and
    without a comma, come back exactly as they were written. *)
Theorem plain_texts_round_trip (fmt : spec_float -> str)
        (a : analysis_result) :
  wf_result fmt a -> length (a_recommendations a) <= 9 ->
  strip (a_analysis_text a) = a_analysis_text a ->
  Forall plain_texts (a_recommendations a) ->
  exists p,
    parse_agent_response (render fmt a) = Ret (ResultDict p)
    /\ initial_analysis_text p = a_analysis_text a
    /\ Forall2 kept_texts (a_recommendations a) (recommendations p).
Proof.
  intros Hwf Hlen Hstrip Hplain.
  destruct (parse_rendered_texts fmt a Hwf Hlen) as (ds & Hp & _ & Ht).
  eexists. split; [exact Hp|].
  cbn [initial_analysis_text recommendations]. split; [exact Hstrip|].
  destruct Hwf as (_ & _ & _ & _ & _ & _ & Hrecs).
  clear Hp Hlen Hstrip. revert Ht Hplain Hrecs.
  generalize (a_recommendations a) as l. intros l Ht.
  induction Ht as [|r d l ds' [Htitle Hrat] Hrest IH]; intros Hplain Hrecs;
    [constructor|].
  apply Forall_cons_iff in Hplain as [[Hpt Hpr] Hplain].
  apply Forall_cons_iff in Hrecs as [Hr Hrecs].
  constructor.
  - destruct Hr as (_ & _ & _ & _ & _ & _ & _ & _ & _ & _ & Htrim).
    split; [rewrite Htitle, Hpt; reflexivity|].
    rewrite Hrat, (clean_plain _ Hpr Htrim). reflexivity.
  - apply IH; [exact Hplain|exact Hrecs].
Qed.

Lemma plain_texts_round_trip_witness :
  exists p,
    parse_agent_response (render show_float scenario_result)
    = Ret (ResultDict p)
    /\ initial_analysis_text p = lit "Kontrol baik."
    /\ Forall2 kept_texts (a_recommendations scenario_result)
               (recommendations p).
Proof.
  apply (plain_texts_round_trip show_float scenario_result).
  - apply scenario_result_wf.
  - simpl. lia.
  - reflexivity.
  - apply List.Forall_cons; [|apply List.Forall_nil].
    split; [reflexivity|wf_free].
Defined.
(** ** The numbers of a successful parse *)

Lemma shr_1_nonneg (mrs : shr_record) :
  (0 <= shr_m mrs)%Z -> (0 <= shr_m (shr_1 mrs))%Z.
Proof.
  destruct mrs as [m r s]. cbn [shr_m]. intros Hm.
  destruct m as [|[p|p|]|p]; cbn [shr_1 shr_m]; lia.
Qed.

Lemma iter_pos_nonneg (p : positive) :
  forall mrs,
    (0 <= shr_m mrs)%Z -> (0 <= shr_m (SpecFloat.iter_pos shr_1 p mrs))%Z.
Proof.
  induction p as [p IH|p IH|]; intros mrs Hm; cbn [SpecFloat.iter_pos].
  - apply IH, IH, shr_1_nonneg, Hm.
  - apply IH, IH, Hm.
  - apply shr_1_nonneg, Hm.
Qed.

Lemma shr_fexp_nonneg (m e : Z) (l : location) :
  (0 <= m)%Z -> (0 <= shr_m (fst (shr_fexp prec emax m e l)))%Z.
Proof.
  intros Hm. unfold shr_fexp, shr.
  assert (0 <= shr_m (shr_record_of_loc m l))%Z as H0
      by (destruct l as [|[]]; exact Hm).
  destruct (fexp prec emax (Zdigits2 m + e) - e)%Z; cbn [fst];
    [exact H0|apply iter_pos_nonneg, H0|exact H0].
Qed.

Lemma round_nearest_even_nonneg (m : Z) (l : location) :
  (0 <= m)%Z -> (0 <= round_nearest_even m l)%Z.
Proof.
  intros Hm. destruct l as [|[]]; cbn [round_nearest_even]; try lia.
  destruct (Z.even m); lia.
Qed.

Lemma binary_round_aux_nonneg (mx ex : Z) (lx : location) :
  (0 <= mx)%Z ->
  nonneg_float (binary_round_aux prec emax false mx ex lx) = true.
Proof.
  intros Hm. unfold binary_round_aux.
  pose proof (shr_fexp_nonneg mx ex lx Hm) as H1.
  destruct (shr_fexp prec emax mx ex lx) as [mrs' e']. cbn [fst] in H1.
  pose proof (shr_fexp_nonneg _ e' loc_Exact
                (round_nearest_even_nonneg _ (loc_of_shr_record mrs') H1))
    as H2.
  destruct (shr_fexp prec emax _ e' loc_Exact) as [mrs'' e''].
  cbn [fst] in H2.
  destruct (shr_m mrs'') as [|m|m]; [reflexivity| |lia].
  destruct (e'' <=? emax - prec)%Z; reflexivity.
Qed.

Lemma of_decimal_nonneg (m e : Z) : nonneg_float (of_decimal false m e) = true.
Proof.
  unfold of_decimal. destruct m as [|p|p]; try reflexivity.
  destruct e as [|e|e].
  - unfold binary_round. destruct (shl_align _ _ _) as [mz ez].
    apply binary_round_aux_nonneg. lia.
  - unfold binary_round. destruct (shl_align _ _ _) as [mz ez].
    apply binary_round_aux_nonneg. lia.
  - unfold SFdiv, SFdiv_core_binary. cbn [xorb].
    match goal with
    | |- context [Z.div_eucl ?x ?y] =>
        pose proof (Z.div_pos x y) as Hq; unfold Z.div in Hq;
        destruct (Z.div_eucl x y) as [q r] eqn:Eq
    end.
    apply binary_round_aux_nonneg. cbn [fst] in Hq. apply Hq; [|lia].
    match goal with
    | |- (0 <= match ?s with _ => _ end)%Z =>
        destruct s eqn:Es; try lia
    end.
    rewrite Z.shiftl_mul_pow2 by lia.
    assert (0 < 2 ^ Zpos p0)%Z by (apply Z.pow_pos_nonneg; lia). lia.
Qed.

(** A token of digits and dots is read as a float that is zero, positive
    or plus infinity. *)
Lemma token_nonneg (tok : str) (f : spec_float) :
  forallb is_digit_or_dot tok = true ->
  float_of_str tok = Ret f -> nonneg_float f = true.
Proof.
  intros Ht. rewrite (token_parse _ Ht). unfold parse_number.
  rewrite (token_sign _ Ht), (token_lower _ Ht).
  rewrite !(token_not_word _ Ht) by reflexivity. cbn [orb].
  destruct (span is_digit tok) as [ip s2].
  destruct (match s2 with [] => _ | _ :: _ => _ end) as [fp s3].
  destruct (ip ++ fp); [discriminate|].
  destruct (parse_exponent s3); [|discriminate].
  intros [= <-]. apply of_decimal_nonneg.
Qed.

Lemma int_of_float_nonneg (f : spec_float) (n : Z) :
  nonneg_float f = true -> int_of_float f = Ret n -> (0 <= n)%Z.
Proof.
  destruct f as [s|s| |s m e]; cbn [nonneg_float int_of_float];
    try discriminate.
  - intros _ [= <-]. lia.
  - intros Hs. apply negb_true_iff in Hs. subst s. intros [= <-].
    destruct e as [|e|e].
    + lia.
    + assert (0 < 2 ^ Zpos e)%Z by (apply Z.pow_pos_nonneg; lia). lia.
    + apply Z.div_pos; [lia|]. apply Z.pow_pos_nonneg; lia.
Qed.

(** A successful parse has a target of at least 1 and a prediction that
    is positive or plus infinity; its difference is zero, positive or plus
    infinity.  None of the three is negative or NaN. *)
Theorem success_is_positive (text : str) (a : analysis) :
  parse_agent_response text = Ret (ResultDict a) ->
  (1 <= target_tonnage a)%Z
  /\ nonneg_float (initial_prediction a) = true
  /\ is_zero (initial_prediction a) = false
  /\ nonneg_float (initial_difference a) = true.
Proof.
  unfold parse_agent_response.
  destruct (find_sub END_ANALYSIS text) as [[A R]|]; [|discriminate].
  destruct (analysis_numbers A) as [[[p t] d]|e1] eqn:Hn; [|discriminate].
  destruct (parse_blocks _ []) as [ds|e1]; cbn [bind]; [|discriminate].
  destruct ((t =? 0)%Z || is_zero p) eqn:Hz; [discriminate|].
  intros [= <-]. cbn [target_tonnage initial_prediction initial_difference].
  apply orb_false_iff in Hz as [Ht Hp]. apply Z.eqb_neq in Ht.
  apply analysis_numbers_ret in Hn as (Hp' & Ht' & Hd').
  assert (0 <= t)%Z as Ht0.
  { destruct (group1 (search target_re A)) as [g|] eqn:Hg; [|lia].
    destruct Ht' as (x & Hx & Hi).
    apply labelled_number_group in Hg as [_ Hg].
    apply (int_of_float_nonneg x); [apply (token_nonneg g); assumption|].
    exact Hi. }
  split; [lia|]. split; [|split; [exact Hp|]].
  - destruct (group1 (search pred_re A)) as [g|] eqn:Hg;
      [|subst p; reflexivity].
    apply labelled_number_group in Hg as [_ Hg].
    apply (token_nonneg g); assumption.
  - destruct (group1 (search diff_re A)) as [g|] eqn:Hg;
      [|subst d; reflexivity].
    apply labelled_number_group in Hg as [_ Hg].
    apply (token_nonneg g); assumption.
Qed.

Lemma success_is_positive_witness :
  (1 <= 80)%Z /\ nonneg_float f75_5 = true /\ is_zero f75_5 = false
  /\ nonneg_float f4_5 = true.
Proof.
  apply (success_is_positive scenario_text
           {| initial_analysis_text := lit "Kontrol baik.";
              initial_prediction := f75_5;
              target_tonnage := 80;
              initial_difference := f4_5;
              recommendations := [scenario_recommendation] |}).
  vm_compute. reflexivity.
Defined.
(** ** A value on a later line *)

Lemma value_match_here {A} (c : ascii -> bool) (caps : list str)
      (v rest : str) (k : list str -> str -> option A) (a : A) :
  match v with [] => False | x :: _ => is_space x = false end ->
  forallb c v = true ->
  match rest with [] => True | x :: _ => c x = false end ->
  k (caps ++ [v]) rest = Some a ->
  star_k is_space (v ++ rest)
         (fun s2 => exec (Grp (Plus c)) caps s2 k) = Some a.
Proof.
  intros Hv Hc Hrest Hk. destruct v as [|x v]; [contradiction|].
  rewrite (star_k_stop is_space ((x :: v) ++ rest)) by exact Hv.
  cbn [exec app]. cbn [forallb] in Hc. apply andb_true_iff in Hc as [-> Hc].
  erewrite star_k_greedy; [reflexivity|exact Hc|].
  rewrite star_k_stop by exact Hrest.
  change (x :: v ++ rest) with ((x :: v) ++ rest).
  rewrite firstn_suffix_length. exact Hk.
Qed.

Lemma param_match_blanks (w : string) (ws v tail : str) :
  In w param_words -> forallb is_space ws = true ->
  value_ok v -> line_end tail ->
  match_here param_re (lit (String.append w ":") ++ ws ++ v ++ tail)
  = Some ([lit w; v], tail).
Proof.
  intros Hw Hws [Hv1 Hv2] Ht. unfold match_here, param_re.
  rewrite append_colon, <- app_assoc.
  rewrite exec_Cat, exec_Grp, (param_word_match _ _ _ _ Hw). cbv beta.
  rewrite firstn_suffix_length.
  rewrite exec_Cat, exec_Lit. change [":"%char] with (lit ":").
  rewrite lit_k_app, exec_Cat, exec_Star. cbv beta.
  apply star_k_greedy; [exact Hws|].
  apply value_match_here; auto.
  destruct tail as [|x tail]; [exact I|]. simpl in Ht. subst x. reflexivity.
Qed.

(** The value of a field is the first text that follows its colon after
    any blanks, line feeds included: a field left empty takes the next
    line as its value, and the field of that line is not met. *)
Theorem value_after_blanks (w : string) (ws v tail : str) :
  In w param_words -> forallb is_space ws = true ->
  value_ok v -> line_end tail ->
  findall param_re (lit (String.append w ":") ++ ws ++ v ++ tail)
  = [lit w; v] :: findall param_re tail.
Proof.
  intros Hw Hws Hv Ht.
  rewrite (findall_step _ _ param_min_len).
  rewrite (search_here _ _ _ _ (param_match_blanks w ws v tail Hw Hws Hv Ht)).
  reflexivity.
Qed.

Lemma value_after_blanks_witness :
  findall param_re
    (lit "Truk:" ++ nl ++ lit "Ekskavator: 3" ++ nl ++ lit "Operator: 18")
  = [lit "Truk"; lit "Ekskavator: 3"]
      :: findall param_re (nl ++ lit "Operator: 18").
Proof.
  apply (value_after_blanks "Truk" nl (lit "Ekskavator: 3")
           (nl ++ lit "Operator: 18")).
  - simpl. auto.
  - reflexivity.
  - split; reflexivity.
  - reflexivity.
Defined.
